(** * Unscented Kalman filter (CTRV model, lidar + radar): embedding of [src/ukf.cpp]
    and of the driver [src/main.cpp]

    The filter class [UKF] is embedded as a record of its data members and its
    member functions as state transformers on that record.

    - A C++ [double] is an element of a type [D] carrying the operations of the
      class [Double]: the arithmetic operators, the comparisons the code uses
      ([<], [>], [!=]), the [libm] functions it calls ([sqrt], [sin], [cos],
      [atan2], [fabs]) and the constant [M_PI].  Three instances are given:
      the real numbers (exact arithmetic, with [M_PI] equal to pi: no
      rounding, no overflow); the reals extended with the IEEE special values
      [+inf], [-inf] and [NaN] (exact arithmetic on the finite values, one
      zero: no rounding, overflow or underflow); and IEEE binary64 itself,
      the kernel's primitive floating-point numbers, with [sin], [cos] and
      [atan2] left to the C library.  A statement over the first two is a
      statement in exact arithmetic; where the doubles part from it (a sum
      that is not exact, a loop that does not end) the third shows it.
    - An Eigen vector or matrix is its coefficient function; the sizes, which
      the constructor fixes once and for all, are the constants [n_x_],
      [n_aug_] and [n_z_radar_].
    - The two Eigen decompositions the code calls ([llt().matrixL()] and
      [inverse()]) belong to the Eigen library, not to this repository: they
      are the operations of the class [Eigen].
    - The [while] loops of the angle normalization carry fuel; a member
      function that contains one returns an [outcome].
    - A time stamp is an unbounded integer.
    - A [std::vector] of the driver is a list, and the input file is the list
      of its lines; the stream operations of the C++ standard library are the
      operations of the class [InputStream]. *)

From Stdlib Require Import ZArith Bool String List Lia.
From Stdlib Require Import Reals Lra.
From Stdlib Require Uint63 PrimFloat FloatOps SpecFloat.
Import ListNotations.

Set Implicit Arguments.

(* ========================================================================= *)
(** * Part I: the embedding *)

(* ------------------------------------------------------------------------- *)
(** ** Outcomes of a call *)

(** A call returns normally, signals an error to its caller (a C++ exception),
    or has not finished when the fuel of its loops is spent. *)
Inductive outcome (A : Type) : Type :=
| Returns (a : A)
| Throws
| OutOfFuel.

Arguments Returns {A} a.
Arguments Throws {A}.
Arguments OutOfFuel {A}.

Definition bind {A B : Type} (m : outcome A) (k : A -> outcome B) : outcome B :=
  match m with
  | Returns a => k a
  | Throws => Throws
  | OutOfFuel => OutOfFuel
  end.

Notation "x <- m ;; k" := (bind m (fun x => k))
  (at level 61, m at next level, right associativity).

(** [for (int i = 0; i < n; i++) body] on a loop state of type [S]. *)
Fixpoint for_loop {S : Type} (n : nat) (body : nat -> S -> S) (s : S) : S :=
  match n with
  | O => s
  | Datatypes.S k => body k (for_loop k body s)
  end.

Fixpoint for_loop_m {S : Type} (n : nat) (body : nat -> S -> outcome S) (s : S)
  : outcome S :=
  match n with
  | O => Returns s
  | Datatypes.S k => s' <- for_loop_m k body s ;; body k s'
  end.

(* ------------------------------------------------------------------------- *)
(** ** The scalar type [double] *)

Class Double (D : Type) : Type := {
  d_of_Z : Z -> D;            (* conversion int -> double, integer literals *)
  dadd : D -> D -> D;
  dsub : D -> D -> D;
  dmul : D -> D -> D;
  ddiv : D -> D -> D;
  dopp : D -> D;              (* unary minus *)
  dsqrt : D -> D;
  dsin : D -> D;
  dcos : D -> D;
  datan2 : D -> D -> D;
  dfabs : D -> D;
  dlt : D -> D -> bool;       (* a < b *)
  dgt : D -> D -> bool;       (* a > b *)
  dne : D -> D -> bool;       (* a != b *)
  M_PI : D
}.

Declare Scope dbl_scope.
Delimit Scope dbl_scope with D.
Notation "x + y" := (dadd x y) : dbl_scope.
Notation "x - y" := (dsub x y) : dbl_scope.
Notation "x * y" := (dmul x y) : dbl_scope.
Notation "x / y" := (ddiv x y) : dbl_scope.
Notation "- x" := (dopp x) : dbl_scope.
Notation "x <? y" := (dlt x y) : dbl_scope.
Notation "x >? y" := (dgt x y) : dbl_scope.
Notation "x !=? y" := (dne x y) (at level 70) : dbl_scope.

(** A decimal literal [n/d] of the source, e.g. [0.0225] is [dec 225 10000]. *)
Definition dec {D} `{Double D} (n d : Z) : D := (d_of_Z n / d_of_Z d)%D.

(* ------------------------------------------------------------------------- *)
(** ** Eigen vectors and matrices *)

Definition Vector (D : Type) : Type := nat -> D.
Definition Matrix (D : Type) : Type := nat -> nat -> D.

(** The two decompositions of the Eigen library the filter calls, on an
    [n]x[n] matrix. *)
Class Eigen (D : Type) : Type := {
  llt_matrixL : nat -> Matrix D -> Matrix D;   (* M.llt().matrixL() *)
  inverse : nat -> Matrix D -> Matrix D        (* M.inverse() *)
}.

Section LinearAlgebra.
Context {D : Type} `{Double D}.
Local Open Scope dbl_scope.

Definition zero : D := d_of_Z 0.

(** [sum_upto n f] is [f 0 + ... + f (n-1)], accumulated from zero. *)
Fixpoint sum_upto (n : nat) (f : nat -> D) : D :=
  match n with
  | O => zero
  | S k => sum_upto k f + f k
  end.

Definition vfill (c : D) : Vector D := fun _ => c.
Definition mfill (c : D) : Matrix D := fun _ _ => c.
Definition vadd (u v : Vector D) : Vector D := fun i => u i + v i.
Definition vsub (u v : Vector D) : Vector D := fun i => u i - v i.
Definition vscale (c : D) (v : Vector D) : Vector D := fun i => c * v i.
Definition madd (A B : Matrix D) : Matrix D := fun i j => A i j + B i j.
Definition msub (A B : Matrix D) : Matrix D := fun i j => A i j - B i j.
Definition transpose (A : Matrix D) : Matrix D := fun i j => A j i.
Definition col (A : Matrix D) (j : nat) : Vector D := fun i => A i j.
Definition identity : Matrix D :=
  fun i j => if Nat.eqb i j then d_of_Z 1 else zero.

(** Product of an (r x k) by a (k x c) matrix; [k] is the inner dimension. *)
Definition mmul (k : nat) (A B : Matrix D) : Matrix D :=
  fun i j => sum_upto k (fun l => A i l * B l j).
Definition mvmul (k : nat) (A : Matrix D) (v : Vector D) : Vector D :=
  fun i => sum_upto k (fun l => A i l * v l).
(** [c * u * v.transpose()] *)
Definition scaled_outer (c : D) (u v : Vector D) : Matrix D :=
  fun i j => (c * u i) * v j.
(** [u.transpose() * A * v], a 1x1 product read as a scalar. *)
Definition quad_form (k : nat) (u : Vector D) (A : Matrix D) (v : Vector D) : D :=
  sum_upto k (fun j => sum_upto k (fun i => u i * A i j) * v j).

(** [v.segment(i0, len).fill(c)] *)
Definition segment_fill (i0 len : nat) (c : D) (v : Vector D) : Vector D :=
  fun i => if Nat.leb i0 i && Nat.ltb i (i0 + len) then c else v i.
Definition vset (i : nat) (c : D) (v : Vector D) : Vector D :=
  fun i' => if Nat.eqb i' i then c else v i'.
Definition mset (i j : nat) (c : D) (A : Matrix D) : Matrix D :=
  fun i' j' => if Nat.eqb i' i && Nat.eqb j' j then c else A i' j'.

Definition in_block (r0 c0 h w i j : nat) : bool :=
  Nat.leb r0 i && Nat.ltb i (r0 + h) && Nat.leb c0 j && Nat.ltb j (c0 + w).

(** [A.block(r0, c0, h, w) = B] *)
Definition block_assign (r0 c0 h w : nat) (B A : Matrix D) : Matrix D :=
  fun i j => if in_block r0 c0 h w i j then B (i - r0)%nat (j - c0)%nat else A i j.
(** [A.block(r0, c0, h, w) += B] *)
Definition block_add (r0 c0 h w : nat) (B A : Matrix D) : Matrix D :=
  fun i j => if in_block r0 c0 h w i j
             then A i j + B (i - r0)%nat (j - c0)%nat else A i j.
(** [A.block(r0, c0, h, w) -= B] *)
Definition block_sub (r0 c0 h w : nat) (B A : Matrix D) : Matrix D :=
  fun i j => if in_block r0 c0 h w i j
             then A i j - B (i - r0)%nat (j - c0)%nat else A i j.

(** The comma initializers [v << a, b, c, d, e] and [v << u.array(), a, b]. *)
Definition vec5 (a b c d e : D) : Vector D :=
  fun i => match i with 0 => a | 1 => b | 2 => c | 3 => d | _ => e end%nat.
Definition vec_append2 (n : nat) (u : Vector D) (a b : D) : Vector D :=
  fun i => if Nat.ltb i n then u i else if Nat.eqb i n then a else b.
Definition diag2 (a b : D) : Matrix D :=
  fun i j => match i, j with 0, 0 => a | 1, 1 => b | _, _ => zero end%nat.
Definition diag3 (a b c : D) : Matrix D :=
  fun i j => match i, j with
             | 0, 0 => a | 1, 1 => b | 2, 2 => c | _, _ => zero end%nat.
Definition diag5 (a b c d e : D) : Matrix D :=
  fun i j => match i, j with
             | 0, 0 => a | 1, 1 => b | 2, 2 => c | 3, 3 => d | 4, 4 => e
             | _, _ => zero end%nat.

End LinearAlgebra.

(* ------------------------------------------------------------------------- *)
(** ** The filter object *)

(** Modelled from the spec: the enumeration [MeasurementPackage::SensorType]
    is declared in [measurement_package.hpp], which is not among the sources;
    the code names its two values, the lidar tag [LASER] and the radar tag
    [RADAR]. *)
Inductive SensorType : Type := LASER | RADAR.

(** Modelled from the spec: the class [MeasurementPackage] is declared in
    [measurement_package.hpp], which is not among the sources.  A measurement
    is a sensor tag, a raw measurement vector (x, y for lidar; range, bearing,
    range rate for radar) and an integer timestamp in microseconds, held here
    as an unbounded integer. *)
Record MeasurementPackage (D : Type) : Type := {
  timestamp_ : Z;
  sensor_type_ : SensorType;
  raw_measurements_ : Vector D
}.

(** Modelled from the spec: the class [UKF] is declared in [ukf.hpp], which
    is not among the sources.  These are the data members [ukf.cpp] reads and
    writes, with the types their uses call for: scalars of type [double],
    Eigen vectors and matrices, a flag and an integer timestamp. *)
Record UKF (D : Type) : Type := {
  std_a_ : D;
  std_yawdd_ : D;
  std_laspx_ : D;
  std_laspy_ : D;
  std_radr_ : D;
  std_radphi_ : D;
  std_radrd_ : D;
  is_initialized_ : bool;
  x_ : Vector D;
  x_aug : Vector D;
  Q_ : Matrix D;
  P_ : Matrix D;
  P_aug : Matrix D;
  weights_ : Vector D;
  Xsig_ : Matrix D;
  Xsig_pred_ : Matrix D;
  Zsig_ : Matrix D;
  H_laser_ : Matrix D;
  R_laser_ : Matrix D;
  R_radar_ : Matrix D;
  previous_timestamp_ : Z;
  NIS_laser_ : D;
  NIS_radar_ : D
}.

(** The sizes [n_x_], [n_aug_], [n_z_radar_] and the spreading parameter
    [lambda_] are assigned once by the constructor and never written again. *)
Definition n_x_ : nat := 5.
Definition n_aug_ : nat := n_x_ + 2.
Definition n_z_radar_ : nat := 3.

Section Filter.
Context {D : Type} `{Double D} `{Eigen D}.
Local Open Scope dbl_scope.

(** Modelled from the spec: the declaration of [lambda_] is in [ukf.hpp],
    which is not among the sources; the spec has it as a scalar of the same
    kind as the weights, so [lambda_ = 3 - n_aug_] is an integer expression
    stored in a [double] and [lambda_ / (lambda_ + n_aug_)] is a division of
    doubles. *)
Definition lambda_ : D := d_of_Z (3 - Z.of_nat n_aug_).

(** [UKF::UKF()].  The argument [mem] is the object before the constructor
    runs: a member the constructor does not assign, and a coefficient of a
    freshly sized matrix that it does not write, keeps the value found there. *)
Definition UKF_new (mem : UKF D) : UKF D :=
  let std_a := dec 63 100 in
  let std_yawdd := dec 12 10 in
  let std_laspx := dec 225 10000 in
  let std_laspy := dec 225 10000 in
  let std_radr := dec 9 10 in
  let std_radphi := dec 5 1000 in
  let std_radrd := dec 5 10 in
  let Q := diag2 (std_a * std_a) (std_yawdd * std_yawdd) in
  let P := diag5 (d_of_Z 1) (d_of_Z 1) (d_of_Z 1000) (d_of_Z 100) (d_of_Z 1) in
  let P_aug1 := block_assign 0 0 n_x_ n_x_ P (P_aug mem) in
  let P_aug2 := block_assign (n_aug_ - 2) (n_aug_ - 2) 2 2 Q P_aug1 in
  let weights1 :=
    segment_fill 1 (2 * n_aug_)
      (dec 5 10 / (d_of_Z (Z.of_nat n_aug_) + lambda_)) (weights_ mem) in
  let weights2 :=
    vset 0 (lambda_ / (lambda_ + d_of_Z (Z.of_nat n_aug_))) weights1 in
  {| std_a_ := std_a;
     std_yawdd_ := std_yawdd;
     std_laspx_ := std_laspx;
     std_laspy_ := std_laspy;
     std_radr_ := std_radr;
     std_radphi_ := std_radphi;
     std_radrd_ := std_radrd;
     is_initialized_ := false;
     x_ := x_ mem;
     x_aug := x_aug mem;
     Q_ := Q;
     P_ := P;
     P_aug := P_aug2;
     weights_ := weights2;
     Xsig_ := Xsig_ mem;
     Xsig_pred_ := Xsig_pred_ mem;
     Zsig_ := Zsig_ mem;
     H_laser_ := diag2 (d_of_Z 1) (d_of_Z 1);
     R_laser_ := diag2 std_laspx std_laspy;
     R_radar_ := diag3 (std_radr * std_radr) (std_radphi * std_radphi)
                       (std_radrd * std_radrd);
     previous_timestamp_ := previous_timestamp_ mem;
     NIS_laser_ := NIS_laser_ mem;
     NIS_radar_ := NIS_radar_ mem |}.

(** *** Angle normalization

    [while (a > M_PI) a -= 2. * M_PI;  while (a < -M_PI) a += 2. * M_PI;] *)
Fixpoint while_gt_pi (fuel : nat) (a : D) : outcome D :=
  match fuel with
  | O => OutOfFuel
  | S f => if a >? M_PI then while_gt_pi f (a - d_of_Z 2 * M_PI) else Returns a
  end.

Fixpoint while_lt_mpi (fuel : nat) (a : D) : outcome D :=
  match fuel with
  | O => OutOfFuel
  | S f => if a <? - M_PI then while_lt_mpi f (a + d_of_Z 2 * M_PI) else Returns a
  end.

Definition normalize_angle (fuel : nat) (a : D) : outcome D :=
  a1 <- while_gt_pi fuel a ;; while_lt_mpi fuel a1.

(** The residual [x_diff = Xsig_pred_.col(i) - x_] with its heading component
    normalized, as it enters the sums of [Prediction] and [UpdateRadar]. *)
Definition state_residual (fuel : nat) (Xsig_pred : Matrix D) (x : Vector D)
  (i : nat) : outcome (Vector D) :=
  let x_diff := vsub (col Xsig_pred i) x in
  a <- normalize_angle fuel (x_diff 3%nat) ;;
  Returns (vset 3 a x_diff).

(** The residual [z_diff = Zsig_.col(i) - z_pred] with its bearing component
    normalized (the two sums of [UpdateRadar]), and the final innovation
    [z_diff = z - z_pred], normalized in the same way. *)
Definition meas_residual (fuel : nat) (z z_pred : Vector D) : outcome (Vector D) :=
  let z_diff := vsub z z_pred in
  a <- normalize_angle fuel (z_diff 1%nat) ;;
  Returns (vset 1 a z_diff).

(** *** Prediction *)

(** The body of the sigma-point loop of [Prediction] for one column: the
    seven augmented components in, the five predicted components out. *)
Definition propagate (delta_t p_x p_y v yaw yawd nu_a nu_yawdd : D)
  : D * D * D * D * D :=
  let '(px_p, py_p) :=
    if dfabs yawd >? dec 1 1000 then
      (p_x + v / yawd * (dsin (yaw + yawd * delta_t) - dsin yaw),
       p_y + v / yawd * (dcos yaw - dcos (yaw + yawd * delta_t)))
    else
      (p_x + v * delta_t * dcos yaw,
       p_y + v * delta_t * dsin yaw) in
  let v_p := v in
  let yaw_p := yaw + yawd * delta_t in
  let yawd_p := yawd in
  (* add noise *)
  let px_p := px_p + dec 5 10 * nu_a * delta_t * delta_t * dcos yaw in
  let py_p := py_p + dec 5 10 * nu_a * delta_t * delta_t * dsin yaw in
  let v_p := v_p + nu_a * delta_t in
  let yaw_p := yaw_p + dec 5 10 * nu_yawdd * delta_t * delta_t in
  let yawd_p := yawd_p + nu_yawdd * delta_t in
  (px_p, py_p, v_p, yaw_p, yawd_p).

Definition predict_column (delta_t : D) (Xsig : Matrix D) (i : nat)
  (Xsig_pred : Matrix D) : Matrix D :=
  let '(px_p, py_p, v_p, yaw_p, yawd_p) :=
    propagate delta_t (Xsig 0 i) (Xsig 1 i) (Xsig 2 i) (Xsig 3 i) (Xsig 4 i)
              (Xsig 5 i) (Xsig 6 i)%nat in
  mset 4 i yawd_p (mset 3 i yaw_p (mset 2 i v_p (mset 1 i py_p
    (mset 0 i px_p Xsig_pred)))).

(** The augmented covariance [P_aug] and the sigma points [Xsig_] built at
    the start of [Prediction]. *)
Definition augmented_covariance (s : UKF D) : Matrix D :=
  block_assign (n_aug_ - 2) (n_aug_ - 2) 2 2 (Q_ s)
    (block_assign 0 0 n_x_ n_x_ (P_ s) (P_aug s)).

Definition sigma_points (x_aug' : Vector D) (A : Matrix D) : Matrix D :=
  let Xsig0 : Matrix D := fun i _ => x_aug' i in          (* Xsig_.colwise() = x_aug *)
  let offset := fun i j => A i j * dsqrt (lambda_ + d_of_Z (Z.of_nat n_aug_)) in
  block_sub 0 (n_aug_ + 1) n_aug_ n_aug_ offset
    (block_add 0 1 n_aug_ n_aug_ offset Xsig0).

(** The augmented sigma points [Xsig_]. *)
Definition augmented_sigma_points (s : UKF D) : Matrix D :=
  let x_aug' := vec_append2 n_x_ (x_ s) zero zero in
  let A := llt_matrixL n_aug_ (augmented_covariance s) in
  sigma_points x_aug' A.

(** The predicted sigma points [Xsig_pred_]. *)
Definition predicted_sigma_points (delta_t : D) (s : UKF D) : Matrix D :=
  for_loop (2 * n_aug_ + 1) (predict_column delta_t (augmented_sigma_points s))
    (Xsig_pred_ s).

(** The predicted state mean. *)
Definition predicted_mean (weights : Vector D) (Xsig_pred : Matrix D) : Vector D :=
  for_loop (2 * n_aug_ + 1)
    (fun i x => vadd x (vscale (weights i) (col Xsig_pred i)))
    (vfill zero).

(** The predicted state covariance matrix. *)
Definition predicted_covariance (fuel : nat) (weights : Vector D)
  (Xsig_pred : Matrix D) (x : Vector D) : outcome (Matrix D) :=
  for_loop_m (2 * n_aug_ + 1)
    (fun i P =>
       x_diff <- state_residual fuel Xsig_pred x i ;;
       Returns (madd P (scaled_outer (weights i) x_diff x_diff)))
    (mfill zero).

(** [void UKF::Prediction(double delta_t)] *)
Definition Prediction (fuel : nat) (delta_t : D) (s : UKF D) : outcome (UKF D) :=
  let x_aug' := vec_append2 n_x_ (x_ s) zero zero in
  let P_aug' := augmented_covariance s in
  let Xsig' := augmented_sigma_points s in
  let Xsig_pred' := predicted_sigma_points delta_t s in
  let x' := predicted_mean (weights_ s) Xsig_pred' in
  P' <- predicted_covariance fuel (weights_ s) Xsig_pred' x' ;;
  Returns
    {| std_a_ := std_a_ s;
       std_yawdd_ := std_yawdd_ s;
       std_laspx_ := std_laspx_ s;
       std_laspy_ := std_laspy_ s;
       std_radr_ := std_radr_ s;
       std_radphi_ := std_radphi_ s;
       std_radrd_ := std_radrd_ s;
       is_initialized_ := is_initialized_ s;
       x_ := x';
       x_aug := x_aug';
       Q_ := Q_ s;
       P_ := P';
       P_aug := P_aug';
       weights_ := weights_ s;
       Xsig_ := Xsig';
       Xsig_pred_ := Xsig_pred';
       Zsig_ := Zsig_ s;
       H_laser_ := H_laser_ s;
       R_laser_ := R_laser_ s;
       R_radar_ := R_radar_ s;
       previous_timestamp_ := previous_timestamp_ s;
       NIS_laser_ := NIS_laser_ s;
       NIS_radar_ := NIS_radar_ s |}.

(** *** Lidar update *)

(** The innovation covariance [S = H_laser_ * P_ * Ht + R_laser_] of
    [UpdateLidar]. *)
Definition lidar_S (s : UKF D) : Matrix D :=
  let Ht := transpose (H_laser_ s) in
  madd (mmul n_x_ (mmul n_x_ (H_laser_ s) (P_ s)) Ht) (R_laser_ s).

(** [void UKF::UpdateLidar(MeasurementPackage measurement_pack)] *)
Definition UpdateLidar (measurement_pack : MeasurementPackage D) (s : UKF D)
  : UKF D :=
  let z := raw_measurements_ measurement_pack in
  let z_pred := mvmul n_x_ (H_laser_ s) (x_ s) in
  let z_diff := vsub z z_pred in
  let Ht := transpose (H_laser_ s) in
  let S := lidar_S s in
  let Si := inverse 2 S in
  let PHt := mmul n_x_ (P_ s) Ht in
  let K := mmul 2 PHt Si in
  let x' := vadd (x_ s) (mvmul 2 K z_diff) in
  let P' := mmul n_x_ (msub identity (mmul 2 K (H_laser_ s))) (P_ s) in
  {| std_a_ := std_a_ s;
     std_yawdd_ := std_yawdd_ s;
     std_laspx_ := std_laspx_ s;
     std_laspy_ := std_laspy_ s;
     std_radr_ := std_radr_ s;
     std_radphi_ := std_radphi_ s;
     std_radrd_ := std_radrd_ s;
     is_initialized_ := is_initialized_ s;
     x_ := x';
     x_aug := x_aug s;
     Q_ := Q_ s;
     P_ := P';
     P_aug := P_aug s;
     weights_ := weights_ s;
     Xsig_ := Xsig_ s;
     Xsig_pred_ := Xsig_pred_ s;
     Zsig_ := Zsig_ s;
     H_laser_ := H_laser_ s;
     R_laser_ := R_laser_ s;
     R_radar_ := R_radar_ s;
     previous_timestamp_ := previous_timestamp_ s;
     NIS_laser_ := quad_form 2 z_diff Si z_diff;
     NIS_radar_ := NIS_radar_ s |}.

(** *** Radar update *)

(** The measurement model applied to one predicted sigma point, with the
    three self-comparisons that follow it. *)
Definition radar_transform (p_x p_y v yaw : D) : D * D * D :=
  let v_y := dcos yaw * v in
  let v_x := dsin yaw * v in
  let rho := dsqrt (p_x * p_x + p_y * p_y) in
  let phi := datan2 p_y p_x in
  let rho_dot := (p_x * v_y + p_y * v_x) / rho in
  let rho := if rho !=? rho then zero else rho in
  let phi := if phi !=? phi then zero else phi in
  let rho_dot := if rho_dot !=? rho_dot then zero else rho_dot in
  (rho, phi, rho_dot).

Definition transform_column (Xsig_pred : Matrix D) (i : nat) (Zsig : Matrix D)
  : Matrix D :=
  let '(rho, phi, rho_dot) :=
    radar_transform (Xsig_pred 0 i) (Xsig_pred 1 i) (Xsig_pred 2 i)
                    (Xsig_pred 3 i)%nat in
  mset 2 i rho_dot (mset 1 i phi (mset 0 i rho Zsig)).

(** The sigma points in measurement space, [Zsig_] after the first loop. *)
Definition radar_Zsig (s : UKF D) : Matrix D :=
  for_loop (2 * n_aug_ + 1) (transform_column (Xsig_pred_ s)) (Zsig_ s).

(** The mean predicted measurement [z_pred]. *)
Definition radar_z_pred (weights : Vector D) (Zsig : Matrix D) : Vector D :=
  for_loop (2 * n_aug_ + 1)
    (fun i z_pred => vadd z_pred (vscale (weights i) (col Zsig i)))
    (vfill zero).

(** The measurement covariance [S], before [R_radar_] is added. *)
Definition radar_S_sum (fuel : nat) (weights : Vector D) (Zsig : Matrix D)
  (z_pred : Vector D) : outcome (Matrix D) :=
  for_loop_m (2 * n_aug_ + 1)
    (fun i S =>
       z_diff <- meas_residual fuel (col Zsig i) z_pred ;;
       Returns (madd S (scaled_outer (weights i) z_diff z_diff)))
    (mfill zero).

(** The cross correlation matrix [Tc]. *)
Definition radar_Tc (fuel : nat) (weights : Vector D) (Zsig : Matrix D)
  (z_pred : Vector D) (Xsig_pred : Matrix D) (x : Vector D)
  : outcome (Matrix D) :=
  for_loop_m (2 * n_aug_ + 1)
    (fun i Tc =>
       z_diff <- meas_residual fuel (col Zsig i) z_pred ;;
       x_diff <- state_residual fuel Xsig_pred x i ;;
       Returns (madd Tc (scaled_outer (weights i) x_diff z_diff)))
    (mfill zero).

(** [void UKF::UpdateRadar(MeasurementPackage measurement_pack)] *)
Definition UpdateRadar (fuel : nat) (measurement_pack : MeasurementPackage D)
  (s : UKF D) : outcome (UKF D) :=
  let Zsig' := radar_Zsig s in
  let z_pred := radar_z_pred (weights_ s) Zsig' in
  S0 <- radar_S_sum fuel (weights_ s) Zsig' z_pred ;;
  let S := madd S0 (R_radar_ s) in
  Tc <- radar_Tc fuel (weights_ s) Zsig' z_pred (Xsig_pred_ s) (x_ s) ;;
  let K := mmul n_z_radar_ Tc (inverse n_z_radar_ S) in
  let z := raw_measurements_ measurement_pack in
  z_diff <- meas_residual fuel z z_pred ;;
  let x' := vadd (x_ s) (mvmul n_z_radar_ K z_diff) in
  let P' := msub (P_ s) (mmul n_z_radar_ (mmul n_z_radar_ K S) (transpose K)) in
  Returns
    {| std_a_ := std_a_ s;
       std_yawdd_ := std_yawdd_ s;
       std_laspx_ := std_laspx_ s;
       std_laspy_ := std_laspy_ s;
       std_radr_ := std_radr_ s;
       std_radphi_ := std_radphi_ s;
       std_radrd_ := std_radrd_ s;
       is_initialized_ := is_initialized_ s;
       x_ := x';
       x_aug := x_aug s;
       Q_ := Q_ s;
       P_ := P';
       P_aug := P_aug s;
       weights_ := weights_ s;
       Xsig_ := Xsig_ s;
       Xsig_pred_ := Xsig_pred_ s;
       Zsig_ := Zsig';
       H_laser_ := H_laser_ s;
       R_laser_ := R_laser_ s;
       R_radar_ := R_radar_ s;
       previous_timestamp_ := previous_timestamp_ s;
       NIS_laser_ := NIS_laser_ s;
       NIS_radar_ :=
         quad_form n_z_radar_ z_diff (inverse n_z_radar_ S) z_diff |}.

(** *** The entry point *)

(** The initial position and covariance taken from the first measurement. *)
Definition initial_position (measurement_pack : MeasurementPackage D)
  (P : Matrix D) : D * D * Matrix D :=
  let px := zero in
  let py := zero in
  match sensor_type_ measurement_pack with
  | RADAR =>
      let rho := raw_measurements_ measurement_pack 0%nat in
      let phi := raw_measurements_ measurement_pack 1%nat in
      let px := rho * dcos phi in
      let py := rho * dsin phi in
      let '(px, P) :=
        if dfabs px <? dec 1 10000 then (d_of_Z 1, mset 0 0 (d_of_Z 1000) P)
        else (px, P) in
      let '(py, P) :=
        if dfabs py <? dec 1 10000 then (d_of_Z 1, mset 1 1 (d_of_Z 1000) P)
        else (py, P) in
      (px, py, P)
  | LASER =>
      let px := raw_measurements_ measurement_pack 0%nat in
      let py := raw_measurements_ measurement_pack 1%nat in
      (px, py, P)
  end.

Definition set_previous_timestamp_ (t : Z) (s : UKF D) : UKF D :=
  {| std_a_ := std_a_ s;
     std_yawdd_ := std_yawdd_ s;
     std_laspx_ := std_laspx_ s;
     std_laspy_ := std_laspy_ s;
     std_radr_ := std_radr_ s;
     std_radphi_ := std_radphi_ s;
     std_radrd_ := std_radrd_ s;
     is_initialized_ := is_initialized_ s;
     x_ := x_ s;
     x_aug := x_aug s;
     Q_ := Q_ s;
     P_ := P_ s;
     P_aug := P_aug s;
     weights_ := weights_ s;
     Xsig_ := Xsig_ s;
     Xsig_pred_ := Xsig_pred_ s;
     Zsig_ := Zsig_ s;
     H_laser_ := H_laser_ s;
     R_laser_ := R_laser_ s;
     R_radar_ := R_radar_ s;
     previous_timestamp_ := t;
     NIS_laser_ := NIS_laser_ s;
     NIS_radar_ := NIS_radar_ s |}.

(** The first call: the state is taken from the measurement. *)
Definition initialize (measurement_pack : MeasurementPackage D) (s : UKF D)
  : UKF D :=
  let '(px, py, P') := initial_position measurement_pack (P_ s) in
  let x' := vec5 px py zero zero zero in
  {| std_a_ := std_a_ s;
     std_yawdd_ := std_yawdd_ s;
     std_laspx_ := std_laspx_ s;
     std_laspy_ := std_laspy_ s;
     std_radr_ := std_radr_ s;
     std_radphi_ := std_radphi_ s;
     std_radrd_ := std_radrd_ s;
     is_initialized_ := true;
     x_ := x';
     x_aug := vec_append2 n_x_ x' zero zero;
     Q_ := Q_ s;
     P_ := P';
     P_aug := P_aug s;
     weights_ := weights_ s;
     Xsig_ := Xsig_ s;
     Xsig_pred_ := Xsig_pred_ s;
     Zsig_ := Zsig_ s;
     H_laser_ := H_laser_ s;
     R_laser_ := R_laser_ s;
     R_radar_ := R_radar_ s;
     previous_timestamp_ := timestamp_ measurement_pack;
     NIS_laser_ := NIS_laser_ s;
     NIS_radar_ := NIS_radar_ s |}.

(** The elapsed time in seconds,
    [(measurement_pack.timestamp_ - previous_timestamp_) / 1000000.0]. *)
Definition elapsed (measurement_pack : MeasurementPackage D) (s : UKF D) : D :=
  d_of_Z (timestamp_ measurement_pack - previous_timestamp_ s) / d_of_Z 1000000.

(** [void UKF::ProcessMeasurement(MeasurementPackage measurement_pack)] *)
Definition ProcessMeasurement (fuel : nat)
  (measurement_pack : MeasurementPackage D) (s : UKF D) : outcome (UKF D) :=
  if negb (is_initialized_ s) then
    Returns (initialize measurement_pack s)
  else
    let dt := elapsed measurement_pack s in
    let s := set_previous_timestamp_ (timestamp_ measurement_pack) s in
    s <- Prediction fuel dt s ;;
    match sensor_type_ measurement_pack with
    | RADAR => UpdateRadar fuel measurement_pack s
    | LASER => Returns (UpdateLidar measurement_pack s)
    end.

End Filter.

(* ------------------------------------------------------------------------- *)
(** ** Reference implementations of the two Eigen decompositions

    The textbook algorithms, over any scalar type: the Cholesky factor
    computed column by column, and the inverse as the adjugate divided by
    the determinant. *)

Section Decompositions.
Context {D : Type} `{Double D}.
Local Open Scope dbl_scope.

Definition cholesky_column (n : nat) (M : Matrix D) (j : nat) (L : Matrix D)
  : Matrix D :=
  let ljj := dsqrt (M j j - sum_upto j (fun k => L j k * L j k)) in
  fun i c =>
    if Nat.eqb c j then
      if Nat.ltb i j then zero
      else if Nat.eqb i j then ljj
      else (M i j - sum_upto j (fun k => L i k * L j k)) / ljj
    else L i c.

Definition cholesky (n : nat) (M : Matrix D) : Matrix D :=
  for_loop n (cholesky_column n M) (mfill zero).

Definition minor (A : Matrix D) (i j : nat) : Matrix D :=
  fun r c => A (if Nat.ltb r i then r else S r) (if Nat.ltb c j then c else S c).

Definition sign (k : nat) : D := if Nat.even k then d_of_Z 1 else d_of_Z (-1).

Fixpoint det (n : nat) (A : Matrix D) : D :=
  match n with
  | O => d_of_Z 1
  | S m => sum_upto n (fun j => sign j * A 0%nat j * det m (minor A 0 j))
  end.

Definition adjugate_inverse (n : nat) (A : Matrix D) : Matrix D :=
  fun i j => sign (i + j) * det (n - 1) (minor A j i) / det n A.

Definition Eigen_reference : Eigen D :=
  {| llt_matrixL := cholesky; inverse := adjugate_inverse |}.

End Decompositions.

(* ------------------------------------------------------------------------- *)
(** ** The real numbers as [double] (exact arithmetic) *)

Definition Rltb (a b : R) : bool := if Rlt_dec a b then true else false.
Definition Rneb (a b : R) : bool := if Req_dec_T a b then false else true.

(** [atan2] on the reals. *)
Definition Ratan2 (y x : R) : R :=
  if Rlt_dec 0 x then atan (y / x)
  else if Rlt_dec x 0 then
         (if Rle_dec 0 y then atan (y / x) + PI else atan (y / x) - PI)
  else if Rlt_dec 0 y then PI / 2
  else if Rlt_dec y 0 then - PI / 2
  else 0.

#[export] Instance Double_R : Double R :=
  {| d_of_Z := IZR;
     dadd := Rplus;
     dsub := Rminus;
     dmul := Rmult;
     ddiv := Rdiv;
     dopp := Ropp;
     dsqrt := sqrt;
     dsin := sin;
     dcos := cos;
     datan2 := Ratan2;
     dfabs := Rabs;
     dlt := Rltb;
     dgt := fun a b => Rltb b a;
     dne := Rneb;
     M_PI := PI |}.

(* ------------------------------------------------------------------------- *)
(** ** The reals with the IEEE special values as [double]

    A finite value is a real number (arithmetic on finite values is exact, and
    there is one zero); [PInf], [NInf] and [NaN] follow the IEEE 754 rules for
    the operations and comparisons, and the C standard for [atan2]. *)

Inductive ieee : Type :=
| Fin (r : R)
| PInf
| NInf
| NaN.

Module IEEE.

Local Open Scope R_scope.

(** An infinity of the sign of [a] times the sign of [positive]; [NaN] when
    [a] is zero (0 * inf). *)
Definition signed_inf (a : R) (positive : bool) : ieee :=
  if Rlt_dec 0 a then (if positive then PInf else NInf)
  else if Rlt_dec a 0 then (if positive then NInf else PInf)
  else NaN.

Definition opp (x : ieee) : ieee :=
  match x with
  | Fin a => Fin (- a)
  | PInf => NInf
  | NInf => PInf
  | NaN => NaN
  end.

Definition add (x y : ieee) : ieee :=
  match x, y with
  | NaN, _ | _, NaN => NaN
  | Fin a, Fin b => Fin (a + b)
  | PInf, NInf | NInf, PInf => NaN
  | PInf, _ | _, PInf => PInf
  | NInf, _ | _, NInf => NInf
  end.

Definition sub (x y : ieee) : ieee := add x (opp y).

Definition mul (x y : ieee) : ieee :=
  match x, y with
  | NaN, _ | _, NaN => NaN
  | Fin a, Fin b => Fin (a * b)
  | Fin a, PInf | PInf, Fin a => signed_inf a true
  | Fin a, NInf | NInf, Fin a => signed_inf a false
  | PInf, PInf | NInf, NInf => PInf
  | PInf, NInf | NInf, PInf => NInf
  end.

Definition div (x y : ieee) : ieee :=
  match x, y with
  | NaN, _ | _, NaN => NaN
  | Fin a, Fin b =>
      if Req_dec_T b 0 then signed_inf a true   (* a / 0; 0 / 0 is NaN *)
      else Fin (a / b)
  | Fin _, PInf | Fin _, NInf => Fin 0
  | PInf, Fin b => if Rlt_dec b 0 then NInf else PInf
  | NInf, Fin b => if Rlt_dec b 0 then PInf else NInf
  | PInf, PInf | PInf, NInf | NInf, PInf | NInf, NInf => NaN
  end.

Definition sqrt (x : ieee) : ieee :=
  match x with
  | Fin a => if Rlt_dec a 0 then NaN else Fin (R_sqrt.sqrt a)
  | PInf => PInf
  | NInf | NaN => NaN
  end.

Definition sin (x : ieee) : ieee :=
  match x with Fin a => Fin (Rtrigo_def.sin a) | _ => NaN end.

Definition cos (x : ieee) : ieee :=
  match x with Fin a => Fin (Rtrigo_def.cos a) | _ => NaN end.

Definition atan2 (y x : ieee) : ieee :=
  match y, x with
  | NaN, _ | _, NaN => NaN
  | Fin b, Fin a => Fin (Ratan2 b a)
  | Fin _, PInf => Fin 0
  | Fin b, NInf => if Rlt_dec b 0 then Fin (- PI) else Fin PI
  | PInf, Fin _ => Fin (PI / 2)
  | NInf, Fin _ => Fin (- PI / 2)
  | PInf, PInf => Fin (PI / 4)
  | PInf, NInf => Fin (3 * PI / 4)
  | NInf, PInf => Fin (- PI / 4)
  | NInf, NInf => Fin (- 3 * PI / 4)
  end.

Definition fabs (x : ieee) : ieee :=
  match x with
  | Fin a => Fin (Rabs a)
  | PInf | NInf => PInf
  | NaN => NaN
  end.

Definition ltb (x y : ieee) : bool :=
  match x, y with
  | NaN, _ | _, NaN => false
  | Fin a, Fin b => Rltb a b
  | _, NInf | PInf, _ => false
  | NInf, _ | _, PInf => true
  end.

Definition neb (x y : ieee) : bool :=
  match x, y with
  | NaN, _ | _, NaN => true
  | Fin a, Fin b => Rneb a b
  | PInf, PInf | NInf, NInf => false
  | _, _ => true
  end.

End IEEE.

#[export] Instance Double_ieee : Double ieee :=
  {| d_of_Z := fun z => Fin (IZR z);
     dadd := IEEE.add;
     dsub := IEEE.sub;
     dmul := IEEE.mul;
     ddiv := IEEE.div;
     dopp := IEEE.opp;
     dsqrt := IEEE.sqrt;
     dsin := IEEE.sin;
     dcos := IEEE.cos;
     datan2 := IEEE.atan2;
     dfabs := IEEE.fabs;
     dlt := IEEE.ltb;
     dgt := fun a b => IEEE.ltb b a;
     dne := IEEE.neb;
     M_PI := Fin PI |}.

Definition finite (x : ieee) : Prop := exists r : R, x = Fin r.

(* ------------------------------------------------------------------------- *)
(** ** IEEE binary64 as [double]

    The arithmetic of a C++ [double] itself: the kernel's primitive binary64
    numbers, with rounding to nearest, overflow, underflow, signed zeros,
    infinities and NaN.  The functions [sin], [cos] and [atan2] belong to the
    C library, which does not fix their results to the last bit: they are
    the operations of the class [Libm]. *)

Class Libm : Type := {
  libm_sin : PrimFloat.float -> PrimFloat.float;
  libm_cos : PrimFloat.float -> PrimFloat.float;
  libm_atan2 : PrimFloat.float -> PrimFloat.float -> PrimFloat.float
}.

Module Binary64.

Import PrimFloat.

(** The conversion of an integer (of at most 63 bits) to [double]. *)
Definition of_Z (z : Z) : float :=
  if (z <? 0)%Z then opp (of_uint63 (Uint63.of_Z (- z)))
  else of_uint63 (Uint63.of_Z z).

(** [M_PI], the double nearest to pi: 3.141592653589793. *)
Definition pi : float := 0x1.921fb54442d18p+1%float.

(** The real number a finite double stands for. *)
Definition to_R (x : float) : option R :=
  match FloatOps.Prim2SF x with
  | SpecFloat.S754_zero _ => Some 0%R
  | SpecFloat.S754_finite s m e =>
      Some (IZR (if s then Z.neg m else Z.pos m)
            * (if (e <? 0)%Z then / IZR (2 ^ (- e)) else IZR (2 ^ e)))%R
  | _ => None
  end.

(** A finite double so large that subtracting [2. * M_PI] from it gives the
    same double again: 2.2671434986526781e+18. *)
Definition absorbed_residual : float := 0x1.f7683000c0778p+60%float.

(** The double 2^-700, finite and not zero, whose square underflows to zero. *)
Definition tiny : float := 0x1p-700%float.

End Binary64.

#[export] Instance Double_binary64 {L : Libm} : Double PrimFloat.float :=
  {| d_of_Z := Binary64.of_Z;
     dadd := PrimFloat.add;
     dsub := PrimFloat.sub;
     dmul := PrimFloat.mul;
     ddiv := PrimFloat.div;
     dopp := PrimFloat.opp;
     dsqrt := PrimFloat.sqrt;
     dsin := libm_sin;
     dcos := libm_cos;
     datan2 := libm_atan2;
     dfabs := PrimFloat.abs;
     dlt := PrimFloat.ltb;
     dgt := fun a b => PrimFloat.ltb b a;
     dne := fun a b => negb (PrimFloat.eqb a b);
     M_PI := Binary64.pi |}.

(* ------------------------------------------------------------------------- *)
(** ** Concrete filter objects *)

Section Objects.
Context {D : Type} `{Double D}.

(** An object whose storage is all zeros, for the constructor to run on. *)
Definition blank : UKF D :=
  {| std_a_ := zero;
     std_yawdd_ := zero;
     std_laspx_ := zero;
     std_laspy_ := zero;
     std_radr_ := zero;
     std_radphi_ := zero;
     std_radrd_ := zero;
     is_initialized_ := false;
     x_ := vfill zero;
     x_aug := vfill zero;
     Q_ := mfill zero;
     P_ := mfill zero;
     P_aug := mfill zero;
     weights_ := vfill zero;
     Xsig_ := mfill zero;
     Xsig_pred_ := mfill zero;
     Zsig_ := mfill zero;
     H_laser_ := mfill zero;
     R_laser_ := mfill zero;
     R_radar_ := mfill zero;
     previous_timestamp_ := 0%Z;
     NIS_laser_ := zero;
     NIS_radar_ := zero |}.

(** Assignment to the public members [x_] and [P_]. *)
Definition set_x_P (x : Vector D) (P : Matrix D) (s : UKF D) : UKF D :=
  {| std_a_ := std_a_ s;
     std_yawdd_ := std_yawdd_ s;
     std_laspx_ := std_laspx_ s;
     std_laspy_ := std_laspy_ s;
     std_radr_ := std_radr_ s;
     std_radphi_ := std_radphi_ s;
     std_radrd_ := std_radrd_ s;
     is_initialized_ := is_initialized_ s;
     x_ := x;
     x_aug := x_aug s;
     Q_ := Q_ s;
     P_ := P;
     P_aug := P_aug s;
     weights_ := weights_ s;
     Xsig_ := Xsig_ s;
     Xsig_pred_ := Xsig_pred_ s;
     Zsig_ := Zsig_ s;
     H_laser_ := H_laser_ s;
     R_laser_ := R_laser_ s;
     R_radar_ := R_radar_ s;
     previous_timestamp_ := previous_timestamp_ s;
     NIS_laser_ := NIS_laser_ s;
     NIS_radar_ := NIS_radar_ s |}.

(** Assignment to the public member [Xsig_pred_]. *)
Definition set_Xsig_pred_ (X : Matrix D) (s : UKF D) : UKF D :=
  {| std_a_ := std_a_ s;
     std_yawdd_ := std_yawdd_ s;
     std_laspx_ := std_laspx_ s;
     std_laspy_ := std_laspy_ s;
     std_radr_ := std_radr_ s;
     std_radphi_ := std_radphi_ s;
     std_radrd_ := std_radrd_ s;
     is_initialized_ := is_initialized_ s;
     x_ := x_ s;
     x_aug := x_aug s;
     Q_ := Q_ s;
     P_ := P_ s;
     P_aug := P_aug s;
     weights_ := weights_ s;
     Xsig_ := Xsig_ s;
     Xsig_pred_ := X;
     Zsig_ := Zsig_ s;
     H_laser_ := H_laser_ s;
     R_laser_ := R_laser_ s;
     R_radar_ := R_radar_ s;
     previous_timestamp_ := previous_timestamp_ s;
     NIS_laser_ := NIS_laser_ s;
     NIS_radar_ := NIS_radar_ s |}.

(** A freshly constructed filter. *)
Definition fresh : UKF D := UKF_new blank.

Definition lidar_at (t : Z) (px py : D) : MeasurementPackage D :=
  {| timestamp_ := t; sensor_type_ := LASER;
     raw_measurements_ := vec5 px py zero zero zero |}.

End Objects.

(** *** Inputs used in the examples below *)

(** A filter whose state covariance is the zero matrix. *)
Definition zero_covariance_filter : UKF R :=
  set_x_P (vfill 0%R) (mfill 0%R) fresh.

(** A filter initialized by a lidar measurement at time 1 s, and a lidar
    measurement stamped half a second earlier. *)
Definition tracking_filter : UKF R :=
  initialize (lidar_at 1000000 1%R 1%R) fresh.

(** A filter at (1, 1) with the identity as state covariance. *)
Definition unit_covariance_filter : UKF R :=
  set_x_P (vec5 1 1 0 0 0)%R (diag5 1 1 1 1 1)%R fresh.

(** A constructed filter, over the extended reals, whose predicted sigma
    points all have an infinite x position (and zero elsewhere). *)
Definition far_away_filter : UKF ieee :=
  set_Xsig_pred_ (fun r _ => if Nat.eqb r 0 then PInf else Fin 0%R) fresh.

(** A constructed filter, over the extended reals, whose predicted sigma
    points are all at the origin. *)
Definition origin_filter : UKF ieee :=
  set_Xsig_pred_ (fun _ _ => Fin 0%R) fresh.

(** A filter at (1, 1) that moves: speed 5, heading 1/2, yaw rate 1/10. *)
Definition moving_filter : UKF R :=
  set_x_P (vec5 1 1 5 (1 / 2) (1 / 10))%R (diag5 1 1 1 1 1)%R fresh.

Section Binary64Inputs.
Context {L : Libm}.

(** A filter initialized by a lidar measurement stamped 1477010443000000
    microseconds, and a lidar measurement stamped 0 that arrives after it. *)
Definition backward_jump_filter : UKF PrimFloat.float :=
  initialize (lidar_at 1477010443000000 (d_of_Z 1) (d_of_Z 1)) fresh.
Definition backward_jump_measurement : MeasurementPackage PrimFloat.float :=
  lidar_at 0 (d_of_Z 1) (d_of_Z 1).

(** A constructed filter whose predicted sigma points are all at
    (2^-700, 0) with speed 1 and heading 0, and one whose predicted sigma
    points are all at (-0, +0) with speed 1 and heading 0. *)
Definition underflow_filter : UKF PrimFloat.float :=
  set_Xsig_pred_
    (fun r _ =>
       match r with
       | 0 => Binary64.tiny | 2 => PrimFloat.one | _ => PrimFloat.zero
       end%nat)
    fresh.
Definition negative_zero_filter : UKF PrimFloat.float :=
  set_Xsig_pred_
    (fun r _ =>
       match r with
       | 0 => PrimFloat.neg_zero | 2 => PrimFloat.one | _ => PrimFloat.zero
       end%nat)
    fresh.

End Binary64Inputs.

(** What the three self-comparisons of the radar measurement model do to a
    component. *)
Definition nan_to_zero (x : ieee) : ieee :=
  match x with NaN => Fin 0%R | _ => x end.

(* ------------------------------------------------------------------------- *)
(** ** Specification vocabulary *)

(** The members that only the constructor assigns: the seven noise standard
    deviations, the weights and the constant matrices. *)
Definition same_configuration {D : Type} (s s' : UKF D) : Prop :=
  std_a_ s' = std_a_ s /\ std_yawdd_ s' = std_yawdd_ s /\
  std_laspx_ s' = std_laspx_ s /\ std_laspy_ s' = std_laspy_ s /\
  std_radr_ s' = std_radr_ s /\ std_radphi_ s' = std_radphi_ s /\
  std_radrd_ s' = std_radrd_ s /\
  weights_ s' = weights_ s /\ Q_ s' = Q_ s /\
  H_laser_ s' = H_laser_ s /\ R_laser_ s' = R_laser_ s /\
  R_radar_ s' = R_radar_ s.

(** A symmetric [n]x[n] real matrix is positive definite. *)
Definition positive_definite (n : nat) (M : Matrix R) : Prop :=
  (forall i j, (i < n)%nat -> (j < n)%nat -> M i j = M j i) /\
  forall v : Vector R,
    (exists i, (i < n)%nat /\ v i <> 0%R) -> (0 < quad_form n v M v)%R.


(** [terminates_with f P]: with enough fuel the call [f] returns, always the
    same value, and that value satisfies [P]. *)
Definition terminates_with {A : Type} (f : nat -> outcome A) (P : A -> Prop)
  : Prop :=
  exists a n, (forall fuel, (n <= fuel)%nat -> f fuel = Returns a) /\ P a.

Section Vocabulary.
Context {E : Eigen R}.
Local Open Scope R_scope.
Local Unset Implicit Arguments.

(** What the normalization does to the angle component [r0] of a residual
    [d0]: the other components are kept, the angle is moved by whole turns
    into the closed interval, and kept if it already lies there. *)
Definition normalized_residual (r0 : nat) (d0 d : Vector R) : Prop :=
  - PI <= d r0 <= PI /\
  (forall r, r <> r0 -> d r = d0 r) /\
  (- PI <= d0 r0 <= PI -> d r0 = d0 r0) /\
  exists k : Z, d r0 = d0 r0 + IZR k * (2 * PI).

(** What [Prediction] leaves in the object. *)
Definition Prediction_post (delta_t : R) (s s' : UKF R) : Prop :=
  Xsig_ s' = augmented_sigma_points s /\
  Xsig_pred_ s' = predicted_sigma_points delta_t s /\
  x_ s' = predicted_mean (weights_ s) (predicted_sigma_points delta_t s) /\
  (exists d : nat -> Vector R,
     (forall i, (i < 2 * n_aug_ + 1)%nat ->
        normalized_residual 3 (vsub (col (Xsig_pred_ s') i) (x_ s')) (d i)) /\
     forall r c, P_ s' r c =
       sum_upto (2 * n_aug_ + 1) (fun i => weights_ s i * d i r * d i c)) /\
  P_aug s' = augmented_covariance s /\
  previous_timestamp_ s' = previous_timestamp_ s /\
  is_initialized_ s' = is_initialized_ s /\
  NIS_laser_ s' = NIS_laser_ s /\ NIS_radar_ s' = NIS_radar_ s /\
  same_configuration s s'.

(** What [UpdateRadar] leaves in the object: [dS], [dx] and [dz] are the
    residuals that entered the sums [S0] (the measurement covariance before
    [R_radar_] is added) and [Tc], and [z_diff] is the final innovation. *)
Definition UpdateRadar_post (m : MeasurementPackage R) (s s' : UKF R) : Prop :=
  let Zsig' := radar_Zsig s in
  let z_pred := radar_z_pred (weights_ s) Zsig' in
  Zsig_ s' = Zsig' /\
  (exists (dS dx dz : nat -> Vector R) (S0 Tc : Matrix R) (z_diff : Vector R),
     (forall i, (i < 2 * n_aug_ + 1)%nat ->
        normalized_residual 1 (vsub (col Zsig' i) z_pred) (dS i) /\
        normalized_residual 3 (vsub (col (Xsig_pred_ s) i) (x_ s)) (dx i) /\
        normalized_residual 1 (vsub (col Zsig' i) z_pred) (dz i)) /\
     (forall r c, S0 r c =
        sum_upto (2 * n_aug_ + 1) (fun i => weights_ s i * dS i r * dS i c)) /\
     (forall r c, Tc r c =
        sum_upto (2 * n_aug_ + 1) (fun i => weights_ s i * dx i r * dz i c)) /\
     terminates_with (fun fuel => radar_S_sum fuel (weights_ s) Zsig' z_pred)
                     (eq S0) /\
     normalized_residual 1 (vsub (raw_measurements_ m) z_pred) z_diff /\
     let S := madd S0 (R_radar_ s) in
     let K := mmul n_z_radar_ Tc (inverse n_z_radar_ S) in
     x_ s' = vadd (x_ s) (mvmul n_z_radar_ K z_diff) /\
     P_ s' = msub (P_ s) (mmul n_z_radar_ (mmul n_z_radar_ K S) (transpose K)) /\
     NIS_radar_ s' = quad_form n_z_radar_ z_diff (inverse n_z_radar_ S) z_diff) /\
  NIS_laser_ s' = NIS_laser_ s /\
  previous_timestamp_ s' = previous_timestamp_ s /\
  is_initialized_ s' = is_initialized_ s /\
  Xsig_pred_ s' = Xsig_pred_ s /\
  same_configuration s s'.

(** The spread of the sigma points, [sqrt(lambda_ + n_aug_)]. *)
Definition gamma : R := sqrt (lambda_ + IZR (Z.of_nat n_aug_)).

(** Component [r] of a five-tuple. *)
Definition component (r : nat) (t : R * R * R * R * R) : R :=
  let '(a, b, c, d, e) := t in
  match r with 0 => a | 1 => b | 2 => c | 3 => d | _ => e end%nat.

(** Every entry of [M] off the diagonal is zero. *)
Definition off_diagonal_zero (n : nat) (M : Matrix R) : Prop :=
  forall i j, (i < n)%nat -> (j < n)%nat -> i <> j -> M i j = 0.

(** A real outcome read as an outcome over the extended reals. *)
Definition lift (o : outcome R) : outcome ieee :=
  match o with
  | Returns r => Returns (Fin r)
  | Throws => Throws
  | OutOfFuel => OutOfFuel
  end.

(** Component [r] of a triple. *)
Definition component3 (r : nat) (t : ieee * ieee * ieee) : ieee :=
  let '(a, b, c) := t in match r with 0 => a | 1 => b | _ => c end%nat.

End Vocabulary.

(* ------------------------------------------------------------------------- *)
(** ** The driver, [src/main.cpp]

    The driver reads the measurement file line by line into two lists
    ([readData]) and runs one filter over the measurements in order
    ([processData]).  Parsing the command line, opening the files and the
    verbose printing to [cout] are not modelled; the two flags [useRadar] and
    [useLidar], global variables of the source, are arguments here. *)

(** Modelled from the spec: [GroundTruthPackage] is declared in
    [ground_truth_package.hpp], which is not among the sources.  The driver
    uses its one member, the vector [gt_values_]. *)
Record GroundTruthPackage (D : Type) : Type := {
  gt_values_ : Vector D
}.

(** The stream classes belong to the C++ standard library, not to this
    repository: a line of the file, the [istringstream] over it and the
    extraction operator [>>] at the three types the driver reads ([string],
    [float], [long]) are the operations of the class [InputStream].  An
    extraction returns the value read and the stream after it. *)
Class InputStream (D : Type) : Type := {
  line : Type;
  stream : Type;
  istringstream : line -> stream;
  extract_string : stream -> string * stream;
  extract_float : stream -> D * stream;
  extract_long : stream -> Z * stream
}.

(** What [processData] works on: the filter object [ukf], the values written
    to [out_file_] so far, and the two vectors [estimations] and
    [ground_truth] it appends to.  An entry [None] of [ground_truth] stands for
    a read of [gt_pack_list[k]] past the end of the vector, which the source
    does not check. *)
Record driver (D : Type) : Type := {
  ukf : UKF D;
  out_file_ : list D;
  estimations : list (D * D);
  ground_truth : list (option (D * D))
}.

Section Driver.
Context {D : Type} `{Double D} `{Eigen D}.
Local Open Scope dbl_scope.

(** [v.head(2)], the first two coefficients of a vector. *)
Definition head2 (v : Vector D) : D * D := (v 0%nat, v 1%nat).

(** The comma initializers [v << a, b], [v << a, b, c] and [v << a, b, c, d]. *)
Definition vec2 (a b : D) : Vector D :=
  fun i => match i with 0 => a | _ => b end%nat.
Definition vec3 (a b c : D) : Vector D :=
  fun i => match i with 0 => a | 1 => b | _ => c end%nat.
Definition vec4 (a b c d : D) : Vector D :=
  fun i => match i with 0 => a | 1 => b | 2 => c | _ => d end%nat.

Section ReadData.
Context {I : InputStream D}.

(** The first token of a line, [iss >> sensor_type]. *)
Definition sensor_tag (l : line) : string :=
  fst (extract_string (istringstream l)).

(** The four ground truth values read from the rest of a line. *)
Definition read_ground_truth (iss : stream) : GroundTruthPackage D :=
  let '(x_gt, iss) := extract_float iss in
  let '(y_gt, iss) := extract_float iss in
  let '(vx_gt, iss) := extract_float iss in
  let '(vy_gt, _) := extract_float iss in
  {| gt_values_ := vec4 x_gt y_gt vx_gt vy_gt |}.

(** The body of the [while (getline(in_file_, line))] loop of [readData]. *)
Definition read_line (useRadar useLidar : bool) (l : line)
  (lists : list (MeasurementPackage D) * list (GroundTruthPackage D))
  : list (MeasurementPackage D) * list (GroundTruthPackage D) :=
  let '(measurement_pack_list, gt_pack_list) := lists in
  let iss := istringstream l in
  let '(sensor_type, iss) := extract_string iss in
  if String.eqb sensor_type "L" then
    if useRadar then lists                                  (* continue *)
    else
      let '(x, iss) := extract_float iss in
      let '(y, iss) := extract_float iss in
      let '(timestamp, iss) := extract_long iss in
      let meas_package :=
        {| timestamp_ := timestamp; sensor_type_ := LASER;
           raw_measurements_ := vec2 x y |} in
      (measurement_pack_list ++ [meas_package],
       gt_pack_list ++ [read_ground_truth iss])
  else if String.eqb sensor_type "R" then
    if useLidar then lists                                  (* continue *)
    else
      let '(ro, iss) := extract_float iss in
      let '(theta, iss) := extract_float iss in
      let '(ro_dot, iss) := extract_float iss in
      let '(timestamp, iss) := extract_long iss in
      let meas_package :=
        {| timestamp_ := timestamp; sensor_type_ := RADAR;
           raw_measurements_ := vec3 ro theta ro_dot |} in
      (measurement_pack_list ++ [meas_package],
       gt_pack_list ++ [read_ground_truth iss])
  else
    (measurement_pack_list, gt_pack_list ++ [read_ground_truth iss]).

(** [void readData(ifstream &in_file_, vector<MeasurementPackage>
    &measurement_pack_list, vector<GroundTruthPackage> &gt_pack_list)], the
    file being the list of its lines. *)
Definition readData (useRadar useLidar : bool) (in_file_ : list line)
  (lists : list (MeasurementPackage D) * list (GroundTruthPackage D))
  : list (MeasurementPackage D) * list (GroundTruthPackage D) :=
  fold_left (fun lists l => read_line useRadar useLidar l lists) in_file_ lists.

(** The line's first token is [t]. *)
Definition tagged (t : string) (l : line) : bool := String.eqb (sensor_tag l) t.

(** The line's first token is neither [L] nor [R]. *)
Definition other_tag (l : line) : bool :=
  negb (tagged "L" l) && negb (tagged "R" l).

(** What one line adds to the two vectors. *)
Definition line_packages (useRadar useLidar : bool) (l : line)
  : list (MeasurementPackage D) * list (GroundTruthPackage D) :=
  read_line useRadar useLidar l ([], []).

(** The measurement of a line together with the ground truth of that line. *)
Definition line_pairs (useRadar useLidar : bool) (l : line)
  : list (MeasurementPackage D * GroundTruthPackage D) :=
  combine (fst (line_packages useRadar useLidar l))
          (snd (line_packages useRadar useLidar l)).

End ReadData.

(** The body of the loop of [processData], at index [k] with
    [measurement_pack_list[k]] being [m]. *)
Definition process_entry (fuel : nat) (gt_pack_list : list (GroundTruthPackage D))
  (k : nat) (m : MeasurementPackage D) (r : driver D) : outcome (driver D) :=
  u <- ProcessMeasurement fuel m (ukf r) ;;
  let out :=
    out_file_ r ++ [x_ u 0; x_ u 1; x_ u 2; x_ u 3; x_ u 4]%nat in
  let out :=
    match sensor_type_ m with
    | LASER =>
        out ++ [raw_measurements_ m 0%nat; raw_measurements_ m 1%nat]
    | RADAR =>
        let ro := raw_measurements_ m 0%nat in
        let phi := raw_measurements_ m 1%nat in
        out ++ [ro * dcos phi; ro * dsin phi]
    end in
  Returns
    {| ukf := u;
       out_file_ := out;
       estimations := estimations r ++ [head2 (x_ u)];
       ground_truth :=
         ground_truth r
         ++ [option_map (fun g => head2 (gt_values_ g))
                        (nth_error gt_pack_list k)] |}.

(** The loop [for (size_t k = 0; k < N; ++k)] of [processData], from index
    [k] on, over the measurements that remain. *)
Fixpoint process_from (fuel : nat) (gt_pack_list : list (GroundTruthPackage D))
  (k : nat) (remaining : list (MeasurementPackage D)) (r : driver D)
  : outcome (driver D) :=
  match remaining with
  | [] => Returns r
  | m :: remaining' =>
      r' <- process_entry fuel gt_pack_list k m r ;;
      process_from fuel gt_pack_list (S k) remaining' r'
  end.

(** [void processData(ofstream &out_file_, const vector<MeasurementPackage>
    &measurement_pack_list, const vector<GroundTruthPackage> &gt_pack_list,
    vector<VectorXd> &estimations, vector<VectorXd> &ground_truth)]; [mem] is
    the storage the local object [UKF ukf] is constructed in. *)
Definition processData (fuel : nat) (mem : UKF D) (out : list D)
  (measurement_pack_list : list (MeasurementPackage D))
  (gt_pack_list : list (GroundTruthPackage D))
  (est : list (D * D)) (gt : list (option (D * D))) : outcome (driver D) :=
  process_from fuel gt_pack_list 0 measurement_pack_list
    {| ukf := UKF_new mem; out_file_ := out;
       estimations := est; ground_truth := gt |}.

(** A radar measurement package. *)
Definition radar_at (t : Z) (rho phi rho_dot : D) : MeasurementPackage D :=
  {| timestamp_ := t; sensor_type_ := RADAR;
     raw_measurements_ := vec3 rho phi rho_dot |}.

End Driver.

(** Streams for the examples: a line is its sensor tag, and every number read
    from it is zero. *)
Definition tag_only_stream : InputStream R :=
  {| line := string;
     stream := string;
     istringstream := fun s => s;
     extract_string := fun s => (s, s);
     extract_float := fun s => (0%R, s);
     extract_long := fun s => (0%Z, s) |}.

(** A file of two lines, one tagged L and one tagged R. *)
Definition tag_only_file : list string := ["L"; "R"]%string.


(** *** Vocabulary for the driver *)

(** What a call of [ProcessMeasurement] leaves in the object, whichever of its
    paths is taken. *)
Definition ProcessMeasurement_post (m : MeasurementPackage R) (s s' : UKF R)
  : Prop :=
  is_initialized_ s' = true /\
  previous_timestamp_ s' = timestamp_ m /\
  same_configuration s s' /\
  (is_initialized_ s = false -> s' = initialize m s).

(** The entries [gt_pack_list[j].gt_values_.head(2)] for the [n] indices from
    [k] on. *)
Definition ground_truth_entries (gt_pack_list : list (GroundTruthPackage R))
  (k n : nat) : list (option (R * R)) :=
  map (fun j => option_map (fun g => head2 (gt_values_ g))
                           (nth_error gt_pack_list j))
      (seq k n).

(** The position the first call of [ProcessMeasurement] takes from a
    measurement. *)
Definition first_position (m : MeasurementPackage R) (P : Matrix R) : R * R :=
  fst (initial_position m P).

(** What the loop of [processData] has done to [r] when it has run over the
    measurements [ms] from index [k] on. *)
Definition process_from_post (gt_pack_list : list (GroundTruthPackage R))
  (k : nat) (ms : list (MeasurementPackage R)) (r r' : driver R) : Prop :=
  same_configuration (ukf r) (ukf r') /\
  length (out_file_ r') = (length (out_file_ r) + 7 * length ms)%nat /\
  ground_truth r'
  = ground_truth r ++ ground_truth_entries gt_pack_list k (length ms) /\
  (exists new : list (R * R),
     estimations r' = estimations r ++ new /\
     length new = length ms /\
     (ms <> [] -> forall d, last new d = head2 (x_ (ukf r'))) /\
     (is_initialized_ (ukf r) = false ->
      forall m ms', ms = m :: ms' ->
        hd_error new = Some (first_position m (P_ (ukf r))))) /\
  (ms = [] -> r' = r) /\
  (ms <> [] ->
     is_initialized_ (ukf r') = true /\
     forall d, previous_timestamp_ (ukf r') = timestamp_ (last ms d)).

(* ========================================================================= *)
(** * Part II: lemmas *)

Unset Implicit Arguments.
Local Open Scope R_scope.

Ltac dsimpl :=
  cbn [d_of_Z dadd dsub dmul ddiv dopp dsqrt dsin dcos datan2 dfabs dlt dgt dne
       M_PI Double_R zero dec] in *.

(** ** Total-correctness rules for [outcome] *)

Lemma terminates_ret {A : Type} (a : A) (P : A -> Prop) :
  P a -> terminates_with (fun _ => Returns a) P.
Proof. intros HP. exists a, 0%nat. split; [reflexivity | exact HP]. Qed.

Lemma terminates_bind {A B : Type} (f : nat -> outcome A)
  (g : nat -> A -> outcome B) (P : A -> Prop) (Q : B -> Prop) :
  terminates_with f P ->
  (forall a, P a -> terminates_with (fun fuel => g fuel a) Q) ->
  terminates_with (fun fuel => bind (f fuel) (g fuel)) Q.
Proof.
  intros (a & n & Hf & HP) Hg.
  destruct (Hg a HP) as (b & m & Hgb & HQ).
  exists b, (Nat.max n m). split; [| exact HQ].
  intros fuel Hfuel. rewrite Hf by lia. simpl. apply Hgb. lia.
Qed.

Lemma terminates_weaken {A : Type} (f : nat -> outcome A) (P Q : A -> Prop) :
  terminates_with f P -> (forall a, P a -> Q a) -> terminates_with f Q.
Proof.
  intros (a & n & Hf & HP) HPQ. exists a, n. split; [exact Hf | auto].
Qed.

Lemma terminates_for_loop_m {S : Type} (body : nat -> nat -> S -> outcome S)
  (I : nat -> S -> Prop) (k : nat) (init : S) :
  I 0%nat init ->
  (forall i s, (i < k)%nat -> I i s ->
     terminates_with (fun fuel => body fuel i s) (I (Datatypes.S i))) ->
  terminates_with (fun fuel => for_loop_m k (body fuel) init) (I k).
Proof.
  intros H0 Hstep. induction k as [|k IH].
  - simpl. apply terminates_ret. exact H0.
  - simpl.
    apply (@terminates_bind _ _ (fun fuel => for_loop_m k (body fuel) init)
                            (fun fuel => body fuel k) (I k)).
    + apply IH. intros i s Hi. apply Hstep. lia.
    + intros s Hs. apply Hstep; [lia | exact Hs].
Qed.

(** ** The comparisons of the real instance *)

Lemma Rltb_true (a b : R) : Rltb a b = true <-> a < b.
Proof. unfold Rltb. destruct (Rlt_dec a b); split; intros; auto; discriminate. Qed.

Lemma Rltb_false (a b : R) : Rltb a b = false <-> b <= a.
Proof.
  unfold Rltb. destruct (Rlt_dec a b); split; intros; auto; try discriminate; lra.
Qed.

Lemma Rneb_refl (a : R) : Rneb a a = false.
Proof. unfold Rneb. destruct (Req_dec_T a a); [reflexivity | congruence]. Qed.

Lemma PI_bounds : 3 < PI <= 4.
Proof.
  split; [| exact PI_4].
  pose proof PI2_3_2. lra.
Qed.

(** ** Angle normalization over the reals *)

Lemma exists_nat_above (r : R) : exists n : nat, r <= INR n.
Proof.
  destruct (archimed r) as [Hup _].
  exists (Z.to_nat (up r)).
  destruct (Z_lt_le_dec (up r) 0) as [Hneg | Hpos].
  - assert (IZR (up r) < 0) by (apply IZR_lt in Hneg; exact Hneg).
    pose proof (pos_INR (Z.to_nat (up r))). lra.
  - rewrite INR_IZR_INZ, Z2Nat.id by exact Hpos. lra.
Qed.

Section NormalizeR.

Lemma while_gt_pi_spec (n : nat) : forall a : R,
  a <= PI + INR n * (2 * PI) ->
  exists a',
    (forall fuel, (n < fuel)%nat -> while_gt_pi fuel a = Returns a') /\
    a' <= PI /\ (a <= PI -> a' = a) /\ (PI < a -> - PI < a') /\
    exists k : nat, a' = a - INR k * (2 * PI).
Proof.
  pose proof PI_bounds as HPI.
  induction n as [|n IH]; intros a Ha.
  - simpl in Ha. exists a. split.
    + intros [|fuel] Hfuel; [lia |]. simpl; dsimpl.
      assert (Hle : a <= PI) by lra. apply Rltb_false in Hle. now rewrite Hle.
    + repeat split; try lra. exists 0%nat. simpl. lra.
  - destruct (Rle_or_lt a PI) as [Hin | Hout].
    + exists a. split.
      * intros [|fuel] Hfuel; [lia |]. simpl; dsimpl.
        apply Rltb_false in Hin. now rewrite Hin.
      * repeat split; try lra. exists 0%nat. simpl. lra.
    + rewrite S_INR in Ha.
      destruct (IH (a - 2 * PI)) as (a' & Hrun & Hle & Hid & Hgt & k & Hk);
        [lra |].
      exists a'. split.
      * intros [|fuel] Hfuel; [lia |]. simpl; dsimpl.
        apply Rltb_true in Hout. rewrite Hout. apply Hrun. lia.
      * split; [exact Hle |]. split; [intros; lra |]. split.
        -- intros _. destruct (Rle_or_lt (a - 2 * PI) PI) as [Hin' | Hout'].
           ++ rewrite (Hid Hin'). lra.
           ++ apply Hgt. exact Hout'.
        -- exists (S k). rewrite S_INR. lra.
Qed.

Lemma while_lt_mpi_spec (n : nat) : forall a : R,
  - PI - INR n * (2 * PI) <= a ->
  exists a',
    (forall fuel, (n < fuel)%nat -> while_lt_mpi fuel a = Returns a') /\
    - PI <= a' /\ (- PI <= a -> a' = a) /\ (a < - PI -> a' < PI) /\
    exists k : nat, a' = a + INR k * (2 * PI).
Proof.
  pose proof PI_bounds as HPI.
  induction n as [|n IH]; intros a Ha.
  - simpl in Ha. exists a. split.
    + intros [|fuel] Hfuel; [lia |]. simpl; dsimpl.
      assert (Hle : - PI <= a) by lra. apply Rltb_false in Hle. now rewrite Hle.
    + repeat split; try lra. exists 0%nat. simpl. lra.
  - destruct (Rle_or_lt (- PI) a) as [Hin | Hout].
    + exists a. split.
      * intros [|fuel] Hfuel; [lia |]. simpl; dsimpl.
        apply Rltb_false in Hin. now rewrite Hin.
      * repeat split; try lra. exists 0%nat. simpl. lra.
    + rewrite S_INR in Ha.
      destruct (IH (a + 2 * PI)) as (a' & Hrun & Hle & Hid & Hlt & k & Hk);
        [lra |].
      exists a'. split.
      * intros [|fuel] Hfuel; [lia |]. simpl; dsimpl.
        apply Rltb_true in Hout. rewrite Hout. apply Hrun. lia.
      * split; [exact Hle |]. split; [intros; lra |]. split.
        -- intros _. destruct (Rle_or_lt (- PI) (a + 2 * PI)) as [Hin' | Hout'].
           ++ rewrite (Hid Hin'). lra.
           ++ apply Hlt. exact Hout'.
        -- exists (S k). rewrite S_INR. lra.
Qed.

Lemma steps_above (a : R) : exists n : nat, a <= PI + INR n * (2 * PI).
Proof.
  pose proof PI_bounds as HPI.
  destruct (exists_nat_above ((a - PI) / (2 * PI))) as [n Hn].
  exists n. apply (Rmult_le_compat_r (2 * PI)) in Hn; [| lra].
  unfold Rdiv in Hn. rewrite Rmult_assoc, Rinv_l in Hn by lra. lra.
Qed.

Lemma steps_below (a : R) : exists n : nat, - PI - INR n * (2 * PI) <= a.
Proof.
  pose proof PI_bounds as HPI.
  destruct (exists_nat_above ((- PI - a) / (2 * PI))) as [n Hn].
  exists n. apply (Rmult_le_compat_r (2 * PI)) in Hn; [| lra].
  unfold Rdiv in Hn. rewrite Rmult_assoc, Rinv_l in Hn by lra. lra.
Qed.

(** Every real angle is normalized in finitely many steps, into the closed
    interval from [-PI] to [PI], by a whole number of turns; an angle already
    in the interval is returned as it is. *)
Lemma normalize_angle_terminates (a : R) :
  terminates_with (fun fuel => normalize_angle fuel a)
    (fun a' => - PI <= a' <= PI /\ (- PI <= a <= PI -> a' = a) /\
               exists k : Z, a' = a + IZR k * (2 * PI)).
Proof.
  pose proof PI_bounds as HPI.
  destruct (steps_above a) as [n Ha].
  destruct (while_gt_pi_spec n a Ha) as (a1 & Hrun1 & Hle1 & Hid1 & Hgt1 & k1 & Hk1).
  destruct (steps_below a1) as [m Ha1].
  destruct (while_lt_mpi_spec m a1 Ha1)
    as (a2 & Hrun2 & Hle2 & Hid2 & Hlt2 & k2 & Hk2).
  exists a2, (S (Nat.max n m)). split.
  - intros fuel Hfuel. unfold normalize_angle.
    rewrite Hrun1 by lia. simpl. apply Hrun2. lia.
  - split; [| split].
    + split; [exact Hle2 |].
      destruct (Rle_or_lt (- PI) a1) as [Hin | Hout].
      * rewrite (Hid2 Hin). exact Hle1.
      * left. apply Hlt2. exact Hout.
    + intros [Hlo Hhi]. rewrite Hid2; rewrite (Hid1 Hhi); auto.
    + exists (Z.of_nat k2 - Z.of_nat k1)%Z.
      rewrite minus_IZR, <- !INR_IZR_INZ. lra.
Qed.

End NormalizeR.

(** ** Residuals and termination of the member functions over the reals *)

Section TerminationR.

Lemma vset_normalized (r0 : nat) (d0 : Vector R) (a : R) :
  - PI <= a <= PI ->
  (- PI <= d0 r0 <= PI -> a = d0 r0) ->
  (exists k : Z, a = d0 r0 + IZR k * (2 * PI)) ->
  normalized_residual r0 d0 (vset r0 a d0).
Proof.
  intros Hin Hid Hk. unfold normalized_residual, vset.
  rewrite Nat.eqb_refl. repeat split; try tauto.
  intros r Hr. apply Nat.eqb_neq in Hr. now rewrite Hr.
Qed.

Lemma state_residual_terminates (Xsig_pred : Matrix R) (x : Vector R) (i : nat) :
  terminates_with (fun fuel => state_residual fuel Xsig_pred x i)
    (normalized_residual 3 (vsub (col Xsig_pred i) x)).
Proof.
  unfold state_residual.
  apply (@terminates_bind _ _
           (fun fuel => normalize_angle fuel (vsub (col Xsig_pred i) x 3%nat))
           (fun _ a => Returns (vset 3 a (vsub (col Xsig_pred i) x))) _ _
           (normalize_angle_terminates _)).
  intros a (Hin & Hid & Hk). apply terminates_ret.
  apply vset_normalized; assumption.
Qed.

Lemma meas_residual_terminates (z z_pred : Vector R) :
  terminates_with (fun fuel => meas_residual fuel z z_pred)
    (normalized_residual 1 (vsub z z_pred)).
Proof.
  unfold meas_residual.
  apply (@terminates_bind _ _
           (fun fuel => normalize_angle fuel (vsub z z_pred 1%nat))
           (fun _ a => Returns (vset 1 a (vsub z z_pred))) _ _
           (normalize_angle_terminates _)).
  intros a (Hin & Hid & Hk). apply terminates_ret.
  apply vset_normalized; assumption.
Qed.

(** A loop that adds one weighted outer product of residuals per sigma point
    returns the sum of these products. *)
Lemma outer_loop_terminates (body : nat -> nat -> Matrix R -> outcome (Matrix R))
  (w : Vector R) (Puv : nat -> Vector R -> Vector R -> Prop) (k : nat) :
  (forall i M, (i < k)%nat ->
     terminates_with (fun fuel => body fuel i M)
       (fun M' => exists u v, Puv i u v /\
                  forall r c, M' r c = M r c + w i * u r * v c)) ->
  terminates_with (fun fuel => for_loop_m k (body fuel) (mfill zero))
    (fun M => exists u v : nat -> Vector R,
       (forall i, (i < k)%nat -> Puv i (u i) (v i)) /\
       forall r c, M r c = sum_upto k (fun i => w i * u i r * v i c)).
Proof.
  intros Hbody.
  apply (terminates_for_loop_m body
    (fun n M => exists u v : nat -> Vector R,
       (forall i, (i < n)%nat -> Puv i (u i) (v i)) /\
       forall r c, M r c = sum_upto n (fun i => w i * u i r * v i c))).
  - exists (fun _ _ => 0), (fun _ _ => 0). split; [intros; lia |].
    intros r c. reflexivity.
  - intros i M Hi (u & v & Huv & HM).
    apply (terminates_weaken _ _ _ (Hbody i M Hi)).
    intros M' (ui & vi & Hi' & HM').
    exists (fun j => if Nat.eqb j i then ui else u j),
           (fun j => if Nat.eqb j i then vi else v j).
    split.
    + intros j Hj. destruct (Nat.eqb j i) eqn:Hji.
      * apply Nat.eqb_eq in Hji. subst j. auto.
      * apply Nat.eqb_neq in Hji. apply Huv. lia.
    + intros r c. rewrite HM', HM. simpl; dsimpl. rewrite Nat.eqb_refl.
      f_equal.
      assert (Hext : forall n, (n <= i)%nat ->
        sum_upto n (fun j => w j * u j r * v j c) =
        sum_upto n (fun j => w j * (if Nat.eqb j i then ui else u j) r *
                                    (if Nat.eqb j i then vi else v j) c)).
      { induction n as [|n IHn]; intros Hn; [reflexivity |].
        simpl. rewrite IHn by lia.
        assert (Hni : Nat.eqb n i = false) by (apply Nat.eqb_neq; lia).
        now rewrite Hni. }
      apply Hext. lia.
Qed.

End TerminationR.

(** ** No member function signals an error; the frame of the radar update *)

Section NoThrow.
Context {D : Type} `{Double D} `{Eigen D}.

Lemma bind_no_throw {A B : Type} (m : outcome A) (k : A -> outcome B) :
  m <> Throws -> (forall a, k a <> Throws) -> bind m k <> Throws.
Proof.
  intros Hm Hk. destruct m; simpl; [apply Hk | congruence | discriminate].
Qed.

Lemma for_loop_m_no_throw {S : Type} (body : nat -> S -> outcome S) (n : nat)
  (init : S) :
  (forall i s, body i s <> Throws) -> for_loop_m n body init <> Throws.
Proof.
  intros Hbody. induction n as [|n IH]; simpl; [discriminate |].
  apply bind_no_throw; auto.
Qed.

Lemma while_gt_pi_no_throw (fuel : nat) : forall a : D,
  while_gt_pi fuel a <> Throws.
Proof.
  induction fuel as [|fuel IH]; intros a; simpl; [discriminate |].
  destruct (dgt a M_PI); [apply IH | discriminate].
Qed.

Lemma while_lt_mpi_no_throw (fuel : nat) : forall a : D,
  while_lt_mpi fuel a <> Throws.
Proof.
  induction fuel as [|fuel IH]; intros a; simpl; [discriminate |].
  destruct (dlt a (dopp M_PI)); [apply IH | discriminate].
Qed.

Lemma normalize_angle_no_throw (fuel : nat) (a : D) :
  normalize_angle fuel a <> Throws.
Proof.
  unfold normalize_angle. apply bind_no_throw.
  - apply while_gt_pi_no_throw.
  - intros. apply while_lt_mpi_no_throw.
Qed.

Lemma state_residual_no_throw (fuel : nat) (X : Matrix D) (x : Vector D) (i : nat) :
  state_residual fuel X x i <> Throws.
Proof.
  unfold state_residual. apply bind_no_throw.
  - apply normalize_angle_no_throw.
  - discriminate.
Qed.


Lemma Prediction_no_throw (fuel : nat) (delta_t : D) (s : UKF D) :
  Prediction fuel delta_t s <> Throws.
Proof.
  unfold Prediction, predicted_covariance. apply bind_no_throw.
  - apply for_loop_m_no_throw. intros i P. apply bind_no_throw.
    + apply state_residual_no_throw.
    + discriminate.
  - discriminate.
Qed.




End NoThrow.

(** ** The member functions return, over the reals *)

Section ReturnsR.
Context {E : Eigen R}.

Lemma sum_upto_ext (n : nat) (f g : nat -> R) :
  (forall i, (i < n)%nat -> f i = g i) -> sum_upto n f = sum_upto n g.
Proof.
  induction n as [|n IH]; intros Hfg; [reflexivity |].
  simpl. rewrite IH by (intros; apply Hfg; lia). rewrite Hfg by lia. reflexivity.
Qed.

Lemma predicted_covariance_terminates (w : Vector R) (Xp : Matrix R)
  (x : Vector R) :
  terminates_with (fun fuel => predicted_covariance fuel w Xp x)
    (fun P => exists d : nat -> Vector R,
       (forall i, (i < 2 * n_aug_ + 1)%nat ->
          normalized_residual 3 (vsub (col Xp i) x) (d i)) /\
       forall r c, P r c =
         sum_upto (2 * n_aug_ + 1) (fun i => w i * d i r * d i c)).
Proof.
  unfold predicted_covariance. eapply terminates_weaken.
  - apply (outer_loop_terminates
       (fun fuel i P =>
          x_diff <- state_residual fuel Xp x i ;;
          Returns (madd P (scaled_outer (w i) x_diff x_diff)))
       w
       (fun i u v => normalized_residual 3 (vsub (col Xp i) x) u /\ v = u)
       (2 * n_aug_ + 1)).
    intros i M Hi.
    apply (@terminates_bind _ _ (fun fuel => state_residual fuel Xp x i)
             (fun _ x_diff => Returns (madd M (scaled_outer (w i) x_diff x_diff)))
             _ _ (state_residual_terminates Xp x i)).
    intros d Hd. apply terminates_ret. exists d, d.
    split; [split; [exact Hd | reflexivity] |]. intros r c. reflexivity.
  - cbv beta. intros P (u & v & Huv & HP). exists u. split.
    + intros i Hi. apply Huv. exact Hi.
    + intros r c. rewrite HP. apply sum_upto_ext.
      intros i Hi. destruct (Huv i Hi) as [_ ->]. reflexivity.
Qed.

Lemma radar_S_sum_terminates (w : Vector R) (Zsig : Matrix R) (z_pred : Vector R) :
  terminates_with (fun fuel => radar_S_sum fuel w Zsig z_pred)
    (fun S => exists d : nat -> Vector R,
       (forall i, (i < 2 * n_aug_ + 1)%nat ->
          normalized_residual 1 (vsub (col Zsig i) z_pred) (d i)) /\
       forall r c, S r c =
         sum_upto (2 * n_aug_ + 1) (fun i => w i * d i r * d i c)).
Proof.
  unfold radar_S_sum. eapply terminates_weaken.
  - apply (outer_loop_terminates
       (fun fuel i S =>
          z_diff <- meas_residual fuel (col Zsig i) z_pred ;;
          Returns (madd S (scaled_outer (w i) z_diff z_diff)))
       w
       (fun i u v => normalized_residual 1 (vsub (col Zsig i) z_pred) u /\ v = u)
       (2 * n_aug_ + 1)).
    intros i M Hi.
    apply (@terminates_bind _ _
             (fun fuel => meas_residual fuel (col Zsig i) z_pred)
             (fun _ z_diff => Returns (madd M (scaled_outer (w i) z_diff z_diff)))
             _ _ (meas_residual_terminates (col Zsig i) z_pred)).
    intros d Hd. apply terminates_ret. exists d, d.
    split; [split; [exact Hd | reflexivity] |]. intros r c. reflexivity.
  - cbv beta. intros S (u & v & Huv & HS). exists u. split.
    + intros i Hi. apply Huv. exact Hi.
    + intros r c. rewrite HS. apply sum_upto_ext.
      intros i Hi. destruct (Huv i Hi) as [_ ->]. reflexivity.
Qed.

Lemma radar_Tc_terminates (w : Vector R) (Zsig : Matrix R) (z_pred : Vector R)
  (Xp : Matrix R) (x : Vector R) :
  terminates_with (fun fuel => radar_Tc fuel w Zsig z_pred Xp x)
    (fun Tc => exists dx dz : nat -> Vector R,
       (forall i, (i < 2 * n_aug_ + 1)%nat ->
          normalized_residual 3 (vsub (col Xp i) x) (dx i) /\
          normalized_residual 1 (vsub (col Zsig i) z_pred) (dz i)) /\
       forall r c, Tc r c =
         sum_upto (2 * n_aug_ + 1) (fun i => w i * dx i r * dz i c)).
Proof.
  unfold radar_Tc.
  apply (outer_loop_terminates
       (fun fuel i Tc =>
          z_diff <- meas_residual fuel (col Zsig i) z_pred ;;
          x_diff <- state_residual fuel Xp x i ;;
          Returns (madd Tc (scaled_outer (w i) x_diff z_diff)))
       w
       (fun i u v => normalized_residual 3 (vsub (col Xp i) x) u /\
                     normalized_residual 1 (vsub (col Zsig i) z_pred) v)
       (2 * n_aug_ + 1)).
  intros i M Hi.
  apply (@terminates_bind _ _ (fun fuel => meas_residual fuel (col Zsig i) z_pred)
           (fun fuel z_diff =>
              x_diff <- state_residual fuel Xp x i ;;
              Returns (madd M (scaled_outer (w i) x_diff z_diff)))
           _ _ (meas_residual_terminates (col Zsig i) z_pred)).
  intros dz Hdz.
  apply (@terminates_bind _ _ (fun fuel => state_residual fuel Xp x i)
           (fun _ x_diff => Returns (madd M (scaled_outer (w i) x_diff dz)))
           _ _ (state_residual_terminates Xp x i)).
  intros dx Hdx. apply terminates_ret. exists dx, dz.
  split; [split; assumption |]. intros r c. reflexivity.
Qed.

Lemma Prediction_terminates (delta_t : R) (s : UKF R) :
  terminates_with (fun fuel => Prediction fuel delta_t s)
                  (Prediction_post delta_t s).
Proof.
  unfold Prediction.
  destruct (predicted_covariance_terminates (weights_ s)
              (predicted_sigma_points delta_t s)
              (predicted_mean (weights_ s) (predicted_sigma_points delta_t s)))
    as (P' & n & Hrun & d & Hd & HP').
  eexists. exists n. split.
  - intros fuel Hfuel. rewrite (Hrun fuel Hfuel). simpl. reflexivity.
  - unfold Prediction_post, same_configuration. simpl.
    repeat split; try reflexivity.
    exists d. split; assumption.
Qed.

Lemma UpdateRadar_terminates (m : MeasurementPackage R) (s : UKF R) :
  terminates_with (fun fuel => UpdateRadar fuel m s) (UpdateRadar_post m s).
Proof.
  unfold UpdateRadar.
  set (Zsig' := radar_Zsig s).
  set (z_pred := radar_z_pred (weights_ s) Zsig').
  destruct (radar_S_sum_terminates (weights_ s) Zsig' z_pred)
    as (S0 & n1 & Hrun1 & dS & HdS & HS0).
  destruct (radar_Tc_terminates (weights_ s) Zsig' z_pred (Xsig_pred_ s) (x_ s))
    as (Tc & n2 & Hrun2 & dx & dz & Hdxz & HTc).
  destruct (meas_residual_terminates (raw_measurements_ m) z_pred)
    as (zd & n3 & Hrun3 & Hzd).
  eexists. exists (Nat.max n1 (Nat.max n2 n3)). split.
  - intros fuel Hfuel.
    rewrite (Hrun1 fuel) by lia. simpl.
    rewrite (Hrun2 fuel) by lia. simpl.
    rewrite (Hrun3 fuel) by lia. simpl. reflexivity.
  - unfold UpdateRadar_post, same_configuration. simpl.
    fold Zsig' z_pred.
    split; [reflexivity |]. split.
    + exists dS, dx, dz, S0, Tc, zd. split.
      { intros i Hi. destruct (Hdxz i Hi). auto. }
      split; [exact HS0 |]. split; [exact HTc |]. split.
      { exists S0, n1. split; [exact Hrun1 | reflexivity]. }
      split; [exact Hzd |]. repeat split; reflexivity.
    + repeat split; reflexivity.
Qed.

End ReturnsR.

(** ** Sigma points, their propagation and their mean *)

Section SigmaPointsR.
Context {E : Eigen R}.

Lemma gamma_sqr : gamma * gamma = 3.
Proof.
  unfold gamma.
  replace (lambda_ + IZR (Z.of_nat n_aug_)) with 3
    by (unfold lambda_, n_aug_, n_x_; simpl; lra).
  apply sqrt_sqrt. lra.
Qed.

Lemma gamma_bounds : 0 <= gamma <= 2.
Proof.
  pose proof gamma_sqr as Hs.
  assert (H0 : 0 <= gamma) by (unfold gamma; apply sqrt_pos).
  split; [exact H0 | nra].
Qed.

Lemma sigma_points_entry (xa : Vector R) (A : Matrix R) (r i : nat) :
  (r < n_aug_)%nat ->
  sigma_points xa A r i =
    if Nat.eqb i 0 then xa r
    else if Nat.ltb i (n_aug_ + 1) then xa r + A r (i - 1)%nat * gamma
    else if Nat.ltb i (2 * n_aug_ + 1) then xa r - A r (i - (n_aug_ + 1))%nat * gamma
    else xa r.
Proof.
  intros Hr. unfold sigma_points, block_sub, block_add, in_block.
  assert (Hr1 : Nat.leb 0 r = true) by reflexivity.
  assert (Hr2 : Nat.ltb r (0 + n_aug_) = true) by (apply Nat.ltb_lt; lia).
  rewrite Hr1, Hr2. cbn [andb]. dsimpl. rewrite ?Nat.sub_0_r. fold gamma.
  destruct (Nat.eqb i 0) eqn:H0.
  { apply Nat.eqb_eq in H0. subst i. reflexivity. }
  apply Nat.eqb_neq in H0.
  destruct (Nat.ltb i (n_aug_ + 1)) eqn:H1.
  { apply Nat.ltb_lt in H1.
    assert (Ha : Nat.leb (n_aug_ + 1) i = false) by (apply Nat.leb_gt; lia).
    assert (Hb : Nat.leb 1 i = true) by (apply Nat.leb_le; lia).
    assert (Hc : Nat.ltb i (1 + n_aug_) = true) by (apply Nat.ltb_lt; lia).
    rewrite Ha, Hb, Hc. cbn [andb]. reflexivity. }
  apply Nat.ltb_ge in H1.
  assert (Hc : Nat.ltb i (1 + n_aug_) = false) by (apply Nat.ltb_ge; lia).
  assert (Ha : Nat.leb (n_aug_ + 1) i = true) by (apply Nat.leb_le; lia).
  rewrite Ha, Hc, andb_false_r. cbn [andb].
  replace (n_aug_ + 1 + n_aug_)%nat with (2 * n_aug_ + 1)%nat by lia.
  destruct (Nat.ltb i (2 * n_aug_ + 1)); reflexivity.
Qed.

Lemma predict_columns_entry (delta_t : R) (X M : Matrix R) (n r i : nat) :
  (r < n_x_)%nat ->
  for_loop n (predict_column delta_t X) M r i =
    if Nat.ltb i n then
      component r (propagate delta_t (X 0%nat i) (X 1%nat i) (X 2%nat i)
                     (X 3%nat i) (X 4%nat i) (X 5%nat i) (X 6%nat i))
    else M r i.
Proof.
  intros Hr. induction n as [|n IH].
  - reflexivity.
  - cbn [for_loop]. unfold predict_column at 1.
    destruct (propagate delta_t (X 0%nat n) (X 1%nat n) (X 2%nat n)
                (X 3%nat n) (X 4%nat n) (X 5%nat n) (X 6%nat n))
      as [[[[a b] c] d] e] eqn:Hp.
    unfold mset.
    destruct (Nat.eqb i n) eqn:Hin.
    + apply Nat.eqb_eq in Hin. subst i.
      assert (Hlt : Nat.ltb n (S n) = true) by (apply Nat.ltb_lt; lia).
      rewrite Hlt, Hp. unfold n_x_ in Hr.
      destruct r as [|[|[|[|[|r]]]]]; try lia; reflexivity.
    + rewrite !andb_false_r. rewrite IH.
      apply Nat.eqb_neq in Hin.
      destruct (Nat.ltb i n) eqn:Hlt.
      * apply Nat.ltb_lt in Hlt.
        assert (Hlt' : Nat.ltb i (S n) = true) by (apply Nat.ltb_lt; lia).
        now rewrite Hlt'.
      * apply Nat.ltb_ge in Hlt.
        assert (Hlt' : Nat.ltb i (S n) = false) by (apply Nat.ltb_ge; lia).
        now rewrite Hlt'.
Qed.

(** With a zero time step a sigma point is propagated to itself. *)
Lemma propagate_zero (p_x p_y v yaw yawd nu_a nu_yawdd : R) :
  propagate 0 p_x p_y v yaw yawd nu_a nu_yawdd = (p_x, p_y, v, yaw, yawd).
Proof.
  unfold propagate. dsimpl.
  replace (yaw + yawd * 0) with yaw by ring.
  destruct (Rltb (1 / 1000) (Rabs yawd)); repeat f_equal; unfold Rdiv; ring.
Qed.

Lemma predicted_sigma_points_zero (s : UKF R) (r i : nat) :
  (r < n_x_)%nat -> (i < 2 * n_aug_ + 1)%nat ->
  predicted_sigma_points 0 s r i = augmented_sigma_points s r i.
Proof.
  intros Hr Hi. unfold predicted_sigma_points.
  change (@zero R _) with 0. 
  rewrite predict_columns_entry by exact Hr.
  assert (Hlt : Nat.ltb i (2 * n_aug_ + 1) = true) by (apply Nat.ltb_lt; lia).
  rewrite Hlt, propagate_zero. unfold n_x_ in Hr.
  destruct r as [|[|[|[|[|r]]]]]; try lia; reflexivity.
Qed.

Lemma predicted_mean_entry (w : Vector R) (Xp : Matrix R) (r : nat) :
  predicted_mean w Xp r = sum_upto (2 * n_aug_ + 1) (fun i => w i * Xp r i).
Proof.
  unfold predicted_mean. generalize (2 * n_aug_ + 1)%nat as n.
  induction n as [|n IH]; [reflexivity |].
  cbn [for_loop sum_upto]. unfold vadd at 1. rewrite IH. reflexivity.
Qed.

(** The weights the constructor computes. *)
Lemma UKF_new_weights (mem : UKF R) :
  weights_ (UKF_new mem) 0%nat = - 4 / 3 /\
  forall i, (1 <= i <= 14)%nat -> weights_ (UKF_new mem) i = 1 / 6.
Proof.
  split.
  - unfold UKF_new. simpl. unfold vset. simpl. dsimpl. lra.
  - intros i Hi. unfold UKF_new. cbn [weights_]. unfold vset, segment_fill.
    assert (H0 : Nat.eqb i 0 = false) by (apply Nat.eqb_neq; lia).
    assert (H1 : Nat.leb 1 i = true) by (apply Nat.leb_le; lia).
    assert (H2 : Nat.ltb i (1 + 2 * n_aug_) = true)
      by (apply Nat.ltb_lt; unfold n_aug_, n_x_; lia).
    rewrite H0, H1, H2. simpl. dsimpl. lra.
Qed.

Lemma augmented_state_entry (x : Vector R) (r : nat) :
  (r < n_x_)%nat -> vec_append2 n_x_ x zero zero r = x r.
Proof.
  intros Hr. unfold vec_append2.
  assert (Hlt : Nat.ltb r n_x_ = true) by (apply Nat.ltb_lt; exact Hr).
  now rewrite Hlt.
Qed.

Lemma augmented_covariance_state_block (s : UKF R) (r c : nat) :
  (r < n_x_)%nat -> (c < n_x_)%nat -> augmented_covariance s r c = P_ s r c.
Proof.
  intros Hr Hc. unfold augmented_covariance, block_assign, in_block.
  assert (H1 : Nat.leb (n_aug_ - 2) r = false)
    by (apply Nat.leb_gt; unfold n_aug_, n_x_ in *; lia).
  assert (H2 : Nat.ltb r (0 + n_x_) = true) by (apply Nat.ltb_lt; lia).
  assert (H3 : Nat.ltb c (0 + n_x_) = true) by (apply Nat.ltb_lt; lia).
  rewrite H1, H2, H3. cbn [andb Nat.leb]. now rewrite !Nat.sub_0_r.
Qed.

(** The sigma points, written out: the mean, then the mean plus and minus
    each column of the scaled factor. *)
Lemma sum_over_sigma_points (w : Vector R) (f : nat -> R) :
  sum_upto (2 * n_aug_ + 1) (fun i => w i * f i) =
  w 0%nat * f 0%nat
  + (w 1%nat * f 1%nat + w 2%nat * f 2%nat + w 3%nat * f 3%nat
     + w 4%nat * f 4%nat + w 5%nat * f 5%nat + w 6%nat * f 6%nat
     + w 7%nat * f 7%nat)
  + (w 8%nat * f 8%nat + w 9%nat * f 9%nat + w 10%nat * f 10%nat
     + w 11%nat * f 11%nat + w 12%nat * f 12%nat + w 13%nat * f 13%nat
     + w 14%nat * f 14%nat).
Proof.
  change (2 * n_aug_ + 1)%nat with 15%nat. cbn [sum_upto]. dsimpl. ring.
Qed.

(** With a zero time step the predicted mean is the mean. *)
Lemma predicted_mean_zero (s : UKF R) (r : nat) :
  weights_ s 0%nat = - 4 / 3 ->
  (forall i, (1 <= i <= 14)%nat -> weights_ s i = 1 / 6) ->
  (r < n_x_)%nat ->
  predicted_mean (weights_ s) (predicted_sigma_points 0 s) r = x_ s r.
Proof.
  intros Hw0 Hw Hr.
  rewrite predicted_mean_entry.
  rewrite (sum_upto_ext _ _
             (fun i => weights_ s i * augmented_sigma_points s r i)).
  2:{ intros i Hi. now rewrite predicted_sigma_points_zero. }
  rewrite sum_over_sigma_points.
  unfold augmented_sigma_points.
  rewrite !sigma_points_entry by (unfold n_aug_, n_x_ in *; lia).
  rewrite augmented_state_entry by exact Hr.
  rewrite Hw0, !Hw by lia.
  change (n_aug_ + 1)%nat with 8%nat. change (2 * n_aug_ + 1)%nat with 15%nat.
  cbn [Nat.eqb Nat.ltb Nat.leb Nat.sub]. lra.
Qed.

(** The weighted sum of the outer products of the unwrapped residuals is the
    product of the factor with its transpose. *)
Lemma residual_products_zero (s : UKF R) (d : nat -> Vector R) (r c : nat) :
  weights_ s 0%nat = - 4 / 3 ->
  (forall i, (1 <= i <= 14)%nat -> weights_ s i = 1 / 6) ->
  (forall i q, (i < 2 * n_aug_ + 1)%nat -> (q < n_x_)%nat ->
     d i q = augmented_sigma_points s q i - x_ s q) ->
  (r < n_x_)%nat -> (c < n_x_)%nat ->
  sum_upto (2 * n_aug_ + 1) (fun i => weights_ s i * d i r * d i c) =
  mmul n_aug_ (llt_matrixL n_aug_ (augmented_covariance s))
       (transpose (llt_matrixL n_aug_ (augmented_covariance s))) r c.
Proof.
  intros Hw0 Hw Hd Hr Hc.
  rewrite (sum_upto_ext _ _
    (fun i => weights_ s i *
              ((augmented_sigma_points s r i - x_ s r) *
               (augmented_sigma_points s c i - x_ s c)))).
  2:{ intros i Hi. rewrite !Hd by assumption. ring. }
  rewrite sum_over_sigma_points.
  unfold augmented_sigma_points.
  rewrite !sigma_points_entry by (unfold n_aug_, n_x_ in *; lia).
  rewrite !augmented_state_entry by assumption.
  rewrite Hw0, !Hw by lia.
  change (n_aug_ + 1)%nat with 8%nat. change (2 * n_aug_ + 1)%nat with 15%nat.
  cbn [Nat.eqb Nat.ltb Nat.leb Nat.sub].
  unfold mmul, transpose. change n_aug_ with 7%nat. cbn [sum_upto]. dsimpl.
  match goal with
  | |- _ = ?rhs => transitivity (gamma * gamma / 3 * rhs);
                   [field | rewrite gamma_sqr; field]
  end.
Qed.

End SigmaPointsR.

(** ** Diagonal covariance matrices *)

Section DiagonalR.

Lemma sum_upto_zero (n : nat) (f : nat -> R) :
  (forall i, (i < n)%nat -> f i = 0) -> sum_upto n f = 0.
Proof.
  induction n as [|n IH]; intros Hf; [reflexivity |].
  cbn [sum_upto]. dsimpl. rewrite IH by (intros; apply Hf; lia).
  rewrite Hf by lia. lra.
Qed.

(** A sum with a single non-zero term. *)
Lemma sum_upto_single (n r : nat) (f : nat -> R) :
  sum_upto n (fun l => if Nat.eqb r l then f l else 0) =
  if Nat.ltb r n then f r else 0.
Proof.
  induction n as [|n IH]; [reflexivity |].
  cbn [sum_upto]. dsimpl. rewrite IH.
  destruct (Nat.eqb r n) eqn:Hrn.
  - apply Nat.eqb_eq in Hrn. subst r.
    assert (H1 : Nat.ltb n n = false) by (apply Nat.ltb_ge; lia).
    assert (H2 : Nat.ltb n (S n) = true) by (apply Nat.ltb_lt; lia).
    rewrite H1, H2. lra.
  - apply Nat.eqb_neq in Hrn.
    destruct (Nat.ltb r n) eqn:Hlt.
    + apply Nat.ltb_lt in Hlt.
      assert (H2 : Nat.ltb r (S n) = true) by (apply Nat.ltb_lt; lia).
      rewrite H2. lra.
    + apply Nat.ltb_ge in Hlt.
      assert (H2 : Nat.ltb r (S n) = false) by (apply Nat.ltb_ge; lia).
      rewrite H2. lra.
Qed.

(** The Cholesky factor of a diagonal matrix is the diagonal of the square
    roots. *)
Lemma cholesky_diag (n : nat) (M : Matrix R) :
  off_diagonal_zero n M ->
  forall i j, (i < n)%nat -> (j < n)%nat ->
    cholesky n M i j = if Nat.eqb i j then sqrt (M i i) else 0.
Proof.
  intros Hdiag. unfold cholesky.
  assert (Hinv : forall k, (k <= n)%nat -> forall i j, (i < n)%nat -> (j < k)%nat ->
            for_loop k (cholesky_column n M) (mfill zero) i j =
            if Nat.eqb i j then sqrt (M i i) else 0).
  { induction k as [|k IH]; intros Hk i j Hi Hj; [lia |].
    cbn [for_loop]. unfold cholesky_column at 1.
    set (L := for_loop k (cholesky_column n M) (mfill zero)) in *.
    assert (Hrow : forall q k', (q < n)%nat -> (k' < k)%nat -> (k <= q)%nat ->
              L q k' = 0).
    { intros q k' Hq Hk' Hle. rewrite IH by lia.
      assert (Hne : Nat.eqb q k' = false) by (apply Nat.eqb_neq; lia).
      now rewrite Hne. }
    destruct (Nat.eqb j k) eqn:Hjk.
    - apply Nat.eqb_eq in Hjk. subst j. dsimpl.
      assert (Hs : sum_upto k (fun k' => L k k' * L k k') = 0).
      { apply sum_upto_zero. intros k' Hk'. rewrite Hrow by lia. lra. }
      destruct (Nat.ltb i k) eqn:Hik.
      + apply Nat.ltb_lt in Hik.
        assert (Hne : Nat.eqb i k = false) by (apply Nat.eqb_neq; lia).
        now rewrite Hne.
      + apply Nat.ltb_ge in Hik.
        destruct (Nat.eqb i k) eqn:Heq.
        * apply Nat.eqb_eq in Heq. subst i. rewrite Hs.
          now rewrite Rminus_0_r.
        * apply Nat.eqb_neq in Heq.
          assert (Hs' : sum_upto k (fun k' => L i k' * L k k') = 0).
          { apply sum_upto_zero. intros k' Hk'. rewrite (Hrow k) by lia. lra. }
          rewrite Hs', (Hdiag i k) by lia. unfold Rdiv. lra.
    - apply Nat.eqb_neq in Hjk. apply IH; lia. }
  intros i j Hi Hj. apply Hinv; lia.
Qed.

Lemma cholesky_factor_diag (n : nat) (M : Matrix R) :
  off_diagonal_zero n M ->
  (forall i, (i < n)%nat -> 0 <= M i i) ->
  forall r c, (r < n)%nat -> (c < n)%nat ->
    mmul n (cholesky n M) (transpose (cholesky n M)) r c = M r c.
Proof.
  intros Hdiag Hpos r c Hr Hc. unfold mmul, transpose.
  rewrite (sum_upto_ext _ _
    (fun l => if Nat.eqb r l
              then (if Nat.eqb c l then sqrt (M r r) * sqrt (M c c) else 0)
              else 0)).
  2:{ intros l Hl. rewrite !cholesky_diag by assumption. dsimpl.
      destruct (Nat.eqb r l), (Nat.eqb c l); lra. }
  rewrite (sum_upto_single n r
             (fun l => if Nat.eqb c l then sqrt (M r r) * sqrt (M c c) else 0)).
  assert (Hlt : Nat.ltb r n = true) by (apply Nat.ltb_lt; exact Hr).
  rewrite Hlt.
  destruct (Nat.eqb c r) eqn:Hcr.
  - apply Nat.eqb_eq in Hcr. subst c. apply sqrt_sqrt. apply Hpos. exact Hr.
  - apply Nat.eqb_neq in Hcr. symmetry. apply Hdiag; auto.
Qed.

Lemma sum_upto_nonneg (n : nat) (f : nat -> R) :
  (forall i, (i < n)%nat -> 0 <= f i) -> 0 <= sum_upto n f.
Proof.
  induction n as [|n IH]; intros Hf; cbn [sum_upto]; dsimpl; [lra |].
  assert (0 <= sum_upto n f) by (apply IH; intros; apply Hf; lia).
  assert (0 <= f n) by (apply Hf; lia). lra.
Qed.

Lemma sum_upto_pos (n i : nat) (f : nat -> R) :
  (forall k, (k < n)%nat -> 0 <= f k) -> (i < n)%nat -> 0 < f i ->
  0 < sum_upto n f.
Proof.
  induction n as [|n IH]; intros Hf Hi Hfi; [lia |].
  cbn [sum_upto]. dsimpl.
  assert (Hn : 0 <= f n) by (apply Hf; lia).
  assert (Hs : 0 <= sum_upto n f) by (apply sum_upto_nonneg; intros; apply Hf; lia).
  destruct (Nat.eq_dec i n) as [-> | Hne]; [lra |].
  assert (0 < sum_upto n f) by (apply IH; [intros; apply Hf; lia | lia | exact Hfi]).
  lra.
Qed.

(** A diagonal matrix with positive diagonal is positive definite. *)
Lemma diagonal_positive_definite (n : nat) (M : Matrix R) :
  off_diagonal_zero n M ->
  (forall i, (i < n)%nat -> 0 < M i i) ->
  positive_definite n M.
Proof.
  intros Hdiag Hpos. split.
  - intros i j Hi Hj. destruct (Nat.eq_dec i j) as [-> | Hne]; [reflexivity |].
    rewrite (Hdiag i j), (Hdiag j i); auto.
  - intros v (i & Hi & Hvi). unfold quad_form.
    rewrite (sum_upto_ext _ _ (fun j => M j j * (v j * v j))).
    2:{ intros j Hj.
        rewrite (sum_upto_ext _ _ (fun l => if Nat.eqb j l then v l * M l j else 0)).
        2:{ intros l Hl. destruct (Nat.eqb j l) eqn:Hjl; [reflexivity |].
            apply Nat.eqb_neq in Hjl. dsimpl. rewrite (Hdiag l j) by auto. lra. }
        rewrite (sum_upto_single n j (fun l => v l * M l j)).
        assert (Hlt : Nat.ltb j n = true) by (apply Nat.ltb_lt; exact Hj).
        rewrite Hlt. dsimpl. ring. }
    apply (sum_upto_pos n i).
    + intros k Hk. pose proof (Hpos k Hk). nra.
    + exact Hi.
    + apply Rmult_lt_0_compat; [apply Hpos; exact Hi |].
      destruct (Rtotal_order (v i) 0) as [Hlt | [Heq | Hgt]]; [nra | contradiction | nra].
Qed.

End DiagonalR.

(** ** The extended reals: special values in the radar measurement model *)

Ltac isimpl :=
  cbn [d_of_Z dadd dsub dmul ddiv dopp dsqrt dsin dcos datan2 dfabs dlt dgt dne
       M_PI Double_ieee zero dec] in *.

Section SpecialValues.

(** [if (x != x) x = 0;] replaces [NaN], and only [NaN], by zero. *)
Lemma self_comparison_guard (x : ieee) :
  (if dne x x then zero else x) = nan_to_zero x.
Proof. destruct x; simpl; try rewrite Rneb_refl; reflexivity. Qed.

Lemma nan_to_zero_not_nan (x : ieee) : nan_to_zero x <> NaN.
Proof. destruct x; discriminate. Qed.

Lemma ieee_sqrt_fin (a : R) : 0 <= a -> IEEE.sqrt (Fin a) = Fin (sqrt a).
Proof. intros Ha. simpl. destruct (Rlt_dec a 0); [lra | reflexivity]. Qed.

Lemma ieee_div_fin (a b : R) : b <> 0 -> IEEE.div (Fin a) (Fin b) = Fin (a / b).
Proof. intros Hb. simpl. destruct (Req_dec_T b 0); [contradiction | reflexivity]. Qed.

Lemma ieee_div_zero_zero : IEEE.div (Fin 0) (Fin 0) = NaN.
Proof.
  simpl. destruct (Req_dec_T 0 0); [| congruence].
  unfold IEEE.signed_inf. destruct (Rlt_dec 0 0); [lra | reflexivity].
Qed.

Lemma ieee_mul_zero (x : ieee) :
  IEEE.mul (Fin 0) x = Fin 0 \/ IEEE.mul (Fin 0) x = NaN.
Proof.
  destruct x; simpl; unfold IEEE.signed_inf;
    try (destruct (Rlt_dec 0 0); [lra |]); auto.
  left. f_equal. ring.
Qed.

(** On finite values the two loops of the normalization run as over the
    reals. *)
Lemma while_gt_pi_fin (fuel : nat) : forall a : R,
  while_gt_pi fuel (Fin a) = lift (while_gt_pi fuel a).
Proof.
  induction fuel as [|fuel IH]; intros a; [reflexivity |].
  cbn [while_gt_pi]. isimpl. dsimpl. cbn [IEEE.ltb].
  destruct (Rltb PI a); [| reflexivity].
  cbn [IEEE.mul IEEE.sub IEEE.opp IEEE.add]. rewrite <- IH.
  f_equal.
Qed.

Lemma while_lt_mpi_fin (fuel : nat) : forall a : R,
  while_lt_mpi fuel (Fin a) = lift (while_lt_mpi fuel a).
Proof.
  induction fuel as [|fuel IH]; intros a; [reflexivity |].
  cbn [while_lt_mpi]. isimpl. dsimpl. cbn [IEEE.ltb IEEE.opp].
  destruct (Rltb a (- PI)); [| reflexivity].
  cbn [IEEE.mul IEEE.add]. rewrite <- IH. f_equal.
Qed.

Lemma normalize_angle_fin (a : R) :
  terminates_with (fun fuel => normalize_angle fuel (Fin a))
    (fun x => exists r, x = Fin r /\ - PI <= r <= PI).
Proof.
  destruct (normalize_angle_terminates a) as (r & n & Hrun & Hin & _).
  exists (Fin r), n. split.
  - intros fuel Hfuel. specialize (Hrun fuel Hfuel).
    unfold normalize_angle in *. rewrite while_gt_pi_fin.
    destruct (while_gt_pi fuel a) as [a1 | |]; simpl in *; try discriminate.
    rewrite while_lt_mpi_fin, Hrun. reflexivity.
  - exists r. split; [reflexivity | exact Hin].
Qed.

(** The radar measurement model as a formula: each component is computed and
    then passed through the self-comparison. *)
Lemma radar_transform_guarded (p_x p_y v yaw : ieee) :
  radar_transform p_x p_y v yaw =
    (nan_to_zero (dsqrt (p_x * p_x + p_y * p_y)%D),
     nan_to_zero (datan2 p_y p_x),
     nan_to_zero ((p_x * (dcos yaw * v) + p_y * (dsin yaw * v))
                  / dsqrt (p_x * p_x + p_y * p_y))%D).
Proof.
  unfold radar_transform. rewrite !self_comparison_guard. reflexivity.
Qed.

(** A finite sigma point has a finite image. *)
Lemma radar_transform_fin (p_x p_y v yaw : R) :
  exists rho phi rho_dot : R,
    radar_transform (Fin p_x) (Fin p_y) (Fin v) (Fin yaw)
    = (Fin rho, Fin phi, Fin rho_dot).
Proof.
  rewrite radar_transform_guarded. isimpl.
  cbn [IEEE.mul IEEE.add IEEE.cos IEEE.sin IEEE.atan2].
  rewrite ieee_sqrt_fin by nra.
  cbn [IEEE.div nan_to_zero].
  destruct (Req_dec_T (sqrt (p_x * p_x + p_y * p_y)) 0) as [Hz | Hnz].
  - apply sqrt_eq_0 in Hz; [| nra].
    assert (Hx : p_x = 0) by nra. assert (Hy : p_y = 0) by nra. subst.
    unfold IEEE.signed_inf.
    destruct (Rlt_dec 0 (0 * (cos yaw * v) + 0 * (sin yaw * v))); [lra |].
    destruct (Rlt_dec (0 * (cos yaw * v) + 0 * (sin yaw * v)) 0); [lra |].
    eexists. eexists. eexists. reflexivity.
  - eexists. eexists. eexists. reflexivity.
Qed.

Lemma transform_columns_entry (X Z : Matrix ieee) (n r i : nat) :
  (r < n_z_radar_)%nat ->
  for_loop n (transform_column X) Z r i =
    if Nat.ltb i n then
      component3 r (radar_transform (X 0%nat i) (X 1%nat i) (X 2%nat i)
                      (X 3%nat i))
    else Z r i.
Proof.
  intros Hr. induction n as [|n IH].
  - reflexivity.
  - cbn [for_loop]. unfold transform_column at 1.
    destruct (radar_transform (X 0%nat n) (X 1%nat n) (X 2%nat n) (X 3%nat n))
      as [[a b] c] eqn:Hp.
    unfold mset.
    destruct (Nat.eqb i n) eqn:Hin.
    + apply Nat.eqb_eq in Hin. subst i.
      assert (Hlt : Nat.ltb n (S n) = true) by (apply Nat.ltb_lt; lia).
      rewrite Hlt, Hp. unfold n_z_radar_ in Hr.
      destruct r as [|[|[|r]]]; try lia; reflexivity.
    + rewrite !andb_false_r. rewrite IH.
      apply Nat.eqb_neq in Hin.
      destruct (Nat.ltb i n) eqn:Hlt.
      * apply Nat.ltb_lt in Hlt.
        assert (Hlt' : Nat.ltb i (S n) = true) by (apply Nat.ltb_lt; lia).
        now rewrite Hlt'.
      * apply Nat.ltb_ge in Hlt.
        assert (Hlt' : Nat.ltb i (S n) = false) by (apply Nat.ltb_ge; lia).
        now rewrite Hlt'.
Qed.

Lemma radar_Zsig_entry (s : UKF ieee) (r i : nat) :
  (r < n_z_radar_)%nat -> (i < 2 * n_aug_ + 1)%nat ->
  radar_Zsig s r i =
    component3 r (radar_transform (Xsig_pred_ s 0%nat i) (Xsig_pred_ s 1%nat i)
                    (Xsig_pred_ s 2%nat i) (Xsig_pred_ s 3%nat i)).
Proof.
  intros Hr Hi. unfold radar_Zsig. rewrite transform_columns_entry by exact Hr.
  assert (Hlt : Nat.ltb i (2 * n_aug_ + 1) = true) by (apply Nat.ltb_lt; exact Hi).
  now rewrite Hlt.
Qed.

Lemma radar_z_pred_entry (w : Vector ieee) (Z : Matrix ieee) (r n : nat) :
  for_loop (S n) (fun i z => vadd z (vscale (w i) (col Z i))) (vfill zero) r =
  IEEE.add
    (for_loop n (fun i z => vadd z (vscale (w i) (col Z i))) (vfill zero) r)
    (IEEE.mul (w n) (Z r n)).
Proof. reflexivity. Qed.

Lemma weighted_sum_finite (w : Vector ieee) (Z : Matrix ieee) (r n : nat) :
  (forall i, (i < n)%nat -> finite (w i) /\ finite (Z r i)) ->
  finite (for_loop n (fun i z => vadd z (vscale (w i) (col Z i))) (vfill zero) r).
Proof.
  induction n as [|n IH]; intros Hfin.
  - exists 0. reflexivity.
  - rewrite radar_z_pred_entry.
    destruct IH as [a Ha]; [intros; apply Hfin; lia |].
    destruct (Hfin n) as [[b Hb] [c Hc]]; [lia |].
    rewrite Ha, Hb, Hc. eexists. reflexivity.
Qed.

Lemma meas_residual_finite (z z_pred : Vector ieee) :
  (forall r, (r < n_z_radar_)%nat -> finite (z r) /\ finite (z_pred r)) ->
  terminates_with (fun fuel => meas_residual fuel z z_pred)
    (fun d => forall r, (r < n_z_radar_)%nat -> finite (d r)).
Proof.
  intros Hfin. unfold meas_residual.
  assert (Hd : forall r, (r < n_z_radar_)%nat -> finite (vsub z z_pred r)).
  { intros r Hr. destruct (Hfin r Hr) as [[a Ha] [b Hb]].
    unfold vsub. rewrite Ha, Hb. eexists. reflexivity. }
  destruct (Hd 1%nat) as [a Ha]; [unfold n_z_radar_; lia |].
  rewrite Ha.
  apply (@terminates_bind _ _ (fun fuel => normalize_angle fuel (Fin a))
           (fun _ a' => Returns (vset 1 a' (vsub z z_pred))) _ _
           (normalize_angle_fin a)).
  intros x (r' & -> & _). apply terminates_ret.
  intros r Hr. unfold vset. destruct (Nat.eqb r 1); [eexists; reflexivity |].
  apply Hd. exact Hr.
Qed.

(** The normalization returns when the bearing residual is finite, and
    leaves the other components of the residual as they are. *)
Lemma meas_residual_keeps (z z_pred : Vector ieee) :
  finite (vsub z z_pred 1%nat) ->
  terminates_with (fun fuel => meas_residual fuel z z_pred)
    (fun d => forall r, r <> 1%nat -> d r = vsub z z_pred r).
Proof.
  intros [a Ha]. unfold meas_residual. rewrite Ha.
  apply (@terminates_bind _ _ (fun fuel => normalize_angle fuel (Fin a))
           (fun _ a' => Returns (vset 1 a' (vsub z z_pred))) _ _
           (normalize_angle_fin a)).
  intros x _. apply terminates_ret.
  intros r Hr. unfold vset. apply Nat.eqb_neq in Hr. now rewrite Hr.
Qed.

Lemma radar_S_sum_finite (w : Vector ieee) (Z : Matrix ieee) (z_pred : Vector ieee) :
  (forall i, (i < 2 * n_aug_ + 1)%nat -> finite (w i)) ->
  (forall r i, (r < n_z_radar_)%nat -> (i < 2 * n_aug_ + 1)%nat -> finite (Z r i)) ->
  (forall r, (r < n_z_radar_)%nat -> finite (z_pred r)) ->
  terminates_with (fun fuel => radar_S_sum fuel w Z z_pred)
    (fun S0 => forall r c, (r < n_z_radar_)%nat -> (c < n_z_radar_)%nat ->
                           finite (S0 r c)).
Proof.
  intros Hw HZ Hz. unfold radar_S_sum.
  apply (terminates_for_loop_m
    (fun fuel i S =>
       z_diff <- meas_residual fuel (col Z i) z_pred ;;
       Returns (madd S (scaled_outer (w i) z_diff z_diff)))
    (fun _ S0 => forall r c, (r < n_z_radar_)%nat -> (c < n_z_radar_)%nat ->
                             finite (S0 r c))).
  - intros r c _ _. exists 0. reflexivity.
  - intros i S Hi HS.
    apply (@terminates_bind _ _ (fun fuel => meas_residual fuel (col Z i) z_pred)
             (fun _ z_diff => Returns (madd S (scaled_outer (w i) z_diff z_diff)))
             _ _ (meas_residual_finite (col Z i) z_pred
                    (fun r Hr => conj (HZ r i Hr Hi) (Hz r Hr)))).
    intros d Hd. apply terminates_ret. intros r c Hr Hc.
    destruct (HS r c Hr Hc) as [a Ha]. destruct (Hw i Hi) as [b Hb].
    destruct (Hd r Hr) as [x Hx]. destruct (Hd c Hc) as [y Hy].
    unfold madd, scaled_outer. rewrite Ha, Hb, Hx, Hy. eexists. reflexivity.
Qed.

(** The weights the constructor computes, over the extended reals. *)
Lemma UKF_new_weights_ieee (mem : UKF ieee) :
  weights_ (UKF_new mem) 0%nat = Fin (- 4 / 3) /\
  forall i, (1 <= i <= 14)%nat -> weights_ (UKF_new mem) i = Fin (1 / 6).
Proof.
  split.
  - unfold UKF_new. cbn [weights_]. unfold vset. cbn [Nat.eqb].
    unfold lambda_, n_aug_, n_x_. simpl Z.of_nat. simpl Z.sub. isimpl.
    cbn [IEEE.add]. rewrite ieee_div_fin by lra. f_equal. lra.
  - intros i Hi. unfold UKF_new. cbn [weights_]. unfold vset, segment_fill.
    assert (H0 : Nat.eqb i 0 = false) by (apply Nat.eqb_neq; lia).
    assert (H1 : Nat.leb 1 i = true) by (apply Nat.leb_le; lia).
    assert (H2 : Nat.ltb i (1 + 2 * n_aug_) = true)
      by (apply Nat.ltb_lt; unfold n_aug_, n_x_; lia).
    rewrite H0, H1, H2. cbn [andb].
    unfold lambda_, n_aug_, n_x_. simpl Z.of_nat. simpl Z.sub. isimpl.
    cbn [IEEE.add]. rewrite (ieee_div_fin 5 10) by lra.
    rewrite ieee_div_fin by lra. f_equal. lra.
Qed.

Lemma ieee_add_nan_r (x : ieee) : IEEE.add x NaN = NaN.
Proof. destruct x; reflexivity. Qed.

Lemma ieee_mul_nan_r (x : ieee) : IEEE.mul x NaN = NaN.
Proof. destruct x; reflexivity. Qed.

End SpecialValues.

(** ** Binary64: where the doubles part from the reals *)

Section Stuck.
Context {D : Type} `{Double D} `{Eigen D}.
Local Open Scope dbl_scope.





(** What [Prediction] has stored when it returns, for every scalar type. *)
Lemma Prediction_returns (fuel : nat) (delta_t : D) (s s' : UKF D) :
  Prediction fuel delta_t s = Returns s' ->
  P_aug s' = augmented_covariance s /\
  Xsig_ s' = augmented_sigma_points s /\
  Xsig_pred_ s' = predicted_sigma_points delta_t s /\
  x_ s' = predicted_mean (weights_ s) (predicted_sigma_points delta_t s) /\
  previous_timestamp_ s' = previous_timestamp_ s.
Proof.
  unfold Prediction.
  destruct (predicted_covariance fuel (weights_ s)
              (predicted_sigma_points delta_t s)
              (predicted_mean (weights_ s) (predicted_sigma_points delta_t s)))
    as [P' | |]; cbn [bind]; try discriminate.
  intros Heq. injection Heq as <-. cbn. repeat split; reflexivity.
Qed.

(** The sigma-point loop of [Prediction], column by column, for every scalar
    type. *)
Lemma predicted_sigma_points_column (delta_t : D) (s : UKF D) (i : nat) :
  (i < 2 * n_aug_ + 1)%nat ->
  let Xsig := augmented_sigma_points s in
  let Xsig_pred := predicted_sigma_points delta_t s in
  (Xsig_pred 0%nat i, Xsig_pred 1%nat i, Xsig_pred 2%nat i,
   Xsig_pred 3%nat i, Xsig_pred 4%nat i)
  = propagate delta_t (Xsig 0%nat i) (Xsig 1%nat i) (Xsig 2%nat i)
              (Xsig 3%nat i) (Xsig 4%nat i) (Xsig 5%nat i) (Xsig 6%nat i).
Proof.
  intros Hi. cbv zeta. unfold predicted_sigma_points.
  generalize (augmented_sigma_points s) as X. intros X.
  generalize (Xsig_pred_ s) as M. intros M.
  assert (Hgen : forall n r, (r < n_x_)%nat ->
            for_loop n (predict_column delta_t X) M r i =
            if Nat.ltb i n then
              (let '(a, b, c, d, e) :=
                 propagate delta_t (X 0%nat i) (X 1%nat i) (X 2%nat i)
                           (X 3%nat i) (X 4%nat i) (X 5%nat i) (X 6%nat i) in
               match r with 0 => a | 1 => b | 2 => c | 3 => d | _ => e end%nat)
            else M r i).
  { intros n r Hr. induction n as [| n IH]; [reflexivity |].
    cbn [for_loop]. unfold predict_column at 1.
    destruct (propagate delta_t (X 0%nat n) (X 1%nat n) (X 2%nat n)
                (X 3%nat n) (X 4%nat n) (X 5%nat n) (X 6%nat n))
      as [[[[a b] c] d] e] eqn:Hp.
    unfold mset.
    destruct (Nat.eqb i n) eqn:Hin.
    - apply Nat.eqb_eq in Hin. subst i.
      assert (Hlt : Nat.ltb n (S n) = true) by (apply Nat.ltb_lt; lia).
      rewrite Hlt, Hp. unfold n_x_ in Hr.
      destruct r as [|[|[|[|[|r]]]]]; try lia; reflexivity.
    - rewrite !andb_false_r. rewrite IH.
      apply Nat.eqb_neq in Hin.
      destruct (Nat.ltb i n) eqn:Hlt.
      + apply Nat.ltb_lt in Hlt.
        assert (Hlt' : Nat.ltb i (S n) = true) by (apply Nat.ltb_lt; lia).
        now rewrite Hlt'.
      + apply Nat.ltb_ge in Hlt.
        assert (Hlt' : Nat.ltb i (S n) = false) by (apply Nat.ltb_ge; lia).
        now rewrite Hlt'. }
  assert (Hlt : Nat.ltb i (2 * n_aug_ + 1) = true) by (apply Nat.ltb_lt; exact Hi).
  rewrite !Hgen by (unfold n_x_; lia). rewrite Hlt.
  destruct (propagate delta_t (X 0%nat i) (X 1%nat i) (X 2%nat i)
              (X 3%nat i) (X 4%nat i) (X 5%nat i) (X 6%nat i))
    as [[[[a b] c] d] e]. reflexivity.
Qed.

(** The measurement-model loop of [UpdateRadar], column by column, for every
    scalar type. *)
Lemma radar_Zsig_column (s : UKF D) (i : nat) :
  (i < 2 * n_aug_ + 1)%nat ->
  (radar_Zsig s 0%nat i, radar_Zsig s 1%nat i, radar_Zsig s 2%nat i)
  = radar_transform (Xsig_pred_ s 0%nat i) (Xsig_pred_ s 1%nat i)
                    (Xsig_pred_ s 2%nat i) (Xsig_pred_ s 3%nat i).
Proof.
  intros Hi. unfold radar_Zsig.
  generalize (Xsig_pred_ s) as X. intros X.
  generalize (Zsig_ s) as Z. intros Z.
  assert (Hgen : forall n r, (r < n_z_radar_)%nat ->
            for_loop n (transform_column X) Z r i =
            if Nat.ltb i n then
              (let '(a, b, c) :=
                 radar_transform (X 0%nat i) (X 1%nat i) (X 2%nat i) (X 3%nat i) in
               match r with 0 => a | 1 => b | _ => c end%nat)
            else Z r i).
  { intros n r Hr. induction n as [| n IH]; [reflexivity |].
    cbn [for_loop]. unfold transform_column at 1.
    destruct (radar_transform (X 0%nat n) (X 1%nat n) (X 2%nat n) (X 3%nat n))
      as [[a b] c] eqn:Hp.
    unfold mset.
    destruct (Nat.eqb i n) eqn:Hin.
    - apply Nat.eqb_eq in Hin. subst i.
      assert (Hlt : Nat.ltb n (S n) = true) by (apply Nat.ltb_lt; lia).
      rewrite Hlt, Hp. unfold n_z_radar_ in Hr.
      destruct r as [|[|[|r]]]; try lia; reflexivity.
    - rewrite !andb_false_r. rewrite IH.
      apply Nat.eqb_neq in Hin.
      destruct (Nat.ltb i n) eqn:Hlt.
      + apply Nat.ltb_lt in Hlt.
        assert (Hlt' : Nat.ltb i (S n) = true) by (apply Nat.ltb_lt; lia).
        now rewrite Hlt'.
      + apply Nat.ltb_ge in Hlt.
        assert (Hlt' : Nat.ltb i (S n) = false) by (apply Nat.ltb_ge; lia).
        now rewrite Hlt'. }
  assert (Hlt : Nat.ltb i (2 * n_aug_ + 1) = true) by (apply Nat.ltb_lt; exact Hi).
  rewrite !Hgen by (unfold n_z_radar_; lia). rewrite Hlt.
  destruct (radar_transform (X 0%nat i) (X 1%nat i) (X 2%nat i) (X 3%nat i))
    as [[a b] c]. reflexivity.
Qed.

(** The predicted measurement depends on the 15 columns only. *)
Lemma radar_z_pred_ext (w : Vector D) (Z Z' : Matrix D) (r : nat) :
  (forall i, (i < 2 * n_aug_ + 1)%nat -> Z r i = Z' r i) ->
  radar_z_pred w Z r = radar_z_pred w Z' r.
Proof.
  unfold radar_z_pred. generalize (2 * n_aug_ + 1)%nat as n.
  induction n as [| n IH]; intros HZ; [reflexivity |].
  transitivity
    (for_loop n (fun i z_pred => vadd z_pred (vscale (w i) (col Z i)))
       (vfill zero) r + w n * Z r n); [reflexivity |].
  rewrite IH by (intros i Hi; apply HZ; lia). rewrite HZ by lia. reflexivity.
Qed.

End Stuck.

Section Binary64Facts.
Context {L : Libm}.

(** At binary64 the stored previous time stamp 1477010443000000 followed by a
    measurement stamped 0 gives the time step -1477010443 s; the heading
    residual of sigma point 7 is then 2.2671434986526781e+18, which
    subtracting [2. * M_PI] does not change, and the call never returns. *)
Lemma backward_jump_residual :
  let s := set_previous_timestamp_ 0 backward_jump_filter in
  let delta_t := elapsed backward_jump_measurement backward_jump_filter in
  let Xsig_pred := predicted_sigma_points (H0 := Eigen_reference) delta_t s in
  delta_t = dopp (d_of_Z 1477010443) /\
  dsub (Xsig_pred 3%nat 7%nat) (predicted_mean (weights_ s) Xsig_pred 3%nat)
  = Binary64.absorbed_residual /\
  dgt Binary64.absorbed_residual M_PI = true /\
  dsub Binary64.absorbed_residual (dmul (d_of_Z 2) M_PI)
  = Binary64.absorbed_residual.
Proof. vm_compute. repeat split; reflexivity. Qed.


End Binary64Facts.

Section Binary64Weights.
Context {L : Libm}.

(** The weights the constructor stores at binary64. *)
Lemma binary64_weights (mem : UKF PrimFloat.float) :
  let w := weights_ (UKF_new mem) in
  FloatOps.Prim2SF (w 0%nat)
  = SpecFloat.S754_finite true 6004799503160661 (- 52) /\
  (forall i, (1 <= i <= 14)%nat ->
     FloatOps.Prim2SF (w i)
     = SpecFloat.S754_finite false 6004799503160661 (- 55)) /\
  FloatOps.Prim2SF (sum_upto 15 w)
  = SpecFloat.S754_finite false 9007199254740990 (- 53) /\
  PrimFloat.eqb (sum_upto 15 w) (d_of_Z 1) = false.
Proof.
  cbv zeta. split; [vm_compute; reflexivity |]. split.
  - intros i Hi.
    do 15 (destruct i as [| i]; [try lia; vm_compute; reflexivity |]). lia.
  - split; vm_compute; reflexivity.
Qed.

End Binary64Weights.


Section Binary64Radar.
Context {L : Libm}.
Hypothesis cos_zero : libm_cos PrimFloat.zero = PrimFloat.one.
Hypothesis sin_zero : libm_sin PrimFloat.zero = PrimFloat.zero.

(** A finite position so close to the origin that its squares underflow has
    range 0 and an infinite range rate, which the self-comparison does not
    catch. *)
Lemma radar_transform_underflow :
  fst (fst (radar_transform Binary64.tiny PrimFloat.zero PrimFloat.one
                            PrimFloat.zero)) = PrimFloat.zero /\
  snd (radar_transform Binary64.tiny PrimFloat.zero PrimFloat.one PrimFloat.zero)
  = PrimFloat.infinity.
Proof.
  unfold radar_transform.
  cbn [dcos dsin dmul dadd ddiv dsqrt dne Double_binary64 fst snd].
  rewrite cos_zero, sin_zero. split; vm_compute; reflexivity.
Qed.

Lemma underflow_columns (i : nat) :
  (i < 2 * n_aug_ + 1)%nat ->
  radar_Zsig underflow_filter 0%nat i = PrimFloat.zero /\
  radar_Zsig underflow_filter 2%nat i = PrimFloat.infinity.
Proof.
  intros Hi. pose proof (radar_Zsig_column underflow_filter i Hi) as Hc.
  change (Xsig_pred_ underflow_filter 0%nat i) with Binary64.tiny in Hc.
  change (Xsig_pred_ underflow_filter 1%nat i) with PrimFloat.zero in Hc.
  change (Xsig_pred_ underflow_filter 2%nat i) with PrimFloat.one in Hc.
  change (Xsig_pred_ underflow_filter 3%nat i) with PrimFloat.zero in Hc.
  destruct radar_transform_underflow as [H0 H2]. rewrite <- Hc in H0, H2.
  cbn [fst snd] in H0, H2. split; assumption.
Qed.

Lemma underflow_predicted_range_rate :
  radar_z_pred (weights_ underflow_filter) (radar_Zsig underflow_filter) 2%nat
  = PrimFloat.nan.
Proof.
  rewrite (radar_z_pred_ext _ _ (fun _ _ => PrimFloat.infinity)).
  - vm_compute. reflexivity.
  - intros i Hi. apply (underflow_columns i Hi).
Qed.

(** With a negative zero as x position the bearing is atan2(+0, -0). *)
Lemma negative_zero_columns (i : nat) :
  (i < 2 * n_aug_ + 1)%nat ->
  (radar_Zsig negative_zero_filter 0%nat i,
   radar_Zsig negative_zero_filter 1%nat i,
   radar_Zsig negative_zero_filter 2%nat i)
  = (PrimFloat.zero,
     (if dne (libm_atan2 PrimFloat.zero PrimFloat.neg_zero)
             (libm_atan2 PrimFloat.zero PrimFloat.neg_zero)
      then PrimFloat.zero else libm_atan2 PrimFloat.zero PrimFloat.neg_zero),
     PrimFloat.zero).
Proof.
  intros Hi. rewrite (radar_Zsig_column negative_zero_filter i Hi).
  change (Xsig_pred_ negative_zero_filter 0%nat i) with PrimFloat.neg_zero.
  change (Xsig_pred_ negative_zero_filter 1%nat i) with PrimFloat.zero.
  change (Xsig_pred_ negative_zero_filter 2%nat i) with PrimFloat.one.
  change (Xsig_pred_ negative_zero_filter 3%nat i) with PrimFloat.zero.
  unfold radar_transform.
  cbn [dcos dsin dmul dadd ddiv dsqrt dne datan2 Double_binary64 fst snd].
  rewrite cos_zero, sin_zero.
  vm_compute. reflexivity.
Qed.

End Binary64Radar.

(** At binary64 a finite sigma point whose squares underflow gives an
    infinite range rate and a NaN predicted range rate; and a sigma point at
    (-0, +0) has the bearing atan2(+0, -0), which is pi in the C library. *)
Lemma binary64_radar_special_cases :
  (forall L : Libm,
     libm_cos PrimFloat.zero = PrimFloat.one ->
     libm_sin PrimFloat.zero = PrimFloat.zero ->
     PrimFloat.ltb PrimFloat.zero Binary64.tiny = true /\
     PrimFloat.ltb Binary64.tiny PrimFloat.one = true /\
     (forall i, (i < 2 * n_aug_ + 1)%nat ->
        radar_Zsig underflow_filter 0%nat i = PrimFloat.zero /\
        radar_Zsig underflow_filter 2%nat i = PrimFloat.infinity) /\
     radar_z_pred (weights_ underflow_filter) (radar_Zsig underflow_filter)
                  2%nat = PrimFloat.nan) /\
  (forall L : Libm,
     libm_cos PrimFloat.zero = PrimFloat.one ->
     libm_sin PrimFloat.zero = PrimFloat.zero ->
     libm_atan2 PrimFloat.zero PrimFloat.neg_zero = M_PI ->
     PrimFloat.eqb PrimFloat.neg_zero PrimFloat.zero = true /\
     forall i, (i < 2 * n_aug_ + 1)%nat ->
       (radar_Zsig negative_zero_filter 0%nat i,
        radar_Zsig negative_zero_filter 1%nat i,
        radar_Zsig negative_zero_filter 2%nat i)
       = (PrimFloat.zero, M_PI, PrimFloat.zero)).
Proof.
  split.
  - intros L Hcos Hsin.
    split; [vm_compute; reflexivity |]. split; [vm_compute; reflexivity |].
    split; [intros i Hi; apply (underflow_columns Hcos Hsin i Hi) |].
    apply (underflow_predicted_range_rate Hcos Hsin).
  - intros L Hcos Hsin Hatan. split; [vm_compute; reflexivity |].
    intros i Hi. rewrite (negative_zero_columns Hcos Hsin i Hi), Hatan.
    vm_compute. reflexivity.
Qed.

Section ReturnsAny.
Context {D : Type} `{Double D} `{Eigen D}.



End ReturnsAny.


Section Binary64Normalization.
Context {L : Libm}.




End Binary64Normalization.

(* ========================================================================= *)
(** * Part III: the properties of the specification, C1 to C10 *)

(** ** C1: the lidar measurement noise *)

(** C1 (what the code computes). In a constructed filter, whatever its state
    and covariance, the innovation covariance of the lidar update is
    H P H^T + diag (std_laspx_, std_laspy_): the noise matrix [R_laser_] holds
    the standard deviations 0.0225 themselves, which differ from the
    variances std_laspx_^2 = std_laspy_^2 = 0.00050625. *)
Theorem C1_lidar_noise_is_standard_deviation (mem : UKF R) (x : Vector R)
  (P : Matrix R) :
  let s := set_x_P x P (UKF_new mem) in
  (forall i j, (i < 2)%nat -> (j < 2)%nat ->
     lidar_S s i j = P i j + diag2 (std_laspx_ s) (std_laspy_ s) i j) /\
  std_laspx_ s = 225 / 10000 /\ std_laspy_ s = 225 / 10000 /\
  lidar_S s 0%nat 0%nat = P 0%nat 0%nat + 225 / 10000 /\
  lidar_S s 1%nat 1%nat = P 1%nat 1%nat + 225 / 10000 /\
  lidar_S s 0%nat 0%nat <> P 0%nat 0%nat + std_laspx_ s * std_laspx_ s /\
  lidar_S s 1%nat 1%nat <> P 1%nat 1%nat + std_laspy_ s * std_laspy_ s.
Proof.
  cbv zeta.
  assert (HS : forall i j, (i < 2)%nat -> (j < 2)%nat ->
     lidar_S (set_x_P x P (UKF_new mem)) i j =
     P i j + diag2 (225 / 10000) (225 / 10000) i j).
  { intros i j Hi Hj.
    assert (Hi' : i = 0%nat \/ i = 1%nat) by lia.
    assert (Hj' : j = 0%nat \/ j = 1%nat) by lia.
    unfold lidar_S, madd, mmul, transpose. simpl. dsimpl.
    destruct Hi' as [-> | ->], Hj' as [-> | ->]; simpl; dsimpl; lra. }
  split; [exact HS |].
  split; [reflexivity |]. split; [reflexivity |].
  rewrite !HS by lia. simpl. dsimpl.
  repeat split; try lra.
Qed.

(** ** C2: no positive-definiteness check in [Prediction] *)

(** C2 (as the code has it). [Prediction] has no failure path: for every state
    and time step, whatever the augmented covariance is, it signals no error,
    and in exact arithmetic it returns, having built the sigma points from
    the matrix that the factorization routine handed back.  For every scalar
    type, special values and binary64 included, it signals no error, and
    whenever it returns it has built the sigma points from that matrix. *)
Theorem C2_prediction_never_fails {E : Eigen R} (delta_t : R) (s : UKF R) :
  (forall fuel, Prediction fuel delta_t s <> Throws) /\
  terminates_with (fun fuel => Prediction fuel delta_t s)
    (fun s' =>
       P_aug s' = augmented_covariance s /\
       Xsig_ s' =
         sigma_points (vec_append2 n_x_ (x_ s) 0 0)
                      (llt_matrixL n_aug_ (augmented_covariance s))) /\
  (forall (D : Type) (HD : Double D) (HE : Eigen D) (fuel : nat) (dt : D)
          (s0 : UKF D),
     Prediction fuel dt s0 <> Throws) /\
  (forall (D : Type) (HD : Double D) (HE : Eigen D) (fuel : nat) (dt : D)
          (s0 s' : UKF D),
     Prediction fuel dt s0 = Returns s' ->
     P_aug s' = augmented_covariance s0 /\
     Xsig_ s' =
       sigma_points (vec_append2 n_x_ (x_ s0) zero zero)
                    (llt_matrixL n_aug_ (augmented_covariance s0))).
Proof.
  split; [intros fuel; apply Prediction_no_throw |].
  split; [| split; [intros D HD HE fuel dt s0; apply Prediction_no_throw |]].
  - apply (terminates_weaken _ _ _ (Prediction_terminates delta_t s)).
    intros s' (HX & _ & _ & _ & HP & _). split; [exact HP | exact HX].
  - intros D HD HE fuel dt s0 s' Hret.
    destruct (Prediction_returns _ _ _ _ Hret) as (HP & HX & _).
    split; [exact HP | exact HX].
Qed.

(** C2 (as stated) fails: the augmented covariance of a filter whose state
    covariance is the zero matrix is not positive definite, and [Prediction]
    signals no error on it and, in exact arithmetic, returns a state. *)
Lemma C2_counterexample :
  ~ positive_definite n_aug_ (augmented_covariance zero_covariance_filter) /\
  (forall fuel,
     Prediction (H0 := Eigen_reference) fuel (1 / 10) zero_covariance_filter
     <> Throws) /\
  exists fuel s',
    Prediction (H0 := Eigen_reference) fuel (1 / 10) zero_covariance_filter
    = Returns s'.
Proof.
  split; [| split].
  - intros [_ Hpos].
    specialize (Hpos (fun i => if Nat.eqb i 0 then 1 else 0)).
    assert (Hlt : 0 < quad_form n_aug_ (fun i => if Nat.eqb i 0 then 1 else 0)
                       (augmented_covariance zero_covariance_filter)
                       (fun i => if Nat.eqb i 0 then 1 else 0)).
    { apply Hpos. exists 0%nat. split; [unfold n_aug_, n_x_; lia | simpl; lra]. }
    revert Hlt. unfold quad_form, augmented_covariance. simpl. dsimpl.
    unfold block_assign, mfill, diag2. simpl. dsimpl. lra.
  - intros fuel. apply Prediction_no_throw.
  - destruct (@Prediction_terminates Eigen_reference (1 / 10) zero_covariance_filter)
      as (s' & n & Hrun & _).
    exists n, s'. apply Hrun. lia.
Qed.

(** ** C3: the guard on the initial position *)

(** C3 (as the code has it). On the first measurement of a constructed filter:
    for a radar measurement, each component of the position
    (rho cos phi, rho sin phi) whose magnitude is below 1e-4 is replaced by 1
    and the matching diagonal entry of [P_] is set to 1000, and a component
    that is not below 1e-4 is kept, with the matching diagonal entry left at
    its constructed value 1; for a lidar measurement the raw position is used
    as it is and [P_] is not changed.  Speed, heading and heading rate start
    at 0. *)
Theorem C3_initial_position_guard {E : Eigen R} (mem : UKF R) (t : Z) (raw : Vector R) :
  (let m := {| timestamp_ := t; sensor_type_ := RADAR;
               raw_measurements_ := raw |} in
   let px := raw 0%nat * cos (raw 1%nat) in
   let py := raw 0%nat * sin (raw 1%nat) in
   forall fuel, exists s',
     ProcessMeasurement fuel m (UKF_new mem) = Returns s' /\
     (Rabs px < 1 / 10000 -> x_ s' 0%nat = 1 /\ P_ s' 0%nat 0%nat = 1000) /\
     (1 / 10000 <= Rabs px -> x_ s' 0%nat = px /\ P_ s' 0%nat 0%nat = 1) /\
     (Rabs py < 1 / 10000 -> x_ s' 1%nat = 1 /\ P_ s' 1%nat 1%nat = 1000) /\
     (1 / 10000 <= Rabs py -> x_ s' 1%nat = py /\ P_ s' 1%nat 1%nat = 1) /\
     x_ s' 2%nat = 0 /\ x_ s' 3%nat = 0 /\ x_ s' 4%nat = 0) /\
  (let m := {| timestamp_ := t; sensor_type_ := LASER;
               raw_measurements_ := raw |} in
   forall fuel, exists s',
     ProcessMeasurement fuel m (UKF_new mem) = Returns s' /\
     x_ s' 0%nat = raw 0%nat /\ x_ s' 1%nat = raw 1%nat /\
     x_ s' 2%nat = 0 /\ x_ s' 3%nat = 0 /\ x_ s' 4%nat = 0 /\
     P_ s' = P_ (UKF_new mem) /\
     P_ s' 0%nat 0%nat = 1 /\ P_ s' 1%nat 1%nat = 1).
Proof.
  split; cbv zeta; intros fuel; eexists; (split; [reflexivity |]).
  - unfold initialize, initial_position. cbn [sensor_type_ raw_measurements_].
    dsimpl.
    destruct (Rltb (Rabs (raw 0%nat * cos (raw 1%nat))) (1 / 10000)) eqn:Hx;
      destruct (Rltb (Rabs (raw 0%nat * sin (raw 1%nat))) (1 / 10000)) eqn:Hy;
      cbn [x_ P_ UKF_new]; unfold vec5, mset, diag5; simpl; dsimpl;
      try apply Rltb_true in Hx; try apply Rltb_false in Hx;
      try apply Rltb_true in Hy; try apply Rltb_false in Hy;
      repeat split; intros; try reflexivity; lra.
  - unfold initialize, initial_position. cbn [sensor_type_ raw_measurements_].
    cbn [x_ P_ UKF_new]. unfold vec5, diag5. simpl. dsimpl.
    repeat split; reflexivity.
Qed.

(** C3 (as stated) fails for a lidar first measurement: the position (0, 0)
    has both components below 1e-4 in magnitude, yet the state starts at
    x = 0, y = 0 (not 1) and the diagonal entries of [P_] stay at 1 (not
    1000). *)
Lemma C3_counterexample :
  exists s',
    ProcessMeasurement (H0 := Eigen_reference) 0 (lidar_at 0 0 0) fresh
    = Returns s' /\
    Rabs 0 < 1 / 10000 /\
    x_ s' 0%nat = 0 /\ x_ s' 0%nat <> 1 /\
    x_ s' 1%nat = 0 /\ x_ s' 1%nat <> 1 /\
    P_ s' 0%nat 0%nat = 1 /\ P_ s' 0%nat 0%nat <> 1000 /\
    P_ s' 1%nat 1%nat = 1 /\ P_ s' 1%nat 1%nat <> 1000.
Proof.
  eexists. split; [reflexivity |].
  split; [rewrite Rabs_R0; lra |].
  unfold initialize, initial_position, fresh.
  cbn [sensor_type_ raw_measurements_ lidar_at x_ P_ UKF_new].
  unfold vec5, diag5. simpl. dsimpl.
  repeat split; try reflexivity; lra.
Qed.

(** ** C4: prediction with a zero time step *)

(** C4 (as the code has it). For a filter with the constructed weights, on
    which the factorization returned a factor A of the augmented covariance
    (A A^T = P_aug): [Prediction] with a zero time step returns and leaves the
    state mean unchanged; it leaves the covariance unchanged when, in
    addition, the heading of every sigma point lies within pi of the mean
    heading, so that no heading residual is wrapped by the normalization. *)
Theorem C4_prediction_zero_dt {E : Eigen R} (s : UKF R) :
  weights_ s = weights_ fresh ->
  (forall r c, (r < n_aug_)%nat -> (c < n_aug_)%nat ->
     mmul n_aug_ (llt_matrixL n_aug_ (augmented_covariance s))
          (transpose (llt_matrixL n_aug_ (augmented_covariance s))) r c
     = augmented_covariance s r c) ->
  terminates_with (fun fuel => Prediction fuel 0 s)
    (fun s' =>
       (forall r, (r < n_x_)%nat -> x_ s' r = x_ s r) /\
       ((forall i, (i < 2 * n_aug_ + 1)%nat ->
           - PI <= augmented_sigma_points s 3%nat i - x_ s 3%nat <= PI) ->
        forall r c, (r < n_x_)%nat -> (c < n_x_)%nat ->
          P_ s' r c = P_ s r c)).
Proof.
  intros Hweights Hfactor.
  destruct (UKF_new_weights blank) as [Hw0 Hw].
  fold (@fresh R _) in Hw0, Hw. rewrite <- Hweights in Hw0, Hw.
  apply (terminates_weaken _ _ _ (Prediction_terminates 0 s)).
  intros s' (_ & HXp & Hx & (d & Hd & HP) & _).
  assert (Hmean : forall r, (r < n_x_)%nat -> x_ s' r = x_ s r).
  { intros r Hr. rewrite Hx. apply predicted_mean_zero; assumption. }
  split; [exact Hmean |].
  intros Hnowrap r c Hr Hc.
  rewrite HP.
  rewrite (residual_products_zero s d r c Hw0 Hw); try assumption.
  - rewrite Hfactor by (unfold n_aug_, n_x_ in *; lia).
    apply augmented_covariance_state_block; assumption.
  - intros i q Hi Hq.
    destruct (Hd i Hi) as (_ & Hother & Hkeep & _).
    assert (Hres : forall q', (q' < n_x_)%nat ->
              vsub (col (Xsig_pred_ s') i) (x_ s') q'
              = augmented_sigma_points s q' i - x_ s q').
    { intros q' Hq'. unfold vsub, col. dsimpl.
      rewrite HXp, (Hmean q' Hq'), predicted_sigma_points_zero by assumption.
      reflexivity. }
    destruct (Nat.eq_dec q 3) as [-> | Hq3].
    + rewrite Hkeep; rewrite Hres by (unfold n_x_; lia);
        [reflexivity | apply Hnowrap; exact Hi].
    + rewrite (Hother q Hq3). apply Hres. exact Hq.
Qed.

(** *** C4 at concrete inputs *)

Ltac nat_cases i := repeat (destruct i as [|i]; [| try lia]); try lia.

Lemma unit_covariance_diagonal :
  off_diagonal_zero n_aug_ (augmented_covariance unit_covariance_filter) /\
  forall i, (i < n_aug_)%nat ->
    0 < augmented_covariance unit_covariance_filter i i.
Proof.
  unfold off_diagonal_zero, n_aug_, n_x_. split.
  - intros i j Hi Hj Hne. simpl in Hi, Hj.
    nat_cases i; nat_cases j; try (now elim Hne); reflexivity.
  - intros i Hi. simpl in Hi.
    nat_cases i; unfold augmented_covariance, block_assign; simpl; dsimpl; lra.
Qed.

Lemma tracking_covariance_diagonal :
  off_diagonal_zero n_aug_ (augmented_covariance tracking_filter) /\
  forall i, (i < n_aug_)%nat ->
    0 < augmented_covariance tracking_filter i i.
Proof.
  unfold off_diagonal_zero, n_aug_, n_x_. split.
  - intros i j Hi Hj Hne. simpl in Hi, Hj.
    nat_cases i; nat_cases j; try (now elim Hne); reflexivity.
  - intros i Hi. simpl in Hi.
    nat_cases i; unfold augmented_covariance, block_assign; simpl; dsimpl; lra.
Qed.

(** C4, at a concrete input: the identity as state covariance.  The
    reference Cholesky factor is a factor of the augmented covariance, every
    sigma-point heading lies within pi of the mean heading, and the
    prediction with a zero time step returns the same mean and covariance. *)
Lemma C4_witness :
  terminates_with
    (fun fuel => Prediction (H0 := Eigen_reference) fuel 0 unit_covariance_filter)
    (fun s' =>
       (forall r, (r < n_x_)%nat -> x_ s' r = x_ unit_covariance_filter r) /\
       forall r c, (r < n_x_)%nat -> (c < n_x_)%nat ->
         P_ s' r c = P_ unit_covariance_filter r c).
Proof.
  destruct unit_covariance_diagonal as [Hoff Hpos].
  assert (Hfactor : forall r c, (r < n_aug_)%nat -> (c < n_aug_)%nat ->
            mmul n_aug_
              (cholesky n_aug_ (augmented_covariance unit_covariance_filter))
              (transpose
                 (cholesky n_aug_ (augmented_covariance unit_covariance_filter)))
              r c
            = augmented_covariance unit_covariance_filter r c).
  { intros r c Hr Hc. apply cholesky_factor_diag; auto.
    intros i Hi. left. apply Hpos. exact Hi. }
  apply (terminates_weaken _ _ _
           (@C4_prediction_zero_dt Eigen_reference unit_covariance_filter
              eq_refl Hfactor)).
  intros s' [Hx HP]. split; [exact Hx |]. apply HP.
  intros i Hi.
  unfold augmented_sigma_points.
  rewrite sigma_points_entry by (unfold n_aug_, n_x_; lia).
  rewrite augmented_state_entry by (unfold n_x_; lia).
  cbn [llt_matrixL Eigen_reference].
  pose proof gamma_bounds as Hg. pose proof PI_bounds as Hpi.
  assert (HA : forall j, (j < n_aug_)%nat ->
            cholesky n_aug_ (augmented_covariance unit_covariance_filter) 3%nat j
            = 0 \/
            cholesky n_aug_ (augmented_covariance unit_covariance_filter) 3%nat j
            = 1).
  { intros j Hj. rewrite cholesky_diag by (auto; unfold n_aug_, n_x_; lia).
    destruct (Nat.eqb 3 j); [right | left; reflexivity].
    replace (augmented_covariance unit_covariance_filter 3%nat 3%nat) with 1
      by reflexivity.
    apply sqrt_1. }
  destruct (Nat.eqb i 0); [lra |].
  destruct (Nat.ltb i (n_aug_ + 1)) eqn:H1.
  { apply Nat.ltb_lt in H1.
    destruct (HA (i - 1)%nat) as [-> | ->]; [unfold n_aug_, n_x_ in *; lia | lra | lra]. }
  destruct (Nat.ltb i (2 * n_aug_ + 1)) eqn:H2; [| lra].
  apply Nat.ltb_lt in H2.
  destruct (HA (i - (n_aug_ + 1))%nat) as [-> | ->];
    [unfold n_aug_, n_x_ in *; lia | lra | lra].
Defined.

(** C4 (as stated) fails on the state that a first lidar measurement at
    (1, 1) leaves in a constructed filter: the
    augmented covariance is positive definite and the reference Cholesky
    factor is a factor of it, but the heading variance is 100, the heading
    residuals are wrapped into the interval from -pi to pi, and after a
    prediction with a zero time step the heading variance is below 38. *)
Lemma C4_counterexample :
  ProcessMeasurement (H0 := Eigen_reference) 0 (lidar_at 1000000 1 1) fresh
  = Returns tracking_filter /\
  positive_definite n_aug_ (augmented_covariance tracking_filter) /\
  (forall r c, (r < n_aug_)%nat -> (c < n_aug_)%nat ->
     mmul n_aug_
       (llt_matrixL (Eigen := Eigen_reference) n_aug_
          (augmented_covariance tracking_filter))
       (transpose
          (llt_matrixL (Eigen := Eigen_reference) n_aug_
             (augmented_covariance tracking_filter))) r c
     = augmented_covariance tracking_filter r c) /\
  terminates_with
    (fun fuel => Prediction (H0 := Eigen_reference) fuel 0 tracking_filter)
    (fun s' =>
       P_ tracking_filter 3%nat 3%nat = 100 /\
       P_ s' 3%nat 3%nat <= 38 /\
       P_ s' 3%nat 3%nat <> P_ tracking_filter 3%nat 3%nat).
Proof.
  destruct tracking_covariance_diagonal as [Hoff Hpos].
  split; [reflexivity |].
  split; [apply diagonal_positive_definite; assumption |].
  split.
  { intros r c Hr Hc. cbn [llt_matrixL Eigen_reference].
    apply cholesky_factor_diag; auto.
    intros i Hi. left. apply Hpos. exact Hi. }
  apply (terminates_weaken _ _ _
           (@Prediction_terminates Eigen_reference 0 tracking_filter)).
  intros s' (_ & _ & _ & (d & Hd & HP) & _).
  assert (H100 : P_ tracking_filter 3%nat 3%nat = 100) by reflexivity.
  assert (Hle : P_ s' 3%nat 3%nat <= 38).
  { rewrite HP.
    rewrite (sum_upto_ext _ _
               (fun i => weights_ tracking_filter i * (d i 3%nat * d i 3%nat)))
      by (intros; ring).
    rewrite sum_over_sigma_points.
    destruct (UKF_new_weights blank) as [Hw0 Hw].
    change (weights_ tracking_filter) with (weights_ (@UKF_new R _ blank)).
    rewrite Hw0, !Hw by lia.
    pose proof PI_bounds as Hpi.
    assert (Hsq : forall i, (i < 2 * n_aug_ + 1)%nat ->
              0 <= d i 3%nat * d i 3%nat <= 16).
    { intros i Hi. destruct (Hd i Hi) as ([Hlo Hhi] & _). split; nra. }
    pose proof (Hsq 0%nat) as H0. pose proof (Hsq 1%nat) as H1.
    pose proof (Hsq 2%nat) as H2. pose proof (Hsq 3%nat) as H3.
    pose proof (Hsq 4%nat) as H4. pose proof (Hsq 5%nat) as H5.
    pose proof (Hsq 6%nat) as H6. pose proof (Hsq 7%nat) as H7.
    pose proof (Hsq 8%nat) as H8. pose proof (Hsq 9%nat) as H9.
    pose proof (Hsq 10%nat) as H10. pose proof (Hsq 11%nat) as H11.
    pose proof (Hsq 12%nat) as H12. pose proof (Hsq 13%nat) as H13.
    pose proof (Hsq 14%nat) as H14.
    unfold n_aug_, n_x_ in *. simpl in *.
    specialize (H0 ltac:(lia)). specialize (H1 ltac:(lia)).
    specialize (H2 ltac:(lia)). specialize (H3 ltac:(lia)).
    specialize (H4 ltac:(lia)). specialize (H5 ltac:(lia)).
    specialize (H6 ltac:(lia)). specialize (H7 ltac:(lia)).
    specialize (H8 ltac:(lia)). specialize (H9 ltac:(lia)).
    specialize (H10 ltac:(lia)). specialize (H11 ltac:(lia)).
    specialize (H12 ltac:(lia)). specialize (H13 ltac:(lia)).
    specialize (H14 ltac:(lia)).
    lra. }
  split; [exact H100 |]. split; [exact Hle |]. rewrite H100. lra.
Qed.

(** ** C5: angle residuals are normalized before they are accumulated *)



(** ** C6: the weights *)

(** C6 (in exact arithmetic). After construction the weight vector has
    2 * n_aug_ + 1 = 15 entries,
    with lambda_ = 3 - n_aug_ and n_aug_ = 7: entry 0 is
    lambda_ / (lambda_ + n_aug_) = -4/3, each of the entries 1 to 14 is
    1 / (2 (lambda_ + n_aug_)) = 1/6, and the 15 weights add up to 1. *)
Theorem C6_weights (mem : UKF R) :
  let w := weights_ (UKF_new mem) in
  (2 * n_aug_ + 1 = 15)%nat /\ n_aug_ = 7%nat /\
  lambda_ = 3 - INR n_aug_ /\
  w 0%nat = lambda_ / (lambda_ + INR n_aug_) /\
  w 0%nat = - 4 / 3 /\
  (forall i, (1 <= i <= 14)%nat ->
     w i = 1 / (2 * (lambda_ + INR n_aug_)) /\ w i = 1 / 6) /\
  sum_upto 15 w = 1.
Proof.
  assert (Hl : @lambda_ R _ = -4) by (unfold lambda_; simpl; reflexivity).
  assert (Hn : INR n_aug_ = 7) by (unfold n_aug_, n_x_; simpl; lra).
  destruct (UKF_new_weights mem) as [Hw0 Hw].
  cbv zeta. split; [reflexivity |]. split; [reflexivity |].
  split; [rewrite Hl, Hn; lra |].
  split; [rewrite Hw0, Hl, Hn; lra |].
  split; [exact Hw0 |].
  split.
  { intros i Hi. rewrite (Hw i Hi), Hl, Hn. split; lra. }
  cbn [sum_upto]. dsimpl.
  rewrite Hw0. rewrite !Hw by lia. lra.
Qed.

(** C6 (as stated) fails at binary64.  The constructor stores the doubles
    -6004799503160661 / 2^52 (not -4/3) and 6004799503160661 / 2^55 (not 1/6);
    the exact sum of the 15 stored values is 1 - 2^-54, and added in index
    order in double arithmetic they give 9007199254740990 / 2^53
    (0.99999999999999978), which [!=] tells from 1. *)
Lemma C6_counterexample :
  exists r0 r1 rs : R,
    r0 <> - 4 / 3 /\ r1 <> 1 / 6 /\ r0 + 14 * r1 <> 1 /\ rs <> 1 /\
    forall (L : Libm) (mem : UKF PrimFloat.float),
      let w := weights_ (UKF_new mem) in
      Binary64.to_R (w 0%nat) = Some r0 /\
      (forall i, (1 <= i <= 14)%nat -> Binary64.to_R (w i) = Some r1) /\
      Binary64.to_R (sum_upto 15 w) = Some rs /\
      dne (sum_upto 15 w) (d_of_Z 1) = true.
Proof.
  exists (- 6004799503160661 / 4503599627370496),
         (6004799503160661 / 36028797018963968),
         (9007199254740990 / 9007199254740992).
  split; [lra |]. split; [lra |]. split; [lra |]. split; [lra |].
  intros L mem. cbv zeta.
  destruct (binary64_weights mem) as (H0 & Hi & Hs & Hne).
  unfold Binary64.to_R. rewrite H0, Hs.
  split; [reflexivity |]. split; [| split; [reflexivity |]].
  - intros i Hrange. rewrite (Hi i Hrange). reflexivity.
  - cbn [dne Double_binary64]. rewrite Hne. reflexivity.
Qed.

(** ** C7: NaN components of the radar measurement model *)

(** C7 (as the code has it, on the reals extended with +inf, -inf and NaN:
    exact arithmetic on the finite values, with one zero). For every
    predicted sigma point, whatever values its components hold, each of the
    three transformed components (range, bearing, range rate) that evaluates
    to NaN is replaced by 0 before it is stored in [Zsig_], so no entry of
    [Zsig_] is NaN; a sigma point with
    px = py = 0 maps to (0, 0, 0).  When the predicted sigma points and the
    weights are finite, the transformed points, the predicted measurement
    mean and the measurement covariance sum are finite: no NaN is
    accumulated. *)
Theorem C7_nan_replaced_by_zero :
  (forall p_x p_y v yaw : ieee,
     radar_transform p_x p_y v yaw =
       (nan_to_zero (dsqrt (p_x * p_x + p_y * p_y)%D),
        nan_to_zero (datan2 p_y p_x),
        nan_to_zero ((p_x * (dcos yaw * v) + p_y * (dsin yaw * v))
                     / dsqrt (p_x * p_x + p_y * p_y))%D) /\
     fst (fst (radar_transform p_x p_y v yaw)) <> NaN /\
     snd (fst (radar_transform p_x p_y v yaw)) <> NaN /\
     snd (radar_transform p_x p_y v yaw) <> NaN) /\
  (forall v yaw : ieee,
     radar_transform (Fin 0) (Fin 0) v yaw = (Fin 0, Fin 0, Fin 0)) /\
  (forall (Xsig_pred Zsig : Matrix ieee) (i : nat),
     (transform_column Xsig_pred i Zsig 0%nat i,
      transform_column Xsig_pred i Zsig 1%nat i,
      transform_column Xsig_pred i Zsig 2%nat i) =
     radar_transform (Xsig_pred 0%nat i) (Xsig_pred 1%nat i)
                     (Xsig_pred 2%nat i) (Xsig_pred 3%nat i)) /\
  (forall s : UKF ieee,
     (forall r i, finite (Xsig_pred_ s r i)) ->
     (forall i, (i < 2 * n_aug_ + 1)%nat -> finite (weights_ s i)) ->
     (forall r i, (r < n_z_radar_)%nat -> (i < 2 * n_aug_ + 1)%nat ->
        finite (radar_Zsig s r i)) /\
     (forall r, (r < n_z_radar_)%nat ->
        finite (radar_z_pred (weights_ s) (radar_Zsig s) r)) /\
     terminates_with
       (fun fuel => radar_S_sum fuel (weights_ s) (radar_Zsig s)
                      (radar_z_pred (weights_ s) (radar_Zsig s)))
       (fun S0 => forall r c, (r < n_z_radar_)%nat -> (c < n_z_radar_)%nat ->
                              finite (S0 r c))).
Proof.
  split; [| split; [| split]].
  - intros p_x p_y v yaw. rewrite radar_transform_guarded. cbn [fst snd].
    repeat split; try reflexivity; apply nan_to_zero_not_nan.
  - intros v yaw. rewrite radar_transform_guarded.
    assert (Hrho : dsqrt (Fin 0 * Fin 0 + Fin 0 * Fin 0)%D = Fin 0).
    { isimpl. cbn [IEEE.mul IEEE.add]. rewrite ieee_sqrt_fin by lra.
      f_equal. replace (0 * 0 + 0 * 0) with 0 by ring. apply sqrt_0. }
    rewrite Hrho. cbn [nan_to_zero].
    assert (Hphi : datan2 (Fin 0) (Fin 0) = Fin 0).
    { isimpl. cbn [IEEE.atan2]. f_equal. unfold Ratan2.
      destruct (Rlt_dec 0 0); [lra | reflexivity]. }
    rewrite Hphi. cbn [nan_to_zero].
    assert (Hdot : ((Fin 0 * (dcos yaw * v) + Fin 0 * (dsin yaw * v)) / Fin 0)%D
                   = NaN).
    { isimpl.
      destruct (ieee_mul_zero (IEEE.mul (IEEE.cos yaw) v)) as [-> | ->];
        destruct (ieee_mul_zero (IEEE.mul (IEEE.sin yaw) v)) as [-> | ->];
        cbn [IEEE.add IEEE.div]; try reflexivity.
      destruct (Req_dec_T 0 0); [| congruence].
      unfold IEEE.signed_inf.
      destruct (Rlt_dec 0 (0 + 0)); [lra |].
      destruct (Rlt_dec (0 + 0) 0); [lra | reflexivity]. }
    rewrite Hdot. reflexivity.
  - intros Xsig_pred Zsig i. unfold transform_column.
    destruct (radar_transform (Xsig_pred 0%nat i) (Xsig_pred 1%nat i)
                (Xsig_pred 2%nat i) (Xsig_pred 3%nat i)) as [[a b] c].
    unfold mset. simpl. rewrite !Nat.eqb_refl. reflexivity.
  - intros s HX Hw.
    assert (HZ : forall r i, (r < n_z_radar_)%nat -> (i < 2 * n_aug_ + 1)%nat ->
              finite (radar_Zsig s r i)).
    { intros r i Hr Hi. rewrite radar_Zsig_entry by assumption.
      destruct (HX 0%nat i) as [a ->]. destruct (HX 1%nat i) as [b ->].
      destruct (HX 2%nat i) as [c ->]. destruct (HX 3%nat i) as [d ->].
      destruct (radar_transform_fin a b c d) as (r1 & r2 & r3 & ->).
      unfold n_z_radar_ in Hr.
      destruct r as [|[|[|r]]]; try lia; eexists; reflexivity. }
    assert (Hz : forall r, (r < n_z_radar_)%nat ->
              finite (radar_z_pred (weights_ s) (radar_Zsig s) r)).
    { intros r Hr. unfold radar_z_pred. apply weighted_sum_finite.
      intros i Hi. split; [apply Hw | apply HZ]; assumption. }
    split; [exact HZ |]. split; [exact Hz |].
    apply radar_S_sum_finite; assumption.
Qed.

(** C7, at a concrete input: a constructed filter whose predicted sigma
    points are all at the origin. *)
Lemma C7_witness :
  (forall r, (r < n_z_radar_)%nat ->
     finite (radar_z_pred (weights_ origin_filter) (radar_Zsig origin_filter) r)) /\
  terminates_with
    (fun fuel => radar_S_sum fuel (weights_ origin_filter)
                   (radar_Zsig origin_filter)
                   (radar_z_pred (weights_ origin_filter)
                      (radar_Zsig origin_filter)))
    (fun S0 => forall r c, (r < n_z_radar_)%nat -> (c < n_z_radar_)%nat ->
                           finite (S0 r c)).
Proof.
  destruct C7_nan_replaced_by_zero as (_ & _ & _ & Hfin).
  apply (Hfin origin_filter).
  - intros r i. exists 0. reflexivity.
  - intros i Hi. destruct (UKF_new_weights_ieee blank) as [Hw0 Hw].
    change (weights_ origin_filter) with (weights_ (@UKF_new ieee _ blank)).
    destruct (Nat.eq_dec i 0) as [-> | Hne].
    + rewrite Hw0. eexists. reflexivity.
    + rewrite Hw by (unfold n_aug_, n_x_ in Hi; lia). eexists. reflexivity.
Defined.

(** C7 (as stated) fails when sigma points are infinite: with an infinite x
    position in every predicted sigma point no entry of [Zsig_] is NaN (the
    ranges are +inf), yet the predicted range is -inf + inf = NaN, and the
    range residual that enters the measurement covariance is NaN, so the
    covariance sum is NaN.  It fails on finite sigma points too, at binary64:
    at the position (2^-700, 0) with speed 1 the squares underflow, the range
    is 0 and the range rate is +inf, which the self-comparison does not
    catch, and the predicted range rate is NaN; and a sigma point at
    (-0, +0), which compares equal to (0, 0), is given the bearing
    atan2(+0, -0), pi in the C library, not 0.  The C library enters through
    three values only: cos 0 = 1, sin 0 = 0 and atan2(+0, -0) = [M_PI]. *)
Lemma C7_counterexample :
  (forall r i, (r < n_z_radar_)%nat -> (i < 2 * n_aug_ + 1)%nat ->
     radar_Zsig far_away_filter r i <> NaN) /\
  radar_z_pred (weights_ far_away_filter) (radar_Zsig far_away_filter) 0%nat
  = NaN /\
  terminates_with
    (fun fuel => radar_S_sum fuel (weights_ far_away_filter)
                   (radar_Zsig far_away_filter)
                   (radar_z_pred (weights_ far_away_filter)
                      (radar_Zsig far_away_filter)))
    (fun S0 => S0 0%nat 0%nat = NaN) /\
  (forall L : Libm,
     libm_cos PrimFloat.zero = PrimFloat.one ->
     libm_sin PrimFloat.zero = PrimFloat.zero ->
     PrimFloat.ltb PrimFloat.zero Binary64.tiny = true /\
     PrimFloat.ltb Binary64.tiny PrimFloat.one = true /\
     (forall i, (i < 2 * n_aug_ + 1)%nat ->
        radar_Zsig underflow_filter 0%nat i = PrimFloat.zero /\
        radar_Zsig underflow_filter 2%nat i = PrimFloat.infinity) /\
     radar_z_pred (weights_ underflow_filter) (radar_Zsig underflow_filter)
                  2%nat = PrimFloat.nan) /\
  (forall L : Libm,
     libm_cos PrimFloat.zero = PrimFloat.one ->
     libm_sin PrimFloat.zero = PrimFloat.zero ->
     libm_atan2 PrimFloat.zero PrimFloat.neg_zero = M_PI ->
     PrimFloat.eqb PrimFloat.neg_zero PrimFloat.zero = true /\
     forall i, (i < 2 * n_aug_ + 1)%nat ->
       (radar_Zsig negative_zero_filter 0%nat i,
        radar_Zsig negative_zero_filter 1%nat i,
        radar_Zsig negative_zero_filter 2%nat i)
       = (PrimFloat.zero, M_PI, PrimFloat.zero)).
Proof.
  destruct (UKF_new_weights_ieee blank) as [Hw0 Hw].
  assert (HW0 : weights_ far_away_filter 0%nat = Fin (- 4 / 3)) by exact Hw0.
  assert (HW : forall i, (1 <= i <= 14)%nat ->
            weights_ far_away_filter i = Fin (1 / 6)) by exact Hw.
  assert (HZ : forall i, (i < 2 * n_aug_ + 1)%nat ->
            radar_Zsig far_away_filter 0%nat i = PInf /\
            radar_Zsig far_away_filter 1%nat i = Fin 0 /\
            radar_Zsig far_away_filter 2%nat i = Fin 0).
  { intros i Hi.
    rewrite !radar_Zsig_entry by (unfold n_z_radar_; lia || exact Hi).
    cbn [far_away_filter set_Xsig_pred_ Xsig_pred_ Nat.eqb].
    rewrite radar_transform_guarded. isimpl.
    cbn [IEEE.mul IEEE.add IEEE.sqrt IEEE.atan2 IEEE.cos IEEE.sin].
    unfold IEEE.signed_inf.
    destruct (Rlt_dec 0 (cos 0 * 0)); [lra |].
    destruct (Rlt_dec (cos 0 * 0) 0); [lra |].
    cbn [IEEE.add IEEE.div nan_to_zero component3]. auto. }
  assert (Hmean0 : radar_z_pred (weights_ far_away_filter)
                     (radar_Zsig far_away_filter) 0%nat = NaN).
  { unfold radar_z_pred. change (2 * n_aug_ + 1)%nat with (S (S 13)).
    assert (Hnan : forall n,
              for_loop (S (S n))
                (fun i z => vadd z (vscale (weights_ far_away_filter i)
                                      (col (radar_Zsig far_away_filter) i)))
                (vfill zero) 0%nat = NaN \/ (13 < n)%nat).
    { induction n as [|n IH].
      - left. rewrite !radar_z_pred_entry. cbn [for_loop vfill].
        destruct (HZ 0%nat) as [-> _]; [unfold n_aug_, n_x_; lia |].
        destruct (HZ 1%nat) as [-> _]; [unfold n_aug_, n_x_; lia |].
        rewrite HW0, HW by lia. isimpl. cbn [IEEE.mul]. unfold IEEE.signed_inf.
        destruct (Rlt_dec 0 (- 4 / 3)); [lra |].
        destruct (Rlt_dec (- 4 / 3) 0); [| lra].
        destruct (Rlt_dec 0 (1 / 6)); [| lra]. reflexivity.
      - destruct (le_lt_dec 13 n) as [Hbig | Hsmall]; [right; lia |].
        left. rewrite radar_z_pred_entry.
        destruct IH as [-> | Hn]; [reflexivity | lia]. }
    destruct (Hnan 13%nat) as [H | H]; [exact H | lia]. }
  split; [| split; [exact Hmean0 | split; [| exact binary64_radar_special_cases]]].
  - intros r i Hr Hi. destruct (HZ i Hi) as (H0 & H1 & H2).
    unfold n_z_radar_ in Hr.
    destruct r as [|[|[|r]]]; try lia; congruence.
  - unfold radar_S_sum.
    assert (Hmean1 : finite (radar_z_pred (weights_ far_away_filter)
                               (radar_Zsig far_away_filter) 1%nat)).
    { unfold radar_z_pred. apply weighted_sum_finite. intros i Hi. split.
      - destruct (Nat.eq_dec i 0) as [-> | Hne].
        + rewrite HW0. eexists. reflexivity.
        + rewrite HW by (unfold n_aug_, n_x_ in Hi; lia). eexists. reflexivity.
      - destruct (HZ i Hi) as (_ & -> & _). eexists. reflexivity. }
    apply (terminates_weaken _
      (fun S0 => (1 <= 2 * n_aug_ + 1)%nat -> S0 0%nat 0%nat = NaN)).
    2:{ intros S0 HS0. apply HS0. unfold n_aug_, n_x_. lia. }
    apply (terminates_for_loop_m
      (fun fuel i S =>
         z_diff <- meas_residual fuel (col (radar_Zsig far_away_filter) i)
                     (radar_z_pred (weights_ far_away_filter)
                        (radar_Zsig far_away_filter)) ;;
         Returns (madd S (scaled_outer (weights_ far_away_filter i) z_diff z_diff)))
      (fun n S0 => (1 <= n)%nat -> S0 0%nat 0%nat = NaN)).
    + intros Hn. lia.
    + intros i S Hi _.
      assert (Hb : finite (vsub (col (radar_Zsig far_away_filter) i)
                     (radar_z_pred (weights_ far_away_filter)
                        (radar_Zsig far_away_filter)) 1%nat)).
      { destruct Hmean1 as [m1 Hm1].
        unfold vsub, col. destruct (HZ i Hi) as (_ & -> & _). rewrite Hm1.
        eexists. reflexivity. }
      apply (@terminates_bind _ _
               (fun fuel => meas_residual fuel (col (radar_Zsig far_away_filter) i)
                              (radar_z_pred (weights_ far_away_filter)
                                 (radar_Zsig far_away_filter)))
               (fun _ z_diff =>
                  Returns (madd S (scaled_outer (weights_ far_away_filter i)
                                     z_diff z_diff)))
               _ _ (meas_residual_keeps _ _ Hb)).
      intros d Hd. apply terminates_ret. intros _.
      unfold madd, scaled_outer. rewrite (Hd 0%nat) by lia.
      unfold vsub, col. rewrite Hmean0. isimpl. unfold IEEE.sub. cbn [IEEE.opp].
      rewrite ieee_add_nan_r, !ieee_mul_nan_r, ieee_add_nan_r. reflexivity.
Qed.

(** ** C8: the process model *)

(** C8. For every sigma point and every time step the new position, before
    the noise terms are added, is given by the curved-path formulas exactly
    when the magnitude of the yaw rate exceeds 0.001 (the only case in which
    the code divides by the yaw rate) and by the straight-line formulas
    otherwise; before noise the speed is carried over and the heading is
    yaw + yawd * delta_t.  [predict_column] stores these five values in the
    column of the sigma point, and the loop of [Prediction] does so for each
    of the 15 sigma points: column i of the predicted sigma points is the
    process model applied to column i of the augmented sigma points, for
    every scalar type.  These are the matrices [Prediction] stores in
    [Xsig_pred_] and [Xsig_]: in exact arithmetic, where it returns, and for
    every scalar type whenever it returns. *)
Theorem C8_process_model (delta_t p_x p_y v yaw yawd nu_a nu_yawdd : R) :
  (exists px py : R,
     propagate delta_t p_x p_y v yaw yawd nu_a nu_yawdd =
       (px + 5 / 10 * nu_a * delta_t * delta_t * cos yaw,
        py + 5 / 10 * nu_a * delta_t * delta_t * sin yaw,
        v + nu_a * delta_t,
        yaw + yawd * delta_t + 5 / 10 * nu_yawdd * delta_t * delta_t,
        yawd + nu_yawdd * delta_t) /\
     (1 / 1000 < Rabs yawd ->
        px = p_x + v / yawd * (sin (yaw + yawd * delta_t) - sin yaw) /\
        py = p_y + v / yawd * (cos yaw - cos (yaw + yawd * delta_t))) /\
     (Rabs yawd <= 1 / 1000 ->
        px = p_x + v * delta_t * cos yaw /\
        py = p_y + v * delta_t * sin yaw)) /\
  (forall (Xsig Xsig_pred : Matrix R) (i : nat),
    (col (predict_column delta_t Xsig i Xsig_pred) i 0%nat,
     col (predict_column delta_t Xsig i Xsig_pred) i 1%nat,
     col (predict_column delta_t Xsig i Xsig_pred) i 2%nat,
     col (predict_column delta_t Xsig i Xsig_pred) i 3%nat,
     col (predict_column delta_t Xsig i Xsig_pred) i 4%nat) =
    propagate delta_t (Xsig 0%nat i) (Xsig 1%nat i) (Xsig 2%nat i)
              (Xsig 3%nat i) (Xsig 4%nat i) (Xsig 5%nat i) (Xsig 6%nat i)) /\
  (forall (E : Eigen R) (s : UKF R),
     terminates_with (fun fuel => Prediction fuel delta_t s)
       (fun s' =>
          forall i, (i < 2 * n_aug_ + 1)%nat ->
            (Xsig_pred_ s' 0%nat i, Xsig_pred_ s' 1%nat i, Xsig_pred_ s' 2%nat i,
             Xsig_pred_ s' 3%nat i, Xsig_pred_ s' 4%nat i)
            = propagate delta_t
                (Xsig_ s' 0%nat i) (Xsig_ s' 1%nat i) (Xsig_ s' 2%nat i)
                (Xsig_ s' 3%nat i) (Xsig_ s' 4%nat i) (Xsig_ s' 5%nat i)
                (Xsig_ s' 6%nat i))) /\
  (forall (D : Type) (HD : Double D) (HE : Eigen D) (dt : D) (s0 : UKF D)
          (i : nat),
     (i < 2 * n_aug_ + 1)%nat ->
     let Xsig := augmented_sigma_points s0 in
     let Xsig_pred := predicted_sigma_points dt s0 in
     (Xsig_pred 0%nat i, Xsig_pred 1%nat i, Xsig_pred 2%nat i,
      Xsig_pred 3%nat i, Xsig_pred 4%nat i)
     = propagate dt (Xsig 0%nat i) (Xsig 1%nat i) (Xsig 2%nat i)
                 (Xsig 3%nat i) (Xsig 4%nat i) (Xsig 5%nat i) (Xsig 6%nat i)) /\
  (forall (D : Type) (HD : Double D) (HE : Eigen D) (fuel : nat) (dt : D)
          (s0 s' : UKF D) (i : nat),
     Prediction fuel dt s0 = Returns s' ->
     (i < 2 * n_aug_ + 1)%nat ->
     (Xsig_pred_ s' 0%nat i, Xsig_pred_ s' 1%nat i, Xsig_pred_ s' 2%nat i,
      Xsig_pred_ s' 3%nat i, Xsig_pred_ s' 4%nat i)
     = propagate dt
         (Xsig_ s' 0%nat i) (Xsig_ s' 1%nat i) (Xsig_ s' 2%nat i)
         (Xsig_ s' 3%nat i) (Xsig_ s' 4%nat i) (Xsig_ s' 5%nat i)
         (Xsig_ s' 6%nat i)).
Proof.
  split; [| split; [| split; [| split;
    [intros D HD HE dt s0 i Hi; apply (predicted_sigma_points_column dt s0 i Hi) |]]]].
  - unfold propagate. dsimpl.
    destruct (Rltb (1 / 1000) (Rabs yawd)) eqn:Hcmp.
    + apply Rltb_true in Hcmp. eexists. eexists. split; [reflexivity |].
      split; [intros _; split; reflexivity | intros Hle; lra].
    + apply Rltb_false in Hcmp. eexists. eexists. split; [reflexivity |].
      split; [intros Hlt; lra | intros _; split; reflexivity].
  - intros Xsig Xsig_pred i. unfold predict_column, col.
    destruct (propagate delta_t (Xsig 0%nat i) (Xsig 1%nat i) (Xsig 2%nat i)
                (Xsig 3%nat i) (Xsig 4%nat i) (Xsig 5%nat i) (Xsig 6%nat i))
      as [[[[a b] c] d] e].
    unfold mset. simpl. rewrite !Nat.eqb_refl. reflexivity.
  - intros E s.
    apply (terminates_weaken _ _ _ (Prediction_terminates delta_t s)).
    intros s' (HX & HXp & _) i Hi. rewrite HX, HXp.
    apply (predicted_sigma_points_column delta_t s i Hi).
  - intros D HD HE fuel dt s0 s' i Hret Hi.
    destruct (Prediction_returns _ _ _ _ Hret) as (_ & HX & HXp & _).
    rewrite HX, HXp. apply (predicted_sigma_points_column dt s0 i Hi).
Qed.

(** ** C9: no ordering check on timestamps *)




(** ** C10: each update writes only its own diagnostic *)


(* ========================================================================= *)
(** * Part IV: further properties of the code *)

(** ** The angle normalization *)

Lemma sin_turns (a : R) (k : Z) : sin (a + IZR k * (2 * PI)) = sin a.
Proof.
  destruct (Z_lt_le_dec k 0) as [Hneg | Hpos].
  - rewrite <- (sin_period (a + IZR k * (2 * PI)) (Z.to_nat (- k))).
    f_equal. rewrite INR_IZR_INZ, Z2Nat.id by lia. rewrite opp_IZR. ring.
  - rewrite <- (sin_period a (Z.to_nat k)).
    f_equal. rewrite INR_IZR_INZ, Z2Nat.id by lia. ring.
Qed.

Lemma cos_turns (a : R) (k : Z) : cos (a + IZR k * (2 * PI)) = cos a.
Proof.
  destruct (Z_lt_le_dec k 0) as [Hneg | Hpos].
  - rewrite <- (cos_period (a + IZR k * (2 * PI)) (Z.to_nat (- k))).
    f_equal. rewrite INR_IZR_INZ, Z2Nat.id by lia. rewrite opp_IZR. ring.
  - rewrite <- (cos_period a (Z.to_nat k)).
    f_equal. rewrite INR_IZR_INZ, Z2Nat.id by lia. ring.
Qed.

(** X1. Over the reals the normalization returns for every angle, with an
    angle between -pi and pi that has the same sine and cosine (it is the same
    direction), and it is idempotent: normalizing the result returns the
    result. *)
Theorem normalize_angle_same_direction (a : R) :
  terminates_with (fun fuel => normalize_angle fuel a)
    (fun a' =>
       - PI <= a' <= PI /\ sin a' = sin a /\ cos a' = cos a /\
       terminates_with (fun fuel => normalize_angle fuel a') (eq a')).
Proof.
  apply (terminates_weaken _ _ _ (normalize_angle_terminates a)).
  intros a' (Hin & _ & k & Hk).
  split; [exact Hin |]. split; [rewrite Hk; apply sin_turns |].
  split; [rewrite Hk; apply cos_turns |].
  apply (terminates_weaken _ _ _ (normalize_angle_terminates a')).
  intros a'' (_ & Hid & _). symmetry. apply Hid. exact Hin.
Qed.

(** X2. A residual that is off by less than one turn is wrapped once: an
    angle strictly between pi and 3 pi is brought back by exactly 2 pi, an
    angle strictly between -3 pi and -pi is advanced by exactly 2 pi, and an
    angle between -pi and pi is returned as it is.  (So a predicted bearing of
    3.13 against an observed bearing of -3.13 gives an innovation of
    2 pi - 6.26, about 0.02, not -6.26.) *)
Theorem normalize_angle_single_wrap (a : R) :
  (PI < a < 3 * PI ->
   terminates_with (fun fuel => normalize_angle fuel a) (eq (a - 2 * PI))) /\
  (- (3 * PI) < a < - PI ->
   terminates_with (fun fuel => normalize_angle fuel a) (eq (a + 2 * PI))) /\
  (- PI <= a <= PI ->
   terminates_with (fun fuel => normalize_angle fuel a) (eq a)).
Proof.
  pose proof PI_bounds as HPI.
  split; [| split]; intros Ha;
    apply (terminates_weaken _ _ _ (normalize_angle_terminates a));
    intros a' (Hin & Hid & k & Hk).
  - assert (Hk1 : k = (-1)%Z).
    { assert (IZR k < 0) by nra. assert (-2 < IZR k) by nra.
      assert (k < 0)%Z by (apply lt_IZR; assumption).
      assert (-2 < k)%Z by (apply lt_IZR; assumption). lia. }
    subst k. rewrite Hk. lra.
  - assert (Hk1 : k = 1%Z).
    { assert (0 < IZR k) by nra. assert (IZR k < 2) by nra.
      assert (0 < k)%Z by (apply lt_IZR; assumption).
      assert (k < 2)%Z by (apply lt_IZR; assumption). lia. }
    subst k. rewrite Hk. lra.
  - symmetry. apply Hid. exact Ha.
Qed.

(** X2, at the bearing residual -3.13 - 3.13. *)
Lemma normalize_angle_single_wrap_witness :
  terminates_with (fun fuel => normalize_angle fuel (- 313 / 100 - 313 / 100))
    (eq (- 313 / 100 - 313 / 100 + 2 * PI)).
Proof.
  apply (proj1 (proj2 (normalize_angle_single_wrap (- 313 / 100 - 313 / 100)))).
  pose proof PI_bounds. lra.
Defined.

(** ** The sigma points *)

Lemma constructed_weights (s : UKF R) :
  weights_ s = weights_ fresh ->
  weights_ s 0%nat = - 4 / 3 /\
  forall i, (1 <= i <= 14)%nat -> weights_ s i = 1 / 6.
Proof.
  intros Hw. destruct (UKF_new_weights blank) as [Hw0 Hwi].
  fold (@fresh R _) in Hw0, Hwi. rewrite <- Hw in Hw0, Hwi. auto.
Qed.

(** X3. In exact arithmetic the sigma points are centred on the augmented
    mean: column 0 is the mean itself, the columns j and j + 7 (1 <= j <= 7)
    lie opposite each other about it, and with the constructed weights the
    weighted mean of the 15 sigma points is the augmented mean, whatever
    matrix of real numbers the factorization handed back.  (A factor with an
    infinite or NaN entry is not covered: the two columns it reaches are then
    +inf and -inf and their sum is NaN.) *)
Theorem sigma_points_centred {E : Eigen R} (s : UKF R) (r : nat) :
  weights_ s = weights_ fresh ->
  (r < n_aug_)%nat ->
  let x_aug' := vec_append2 n_x_ (x_ s) 0 0 in
  augmented_sigma_points s r 0%nat = x_aug' r /\
  (forall j, (1 <= j <= n_aug_)%nat ->
     augmented_sigma_points s r j
     + augmented_sigma_points s r (j + n_aug_)%nat = 2 * x_aug' r) /\
  sum_upto (2 * n_aug_ + 1)
    (fun i => weights_ s i * augmented_sigma_points s r i) = x_aug' r.
Proof.
  intros Hw Hr x_aug'. destruct (constructed_weights s Hw) as [Hw0 Hwi].
  unfold augmented_sigma_points.
  change (vec_append2 n_x_ (x_ s) zero zero) with x_aug'.
  split; [| split].
  - rewrite sigma_points_entry by exact Hr. reflexivity.
  - intros j Hj. rewrite !sigma_points_entry by exact Hr.
    assert (H0 : Nat.eqb j 0 = false) by (apply Nat.eqb_neq; lia).
    assert (H1 : Nat.ltb j (n_aug_ + 1) = true) by (apply Nat.ltb_lt; lia).
    assert (H2 : Nat.eqb (j + n_aug_) 0 = false)
      by (apply Nat.eqb_neq; unfold n_aug_, n_x_; lia).
    assert (H3 : Nat.ltb (j + n_aug_) (n_aug_ + 1) = false)
      by (apply Nat.ltb_ge; lia).
    assert (H4 : Nat.ltb (j + n_aug_) (2 * n_aug_ + 1) = true)
      by (apply Nat.ltb_lt; lia).
    rewrite H0, H1, H2, H3, H4.
    replace (j + n_aug_ - (n_aug_ + 1))%nat with (j - 1)%nat by lia. lra.
  - rewrite sum_over_sigma_points.
    rewrite !sigma_points_entry by exact Hr.
    rewrite Hw0, !Hwi by lia.
    change (n_aug_ + 1)%nat with 8%nat. change (2 * n_aug_ + 1)%nat with 15%nat.
    cbn [Nat.eqb Nat.ltb Nat.leb Nat.sub]. lra.
Qed.

(** X3, at a concrete input: the heading row of the sigma points of the
    filter with the identity as state covariance. *)
Lemma sigma_points_centred_witness :
  sum_upto (2 * n_aug_ + 1)
    (fun i => weights_ unit_covariance_filter i *
              augmented_sigma_points (H0 := Eigen_reference)
                unit_covariance_filter 3%nat i)
  = x_ unit_covariance_filter 3%nat.
Proof.
  apply (@sigma_points_centred Eigen_reference unit_covariance_filter 3%nat
           eq_refl).
  unfold n_aug_, n_x_. lia.
Defined.



(** ** The prediction for any time step *)

(** Speed, heading and heading rate of a propagated sigma point do not depend
    on the branch taken for the position. *)
Lemma propagate_linear_part (delta_t p_x p_y v yaw yawd nu_a nu_yawdd : R) :
  component 2 (propagate delta_t p_x p_y v yaw yawd nu_a nu_yawdd)
    = v + nu_a * delta_t /\
  component 3 (propagate delta_t p_x p_y v yaw yawd nu_a nu_yawdd)
    = yaw + yawd * delta_t + 5 / 10 * nu_yawdd * delta_t * delta_t /\
  component 4 (propagate delta_t p_x p_y v yaw yawd nu_a nu_yawdd)
    = yawd + nu_yawdd * delta_t.
Proof.
  unfold propagate. dsimpl.
  destruct (Rltb (1 / 1000) (Rabs yawd)); repeat split.
Qed.

Lemma predicted_sigma_points_linear_part {E : Eigen R} (delta_t : R) (s : UKF R)
  (i : nat) :
  (i < 2 * n_aug_ + 1)%nat ->
  let X := augmented_sigma_points s in
  predicted_sigma_points delta_t s 2%nat i = X 2%nat i + X 5%nat i * delta_t /\
  predicted_sigma_points delta_t s 3%nat i
    = X 3%nat i + X 4%nat i * delta_t
      + 5 / 10 * X 6%nat i * delta_t * delta_t /\
  predicted_sigma_points delta_t s 4%nat i = X 4%nat i + X 6%nat i * delta_t.
Proof.
  intros Hi X. unfold predicted_sigma_points.
  rewrite !predict_columns_entry by (unfold n_x_; lia).
  assert (Hlt : Nat.ltb i (2 * n_aug_ + 1) = true) by (apply Nat.ltb_lt; exact Hi).
  rewrite Hlt. apply propagate_linear_part.
Qed.

Lemma noise_mean_zero (x : Vector R) :
  vec_append2 n_x_ x zero zero 5%nat = 0 /\
  vec_append2 n_x_ x zero zero 6%nat = 0.
Proof. split; reflexivity. Qed.

Lemma predicted_mean_linear_part {E : Eigen R} (delta_t : R) (s : UKF R) :
  weights_ s = weights_ fresh ->
  let x' := predicted_mean (weights_ s) (predicted_sigma_points delta_t s) in
  x' 2%nat = x_ s 2%nat /\
  x' 3%nat = x_ s 3%nat + x_ s 4%nat * delta_t /\
  x' 4%nat = x_ s 4%nat.
Proof.
  intros Hw x'. destruct (constructed_weights s Hw) as [Hw0 Hwi].
  destruct (noise_mean_zero (x_ s)) as [Hn5 Hn6].
  unfold x'. rewrite !predicted_mean_entry.
  rewrite (sum_upto_ext _ _
    (fun i => weights_ s i *
       (augmented_sigma_points s 2%nat i
        + augmented_sigma_points s 5%nat i * delta_t)))
    by (intros i Hi;
        destruct (predicted_sigma_points_linear_part delta_t s i Hi) as (-> & _);
        reflexivity).
  rewrite (sum_upto_ext _ (fun i => weights_ s i * predicted_sigma_points delta_t s 3%nat i)
    (fun i => weights_ s i *
       (augmented_sigma_points s 3%nat i
        + augmented_sigma_points s 4%nat i * delta_t
        + 5 / 10 * augmented_sigma_points s 6%nat i * delta_t * delta_t)))
    by (intros i Hi;
        destruct (predicted_sigma_points_linear_part delta_t s i Hi)
          as (_ & -> & _); reflexivity).
  rewrite (sum_upto_ext _ (fun i => weights_ s i * predicted_sigma_points delta_t s 4%nat i)
    (fun i => weights_ s i *
       (augmented_sigma_points s 4%nat i
        + augmented_sigma_points s 6%nat i * delta_t)))
    by (intros i Hi;
        destruct (predicted_sigma_points_linear_part delta_t s i Hi)
          as (_ & _ & ->); reflexivity).
  rewrite !sum_over_sigma_points.
  unfold augmented_sigma_points.
  rewrite !sigma_points_entry by (unfold n_aug_, n_x_; lia).
  rewrite Hn5, Hn6, !augmented_state_entry by (unfold n_x_; lia).
  rewrite Hw0, !Hwi by lia.
  change (n_aug_ + 1)%nat with 8%nat. change (2 * n_aug_ + 1)%nat with 15%nat.
  cbn [Nat.eqb Nat.ltb Nat.leb Nat.sub].
  repeat split; field.
Qed.

(** X5. Over the reals (exact arithmetic), for every time step and every
    matrix of real numbers handed back by the factorization, a prediction
    with the constructed weights returns, keeps the mean speed and the mean
    heading rate and advances the mean heading by heading rate times time
    step: the process noise has zero mean. *)
Theorem Prediction_mean_speed_heading {E : Eigen R} (delta_t : R) (s : UKF R) :
  weights_ s = weights_ fresh ->
  terminates_with (fun fuel => Prediction fuel delta_t s)
    (fun s' =>
       x_ s' 2%nat = x_ s 2%nat /\
       x_ s' 3%nat = x_ s 3%nat + x_ s 4%nat * delta_t /\
       x_ s' 4%nat = x_ s 4%nat).
Proof.
  intros Hw.
  apply (terminates_weaken _ _ _ (Prediction_terminates delta_t s)).
  intros s' (_ & _ & Hx & _). rewrite Hx.
  apply predicted_mean_linear_part. exact Hw.
Qed.

(** X5, at a concrete input: a step of half a second of a filter that moves
    (speed 5, heading 1/2, yaw rate 1/10), with the reference factorization:
    the heading becomes 1/2 + 1/10 * 1/2. *)
Lemma Prediction_mean_speed_heading_witness :
  terminates_with
    (fun fuel => Prediction (H0 := Eigen_reference) fuel (1 / 2) moving_filter)
    (fun s' =>
       x_ s' 2%nat = x_ moving_filter 2%nat /\
       x_ s' 3%nat
         = x_ moving_filter 3%nat + x_ moving_filter 4%nat * (1 / 2) /\
       x_ s' 4%nat = x_ moving_filter 4%nat).
Proof.
  apply (@Prediction_mean_speed_heading Eigen_reference (1 / 2) moving_filter).
  reflexivity.
Defined.





(** ** The process model as a motion *)


(** ** The radar measurement model as a change of coordinates *)

Lemma atan_nonpos (t : R) : t <= 0 -> atan t <= 0.
Proof.
  intros [Hlt | ->]; [| rewrite atan_0; lra].
  pose proof (atan_increasing t 0 Hlt) as H. rewrite atan_0 in H. lra.
Qed.

Lemma atan_pos (t : R) : 0 < t -> 0 < atan t.
Proof.
  intros Hlt. pose proof (atan_increasing 0 t Hlt) as H.
  rewrite atan_0 in H. exact H.
Qed.

(** [atan2] returns an angle greater than -pi and at most pi. *)
Lemma Ratan2_range (y x : R) : - PI < Ratan2 y x <= PI.
Proof.
  pose proof PI_bounds as HPI. unfold Ratan2.
  destruct (Rlt_dec 0 x) as [Hx | Hx].
  { pose proof (atan_bound (y / x)). lra. }
  destruct (Rlt_dec x 0) as [Hx' | Hx'].
  { pose proof (atan_bound (y / x)) as Hb.
    destruct (Rle_dec 0 y) as [Hy | Hy].
    - assert (y / x <= 0).
      { unfold Rdiv. assert (/ x < 0) by (apply Rinv_lt_0_compat; exact Hx'). nra. }
      pose proof (atan_nonpos (y / x) H). lra.
    - assert (0 < y / x).
      { unfold Rdiv. assert (/ x < 0) by (apply Rinv_lt_0_compat; exact Hx'). nra. }
      pose proof (atan_pos (y / x) H). lra. }
  destruct (Rlt_dec 0 y); [lra |].
  destruct (Rlt_dec y 0); lra.
Qed.

Lemma cos_minus_PI (a : R) : cos (a - PI) = - cos a.
Proof. rewrite cos_minus, cos_PI, sin_PI. ring. Qed.

Lemma sin_minus_PI (a : R) : sin (a - PI) = - sin a.
Proof. rewrite sin_minus, cos_PI, sin_PI. ring. Qed.

(** Range and bearing are polar coordinates of the position. *)
Lemma Ratan2_polar (y x : R) :
  sqrt (x * x + y * y) * cos (Ratan2 y x) = x /\
  sqrt (x * x + y * y) * sin (Ratan2 y x) = y.
Proof.
  assert (Hpolar : forall x0 : R, x0 <> 0 ->
            sqrt (x0 * x0 + y * y) = Rabs x0 * sqrt (1 + (y / x0)²)).
  { intros x0 Hx0. rewrite <- sqrt_Rsqr_abs, <- sqrt_mult.
    - f_equal. unfold Rsqr. field. exact Hx0.
    - apply Rle_0_sqr.
    - pose proof (Rle_0_sqr (y / x0)). lra. }
  assert (Hroot : 0 < sqrt (1 + (y / x)²)).
  { apply sqrt_lt_R0. pose proof (Rle_0_sqr (y / x)). lra. }
  unfold Ratan2.
  destruct (Rlt_dec 0 x) as [Hx | Hx].
  { rewrite Hpolar by lra. rewrite cos_atan, sin_atan, Rabs_right by lra.
    split; field; lra. }
  destruct (Rlt_dec x 0) as [Hx' | Hx'].
  { rewrite Hpolar by lra. rewrite Rabs_left by lra.
    destruct (Rle_dec 0 y) as [Hy | Hy].
    - rewrite neg_cos, neg_sin, cos_atan, sin_atan. split; field; lra.
    - rewrite cos_minus_PI, sin_minus_PI, cos_atan, sin_atan. split; field; lra. }
  assert (Hx0 : x = 0) by lra. subst x.
  replace (0 * 0 + y * y) with (y * y) by ring.
  destruct (Rlt_dec 0 y) as [Hy | Hy].
  { rewrite sqrt_square, cos_PI2, sin_PI2 by lra. split; ring. }
  destruct (Rlt_dec y 0) as [Hy' | Hy'].
  { replace (y * y) with ((- y) * (- y)) by ring.
    replace (- PI / 2) with (- (PI / 2)) by field.
    rewrite sqrt_square, cos_neg, sin_neg, cos_PI2, sin_PI2 by lra.
    split; ring. }
  assert (Hy0 : y = 0) by lra. subst y.
  rewrite Rmult_0_l, sqrt_0, cos_0, sin_0. split; ring.
Qed.

(** The measurement model on a finite sigma point, component by component. *)
Lemma radar_transform_value (p_x p_y v yaw : R) :
  radar_transform (Fin p_x) (Fin p_y) (Fin v) (Fin yaw)
  = (Fin (sqrt (p_x * p_x + p_y * p_y)),
     Fin (Ratan2 p_y p_x),
     Fin (if Req_dec_T (sqrt (p_x * p_x + p_y * p_y)) 0 then 0
          else (p_x * (cos yaw * v) + p_y * (sin yaw * v))
               / sqrt (p_x * p_x + p_y * p_y))).
Proof.
  rewrite radar_transform_guarded. isimpl.
  cbn [IEEE.mul IEEE.add IEEE.cos IEEE.sin IEEE.atan2].
  rewrite ieee_sqrt_fin by nra.
  cbn [IEEE.div nan_to_zero].
  destruct (Req_dec_T (sqrt (p_x * p_x + p_y * p_y)) 0) as [Hz | Hnz];
    [| reflexivity].
  apply sqrt_eq_0 in Hz; [| nra].
  assert (Hx : p_x = 0) by nra. assert (Hy : p_y = 0) by nra. subst.
  unfold IEEE.signed_inf.
  destruct (Rlt_dec 0 (0 * (cos yaw * v) + 0 * (sin yaw * v))); [lra |].
  destruct (Rlt_dec (0 * (cos yaw * v) + 0 * (sin yaw * v)) 0); [lra |].
  reflexivity.
Qed.

(** X8. In exact arithmetic (the reals extended with +inf, -inf and NaN: no
    rounding, no overflow or underflow, one zero), on a finite sigma point the
    radar measurement model returns finite polar coordinates of the position:
    a range that is not negative and whose
    square is px^2 + py^2, a bearing greater than -pi and at most pi, such
    that range and bearing give the position back, and a range rate that is
    the velocity projected on the line of sight, so never larger in magnitude
    than the speed.  This includes the origin, where the three components are
    zero (the 0/0 of the range rate is NaN, which the self-comparison
    replaces).  At binary64 a coordinate whose square overflows or underflows,
    and a negative zero, are outside this statement. *)
Theorem radar_transform_polar (p_x p_y v yaw : R) :
  exists rho phi rho_dot : R,
    radar_transform (Fin p_x) (Fin p_y) (Fin v) (Fin yaw)
    = (Fin rho, Fin phi, Fin rho_dot) /\
    0 <= rho /\
    rho * rho = p_x * p_x + p_y * p_y /\
    - PI < phi <= PI /\
    rho * cos phi = p_x /\
    rho * sin phi = p_y /\
    rho * rho_dot = v * (p_x * cos yaw + p_y * sin yaw) /\
    Rabs rho_dot <= Rabs v /\
    (p_x = 0 -> p_y = 0 -> rho = 0 /\ phi = 0 /\ rho_dot = 0).
Proof.
  rewrite radar_transform_value.
  do 3 eexists. split; [reflexivity |].
  assert (Hsum : 0 <= p_x * p_x + p_y * p_y) by nra.
  pose proof (sqrt_pos (p_x * p_x + p_y * p_y)) as Hpos.
  pose proof (sqrt_sqrt _ Hsum) as Hsq.
  destruct (Ratan2_polar p_y p_x) as [Hcos Hsin].
  split; [exact Hpos |]. split; [exact Hsq |].
  split; [apply Ratan2_range |].
  split; [exact Hcos |]. split; [exact Hsin |].
  set (rho := sqrt (p_x * p_x + p_y * p_y)) in *.
  pose proof (sin2_cos2 yaw) as Hyaw. unfold Rsqr in Hyaw.
  destruct (Req_dec_T rho 0) as [Hz | Hnz].
  - assert (Hx : p_x = 0) by nra. assert (Hy : p_y = 0) by nra.
    split; [rewrite Hz, Hx, Hy; ring |].
    split; [rewrite Rabs_R0; apply Rabs_pos |].
    intros _ _. split; [exact Hz |]. split; [| reflexivity].
    rewrite Hx, Hy. unfold Ratan2.
    destruct (Rlt_dec 0 0); [lra |]. reflexivity.
  - split; [field; exact Hnz |].
    split.
    + set (q := p_x * cos yaw + p_y * sin yaw).
      assert (Hq : q * q <= rho * rho).
      { rewrite Hsq. unfold q.
        pose proof (Rle_0_sqr (p_x * sin yaw - p_y * cos yaw)) as Hsq'.
        unfold Rsqr in Hsq'.
        replace (p_x * p_x + p_y * p_y)
          with ((p_x * p_x + p_y * p_y)
                * (sin yaw * sin yaw + cos yaw * cos yaw))
          by (rewrite Hyaw; ring).
        lra. }
      replace ((p_x * (cos yaw * v) + p_y * (sin yaw * v)) / rho)
        with (v * (q / rho)) by (unfold q; field; exact Hnz).
      rewrite Rabs_mult.
      assert (Hratio : Rabs (q / rho) <= 1).
      { assert (Hrho : 0 < rho) by lra.
        unfold Rdiv. rewrite Rabs_mult, (Rabs_right (/ rho)).
        - apply (Rmult_le_reg_r rho); [exact Hrho |].
          rewrite Rmult_assoc, Rinv_l, Rmult_1_r, Rmult_1_l by exact Hnz.
          apply Rsqr_incr_0_var; [| lra].
          rewrite <- Rsqr_abs. unfold Rsqr. exact Hq.
        - apply Rle_ge. left. apply Rinv_0_lt_compat. exact Hrho. }
      pose proof (Rabs_pos v). nra.
    + intros Hx Hy. exfalso. apply Hnz. unfold rho. rewrite Hx, Hy.
      replace (0 * 0 + 0 * 0) with 0 by ring. apply sqrt_0.
Qed.




(** ** The two updates *)

Section UpdatesR.
Context {E : Eigen R}.

Lemma sum_upto_all_zero (n : nat) (f : nat -> R) :
  (forall i, (i < n)%nat -> f i = 0) -> sum_upto n f = 0.
Proof.
  induction n as [| n IH]; intros Hf; simpl; dsimpl; [reflexivity |].
  rewrite IH, Hf by auto with arith. lra.
Qed.

(** The gain applied to a zero innovation adds nothing to the mean. *)
Lemma zero_innovation_gain (n : nat) (K : Matrix R) (z_diff : Vector R) (i : nat) :
  (forall r, (r < n)%nat -> z_diff r = 0) -> mvmul n K z_diff i = 0.
Proof.
  intros Hz. unfold mvmul. apply sum_upto_all_zero.
  intros l Hl. dsimpl. rewrite (Hz l Hl). ring.
Qed.

Lemma zero_innovation_quad_form (n : nat) (Si : Matrix R) (z_diff : Vector R) :
  (forall r, (r < n)%nat -> z_diff r = 0) -> quad_form n z_diff Si z_diff = 0.
Proof.
  intros Hz. unfold quad_form. apply sum_upto_all_zero.
  intros j Hj. dsimpl. rewrite (Hz j Hj). ring.
Qed.

(** With the constructed measurement matrix the predicted lidar measurement
    is the position part of the state. *)
Lemma lidar_z_pred (s : UKF R) (r : nat) :
  H_laser_ s = H_laser_ fresh -> (r < 2)%nat ->
  mvmul n_x_ (H_laser_ s) (x_ s) r = x_ s r.
Proof.
  intros HH Hr. rewrite HH. unfold mvmul, n_x_.
  destruct r as [| [| r]]; [| | lia]; simpl; dsimpl; lra.
Qed.


(** X10. In exact arithmetic a lidar measurement equal to the position the
    filter holds leaves the whole state mean unchanged and has NIS zero,
    whatever matrix of real numbers the library's inverse returns.  (An
    inverse with an infinite or NaN entry is not covered: the gain times a
    zero innovation is then NaN.) *)
Theorem UpdateLidar_zero_innovation (m : MeasurementPackage R) (s : UKF R) :
  H_laser_ s = H_laser_ fresh ->
  raw_measurements_ m 0%nat = x_ s 0%nat ->
  raw_measurements_ m 1%nat = x_ s 1%nat ->
  let s' := UpdateLidar m s in
  (forall i, x_ s' i = x_ s i) /\ NIS_laser_ s' = 0.
Proof.
  intros HH H0 H1. cbv zeta.
  assert (Hz : forall r, (r < 2)%nat ->
            vsub (raw_measurements_ m) (mvmul n_x_ (H_laser_ s) (x_ s)) r = 0).
  { intros r Hr. unfold vsub. rewrite (lidar_z_pred s r HH Hr). dsimpl.
    destruct r as [| [| r]]; [lra | lra | lia]. }
  unfold UpdateLidar. cbn [x_ NIS_laser_]. split.
  - intros i. unfold vadd. rewrite zero_innovation_gain by exact Hz.
    dsimpl. lra.
  - apply zero_innovation_quad_form. exact Hz.
Qed.

(** The innovation covariance of the lidar update is the position block of
    [P_] plus [R_laser_]. *)
Lemma lidar_S_entry (s : UKF R) (i j : nat) :
  H_laser_ s = H_laser_ fresh -> (i < 2)%nat -> (j < 2)%nat ->
  lidar_S s i j = P_ s i j + R_laser_ s i j.
Proof.
  intros HH Hi Hj. unfold lidar_S. rewrite HH.
  unfold madd, mmul, transpose, n_x_.
  destruct i as [| [| i]]; [| | lia];
    (destruct j as [| [| j]]; [| | lia]); simpl; dsimpl; lra.
Qed.


End UpdatesR.

(** X10, at a concrete input: a second lidar measurement at the position the
    first one left. *)
Lemma UpdateLidar_zero_innovation_witness :
  let s' := UpdateLidar (H0 := Eigen_reference) (lidar_at 2000000 1 1)
                        tracking_filter in
  (forall i, x_ s' i = x_ tracking_filter i) /\ NIS_laser_ s' = 0.
Proof.
  apply (@UpdateLidar_zero_innovation Eigen_reference (lidar_at 2000000 1 1)
           tracking_filter); reflexivity.
Defined.



Section UpdateRadarR.
Context {E : Eigen R}.

(** A whole number of turns that lies in [-pi, pi] is no turn at all. *)
Lemma whole_turns_in_range (k : Z) :
  - PI <= IZR k * (2 * PI) <= PI -> k = 0%Z.
Proof.
  intros Hk. pose proof PI_bounds as HPI.
  assert (Hlo : (- 1 < k)%Z) by (apply lt_IZR; change (IZR (- 1)) with (- 1); nra).
  assert (Hhi : (k < 1)%Z) by (apply lt_IZR; change (IZR 1) with 1; nra).
  lia.
Qed.

(** X12. Over the reals (exact arithmetic) a radar measurement that equals
    the predicted measurement, up to any whole number of turns of the
    bearing, makes the update return with the state mean unchanged and NIS
    zero, whatever matrix of real numbers the library's inverse returns: the
    normalization of the innovation removes the turns. *)
Theorem UpdateRadar_zero_innovation (m : MeasurementPackage R) (s : UKF R)
  (k : Z) :
  let z_pred := radar_z_pred (weights_ s) (radar_Zsig s) in
  raw_measurements_ m 0%nat = z_pred 0%nat ->
  raw_measurements_ m 1%nat = z_pred 1%nat + IZR k * (2 * PI) ->
  raw_measurements_ m 2%nat = z_pred 2%nat ->
  terminates_with (fun fuel => UpdateRadar fuel m s)
    (fun s' => (forall i, x_ s' i = x_ s i) /\ NIS_radar_ s' = 0).
Proof.
  cbv zeta. intros H0 H1 H2.
  apply (terminates_weaken _ _ _ (UpdateRadar_terminates m s)).
  intros s' Hpost. unfold UpdateRadar_post in Hpost. cbv zeta in Hpost.
  destruct Hpost as (_ & (dS & dx & dz & S0 & Tc & z_diff & _ & _ & _ & _
                          & Hz & Hx & _ & HNIS) & _).
  destruct Hz as (Hrange & Hkeep & _ & (k' & Hturn)).
  assert (Hzero : forall r, (r < n_z_radar_)%nat -> z_diff r = 0).
  { intros r Hr. unfold n_z_radar_ in Hr.
    destruct r as [| [| [| r]]]; [| | | lia].
    - rewrite Hkeep by lia. unfold vsub. dsimpl. lra.
    - unfold vsub in Hturn. dsimpl. rewrite H1 in Hturn.
      assert (Hsum : z_diff 1%nat = IZR (k + k') * (2 * PI))
        by (rewrite plus_IZR; lra).
      rewrite Hsum in Hrange |- *.
      rewrite (whole_turns_in_range _ Hrange). lra.
    - rewrite Hkeep by lia. unfold vsub. dsimpl. lra. }
  split.
  - intros i. rewrite Hx. unfold vadd.
    rewrite zero_innovation_gain by exact Hzero. dsimpl. lra.
  - rewrite HNIS. apply zero_innovation_quad_form. exact Hzero.
Qed.

End UpdateRadarR.

(** X12, at a concrete input: the predicted measurement itself, one turn
    further. *)
Lemma UpdateRadar_zero_innovation_witness :
  let z_pred :=
    radar_z_pred (weights_ tracking_filter) (radar_Zsig tracking_filter) in
  terminates_with
    (fun fuel =>
       UpdateRadar (H0 := Eigen_reference) fuel
         (radar_at 2000000 (z_pred 0%nat) (z_pred 1%nat + 2 * PI) (z_pred 2%nat))
         tracking_filter)
    (fun s' => (forall i, x_ s' i = x_ tracking_filter i) /\ NIS_radar_ s' = 0).
Proof.
  cbv zeta.
  apply (@UpdateRadar_zero_innovation Eigen_reference _ tracking_filter 1%Z).
  - reflexivity.
  - cbn [raw_measurements_ radar_at vec3]. lra.
  - reflexivity.
Defined.

(** ** Symmetry of the covariance *)

Section SymmetryR.
Context {E : Eigen R}.

(** [K * S * K^T] is symmetric when [S] is. *)
Lemma gain_product_symmetric (K S : Matrix R) (r c : nat) :
  (forall a b, (a < 3)%nat -> (b < 3)%nat -> S a b = S b a) ->
  mmul 3 (mmul 3 K S) (transpose K) r c
  = mmul 3 (mmul 3 K S) (transpose K) c r.
Proof.
  intros HS. unfold mmul, transpose. simpl. dsimpl.
  rewrite (HS 1%nat 0%nat), (HS 2%nat 0%nat), (HS 2%nat 1%nat) by lia. ring.
Qed.

Lemma weighted_outer_symmetric (n : nat) (w : Vector R) (d : nat -> Vector R)
  (r c : nat) :
  sum_upto n (fun i => w i * d i r * d i c)
  = sum_upto n (fun i => w i * d i c * d i r).
Proof. apply sum_upto_ext. intros i _. dsimpl. ring. Qed.

(** The covariance [Prediction] computes is symmetric, whatever it was. *)
Lemma Prediction_symmetric (delta_t : R) (s s' : UKF R) :
  Prediction_post delta_t s s' -> forall r c, P_ s' r c = P_ s' c r.
Proof.
  intros (_ & _ & _ & (d & _ & HP) & _) r c.
  rewrite !HP. apply weighted_outer_symmetric.
Qed.

Lemma UpdateRadar_symmetric (m : MeasurementPackage R) (s s' : UKF R) :
  R_radar_ s = R_radar_ fresh ->
  (forall r c, P_ s r c = P_ s c r) ->
  UpdateRadar_post m s s' -> forall r c, P_ s' r c = P_ s' c r.
Proof.
  intros HR HP Hpost r c. unfold UpdateRadar_post in Hpost. cbv zeta in Hpost.
  destruct Hpost as (_ & (dS & dx & dz & S0 & Tc & z_diff & _ & HS0 & _ & _
                          & _ & _ & HP' & _) & _).
  rewrite HP'. unfold msub. dsimpl. rewrite (HP r c). f_equal.
  apply gain_product_symmetric.
  intros a b Ha Hb. unfold madd. dsimpl. rewrite !HS0, HR. f_equal.
  - apply weighted_outer_symmetric.
  - destruct a as [| [| [| a]]]; [| | | lia];
      (destruct b as [| [| [| b]]]; [| | | lia]); reflexivity.
Qed.

(** The covariance the lidar update computes, entry by entry. *)
Lemma UpdateLidar_covariance_entry (m : MeasurementPackage R) (s : UKF R)
  (i j : nat) :
  H_laser_ s = H_laser_ fresh -> (i < n_x_)%nat ->
  let Si := inverse 2 (lidar_S s) in
  P_ (UpdateLidar m s) i j
  = P_ s i j
    - (P_ s i 0%nat * Si 0%nat 0%nat + P_ s i 1%nat * Si 1%nat 0%nat)
      * P_ s 0%nat j
    - (P_ s i 0%nat * Si 0%nat 1%nat + P_ s i 1%nat * Si 1%nat 1%nat)
      * P_ s 1%nat j.
Proof.
  intros HH Hi. cbv zeta. unfold UpdateLidar. cbn [P_].
  set (Si := inverse 2 (lidar_S s)).
  rewrite HH. unfold mmul, msub, transpose, identity, n_x_ in *.
  destruct i as [| [| [| [| [| i]]]]]; [| | | | | lia]; simpl; dsimpl; lra.
Qed.

Lemma UpdateLidar_symmetric (m : MeasurementPackage R) (s : UKF R) :
  H_laser_ s = H_laser_ fresh ->
  (forall r c, P_ s r c = P_ s c r) ->
  inverse 2 (lidar_S s) 0%nat 1%nat = inverse 2 (lidar_S s) 1%nat 0%nat ->
  forall r c, (r < n_x_)%nat -> (c < n_x_)%nat ->
    P_ (UpdateLidar m s) r c = P_ (UpdateLidar m s) c r.
Proof.
  intros HH HP HSi r c Hr Hc.
  rewrite (UpdateLidar_covariance_entry m s r c HH Hr).
  rewrite (UpdateLidar_covariance_entry m s c r HH Hc).
  rewrite (HP c 0%nat), (HP c 1%nat), (HP c r), (HP 0%nat r), (HP 1%nat r), HSi.
  ring.
Qed.

End SymmetryR.

Section StepSymmetryR.
Context {E : Eigen R}.

(** X13. Over the reals (exact arithmetic) a prediction and update step of a
    filter with the constructed configuration returns and leaves a symmetric
    5x5 covariance, whatever the covariance was before the step: after a
    radar measurement whatever matrix of real numbers the library's inverse
    returns, after a lidar measurement provided the inverse it returns for a
    symmetric 2x2 matrix is symmetric. *)
Theorem step_covariance_symmetric (m : MeasurementPackage R) (s : UKF R) :
  same_configuration fresh s ->
  is_initialized_ s = true ->
  (sensor_type_ m = LASER ->
   forall S : Matrix R,
     S 0%nat 1%nat = S 1%nat 0%nat ->
     inverse 2 S 0%nat 1%nat = inverse 2 S 1%nat 0%nat) ->
  terminates_with (fun fuel => ProcessMeasurement fuel m s)
    (fun s' => forall r c, (r < n_x_)%nat -> (c < n_x_)%nat ->
                 P_ s' r c = P_ s' c r).
Proof.
  intros Hcfg Hinit Hinv. unfold ProcessMeasurement. rewrite Hinit. cbn [negb].
  destruct Hcfg as (_ & _ & _ & _ & _ & _ & _ & _ & _ & HH & HRl & HRr).
  eapply terminates_bind; [apply Prediction_terminates |].
  intros s1 Hpred.
  pose proof (Prediction_symmetric _ _ _ Hpred) as Hsym.
  destruct Hpred as (_ & _ & _ & _ & _ & _ & _ & _ & _ & Hcfg1).
  destruct Hcfg1 as (_ & _ & _ & _ & _ & _ & _ & _ & _ & HH1 & HRl1 & HRr1).
  cbn [H_laser_ R_laser_ R_radar_ set_previous_timestamp_] in HH1, HRl1, HRr1.
  destruct (sensor_type_ m) eqn:Hsensor.
  - apply terminates_ret. intros r c Hr Hc.
    apply UpdateLidar_symmetric; try assumption; [congruence |].
    apply (Hinv eq_refl).
    rewrite !lidar_S_entry by (congruence || lia).
    rewrite (Hsym 0%nat 1%nat), HRl1, HRl. reflexivity.
  - eapply terminates_weaken; [apply UpdateRadar_terminates |].
    intros s2 Hupd r c _ _.
    apply (UpdateRadar_symmetric m s1 s2); [congruence | exact Hsym | exact Hupd].
Qed.

End StepSymmetryR.

(** The reference inverse of a symmetric 2x2 matrix is symmetric. *)
Lemma adjugate_inverse_symmetric_2 (S : Matrix R) :
  S 0%nat 1%nat = S 1%nat 0%nat ->
  adjugate_inverse 2 S 0%nat 1%nat = adjugate_inverse 2 S 1%nat 0%nat.
Proof.
  intros HS. unfold adjugate_inverse, sign, minor. simpl. dsimpl.
  unfold sign, minor. simpl. dsimpl. rewrite HS. reflexivity.
Qed.

(** X13, at a concrete input: a second lidar measurement, with the reference
    decompositions. *)
Lemma step_covariance_symmetric_witness :
  terminates_with
    (fun fuel =>
       ProcessMeasurement (H0 := Eigen_reference) fuel (lidar_at 2000000 2 3)
                          tracking_filter)
    (fun s' => forall r c, (r < n_x_)%nat -> (c < n_x_)%nat ->
                 P_ s' r c = P_ s' c r).
Proof.
  apply (@step_covariance_symmetric Eigen_reference (lidar_at 2000000 2 3)
           tracking_filter).
  - unfold same_configuration. repeat split; reflexivity.
  - reflexivity.
  - intros _ S HS. apply adjugate_inverse_symmetric_2. exact HS.
Defined.

(** ** A first measurement that is not a number *)

Section FirstMeasurement.
Context {E : Eigen ieee}.

(** X14. The first measurement is not validated: when its first component is
    NaN, the first call of [ProcessMeasurement] returns an initialized filter
    whose x position is NaN, for a lidar as for a radar measurement; the guard
    on small initial values does not fire on NaN, so the covariance is left
    as it was. *)
Theorem first_measurement_nan_accepted (fuel : nat)
  (m : MeasurementPackage ieee) (s : UKF ieee) :
  is_initialized_ s = false ->
  raw_measurements_ m 0%nat = NaN ->
  exists s' : UKF ieee,
    ProcessMeasurement fuel m s = Returns s' /\
    is_initialized_ s' = true /\
    x_ s' 0%nat = NaN /\
    (sensor_type_ m = RADAR -> x_ s' 1%nat = NaN) /\
    P_ s' = P_ s.
Proof.
  intros Hinit Hnan. unfold ProcessMeasurement. rewrite Hinit. cbn [negb].
  eexists. split; [reflexivity |].
  unfold initialize, initial_position. rewrite Hnan.
  destruct (sensor_type_ m).
  - cbn. repeat split; try reflexivity. discriminate.
  - isimpl. cbn [IEEE.mul IEEE.fabs IEEE.ltb].
    destruct (IEEE.cos (raw_measurements_ m 1%nat));
      destruct (IEEE.sin (raw_measurements_ m 1%nat));
      cbn; repeat split; reflexivity.
Qed.

End FirstMeasurement.

(** X14, at a concrete input: a constructed filter and a radar measurement
    whose range is NaN. *)
Lemma first_measurement_nan_accepted_witness :
  exists s' : UKF ieee,
    ProcessMeasurement (H0 := Eigen_reference) 0
      (radar_at 0 NaN (Fin 0) (Fin 0)) fresh = Returns s' /\
    is_initialized_ s' = true /\
    x_ s' 0%nat = NaN /\
    (sensor_type_ (radar_at 0 NaN (Fin 0) (Fin 0)) = RADAR -> x_ s' 1%nat = NaN) /\
    P_ s' = P_ fresh.
Proof.
  apply (@first_measurement_nan_accepted Eigen_reference 0%nat
           (radar_at 0 NaN (Fin 0) (Fin 0)) fresh); reflexivity.
Defined.

(** ** The driver *)

Lemma same_configuration_refl {D : Type} (s : UKF D) : same_configuration s s.
Proof. unfold same_configuration. repeat split; reflexivity. Qed.

Lemma same_configuration_trans {D : Type} (s1 s2 s3 : UKF D) :
  same_configuration s1 s2 -> same_configuration s2 s3 ->
  same_configuration s1 s3.
Proof.
  unfold same_configuration.
  intros (A1 & A2 & A3 & A4 & A5 & A6 & A7 & A8 & A9 & A10 & A11 & A12)
         (B1 & B2 & B3 & B4 & B5 & B6 & B7 & B8 & B9 & B10 & B11 & B12).
  repeat split; congruence.
Qed.

Section DriverR.
Context {E : Eigen R}.

Lemma ProcessMeasurement_terminates (m : MeasurementPackage R) (s : UKF R) :
  terminates_with (fun fuel => ProcessMeasurement fuel m s)
                  (ProcessMeasurement_post m s).
Proof.
  unfold ProcessMeasurement, ProcessMeasurement_post.
  destruct (is_initialized_ s) eqn:Hinit; cbn [negb].
  - eapply terminates_bind.
    + apply Prediction_terminates.
    + intros s1 Hpred. unfold Prediction_post in Hpred.
      destruct Hpred as (_ & _ & _ & _ & _ & Hts & Hin & _ & _ & Hcfg).
      cbn [previous_timestamp_ is_initialized_ set_previous_timestamp_]
        in Hts, Hin.
      assert (Hcfg0 : same_configuration s s1).
      { unfold same_configuration in *. exact Hcfg. }
      destruct (sensor_type_ m).
      * apply terminates_ret. unfold UpdateLidar. cbn.
        split; [congruence |]. split; [exact Hts |].
        split; [| discriminate].
        eapply same_configuration_trans; [exact Hcfg0 |].
        unfold same_configuration. cbn. repeat split; reflexivity.
      * eapply terminates_weaken; [apply UpdateRadar_terminates |].
        intros s2 Hupd. unfold UpdateRadar_post in Hupd. cbv zeta in Hupd.
        destruct Hupd as (_ & _ & _ & Hts2 & Hin2 & _ & Hcfg2).
        split; [congruence |]. split; [congruence |].
        split; [| discriminate].
        eapply same_configuration_trans; eassumption.
  - apply terminates_ret.
    unfold initialize. destruct (initial_position m (P_ s)) as [[px py] P'].
    cbn. split; [reflexivity |]. split; [reflexivity |].
    split; [| reflexivity].
    unfold same_configuration. cbn. repeat split; reflexivity.
Qed.

(** The position a first call stores is the one [initial_position] returns. *)
Lemma initialize_position (m : MeasurementPackage R) (s : UKF R) :
  head2 (x_ (initialize m s)) = first_position m (P_ s).
Proof.
  unfold initialize, first_position, head2.
  destruct (initial_position m (P_ s)) as [[px py] P']. reflexivity.
Qed.

Lemma process_entry_terminates (gt_pack_list : list (GroundTruthPackage R))
  (k : nat) (m : MeasurementPackage R) (r : driver R) :
  terminates_with (fun fuel => process_entry fuel gt_pack_list k m r)
    (fun r1 =>
       ProcessMeasurement_post m (ukf r) (ukf r1) /\
       length (out_file_ r1) = (length (out_file_ r) + 7)%nat /\
       estimations r1 = estimations r ++ [head2 (x_ (ukf r1))] /\
       ground_truth r1
       = ground_truth r ++ ground_truth_entries gt_pack_list k 1).
Proof.
  unfold process_entry. eapply terminates_bind.
  - apply ProcessMeasurement_terminates.
  - intros u Hu. apply terminates_ret.
    cbn [ukf out_file_ estimations ground_truth].
    split; [exact Hu |]. split; [| split; reflexivity].
    destruct (sensor_type_ m); rewrite !length_app; cbn [length]; lia.
Qed.

Lemma process_from_terminates (gt_pack_list : list (GroundTruthPackage R))
  (ms : list (MeasurementPackage R)) :
  forall (k : nat) (r : driver R),
    terminates_with (fun fuel => process_from fuel gt_pack_list k ms r)
                    (process_from_post gt_pack_list k ms r).
Proof.
  induction ms as [| m ms IH]; intros k r.
  - apply terminates_ret. unfold process_from_post, ground_truth_entries.
    cbn [length seq map]. rewrite !app_nil_r, Nat.mul_0_r, Nat.add_0_r.
    split; [apply same_configuration_refl |]. split; [reflexivity |].
    split; [reflexivity |]. split.
    { exists []. rewrite app_nil_r. split; [reflexivity |].
      split; [reflexivity |]. split; [congruence |]. intros _ m ms'. discriminate. }
    split; [reflexivity | congruence].
  - cbn [process_from]. eapply terminates_bind.
    + apply process_entry_terminates.
    + intros r1 ((Hinit & Hts & Hcfg & Hfirst) & Hout1 & Hest1 & Hgt1).
      eapply terminates_weaken; [apply IH |].
      intros r' (Hcfg' & Hout & Hgt & (new & Hest & Hlen & Hlast & _) & Hnil & Hne).
      unfold process_from_post.
      split; [eapply same_configuration_trans; eassumption |].
      split; [rewrite Hout, Hout1; cbn [length]; lia |].
      split.
      { rewrite Hgt, Hgt1, <- app_assoc. reflexivity. }
      set (u := ukf r1) in *.
      split.
      { exists (head2 (x_ u) :: new). split.
        - rewrite Hest, Hest1, <- app_assoc. reflexivity.
        - split; [cbn [length]; lia |]. split.
          + intros _ d. destruct ms as [| m' ms'].
            * rewrite (Hnil eq_refl). destruct new; [reflexivity | discriminate].
            * destruct new as [| e new']; [discriminate |].
              change (last (head2 (x_ u) :: e :: new') d) with (last (e :: new') d).
              apply Hlast. discriminate.
          + intros Hfalse m0 ms0 Heq. injection Heq as <- <-.
            cbn [hd_error]. rewrite (Hfirst Hfalse).
            rewrite initialize_position. reflexivity. }
      split; [discriminate |].
      intros _. destruct ms as [| m' ms'].
      * rewrite (Hnil eq_refl). cbn [ukf last].
        split; [exact Hinit | intros d; exact Hts].
      * destruct (Hne ltac:(discriminate)) as [Hi' Hts'].
        split; [exact Hi' |]. intros d.
        change (last (m :: m' :: ms') d) with (last (m' :: ms') d). apply Hts'.
Qed.

End DriverR.

Lemma last_app_nonempty {A : Type} (l l' : list A) (d : A) :
  l' <> [] -> last (l ++ l') d = last l' d.
Proof.
  intros Hne. induction l as [| a l IH]; [reflexivity |].
  cbn [app]. destruct (l ++ l') eqn:Happ.
  - apply app_eq_nil in Happ. destruct Happ. contradiction.
  - rewrite <- IH. reflexivity.
Qed.

Section ProcessDataR.
Context {E : Eigen R}.

(** X15. Over the reals [processData] returns for every input.  It appends
    one estimate, one ground truth entry and seven output values per
    measurement; the ground truth entry of measurement k is
    [gt_pack_list[k]] (a read past the end of that vector when it is the
    shorter one), whatever the measurement; and the filter it ran still has
    the configuration the constructor gave it. *)
Theorem processData_returns (mem : UKF R) (out : list R)
  (measurement_pack_list : list (MeasurementPackage R))
  (gt_pack_list : list (GroundTruthPackage R))
  (est : list (R * R)) (gt : list (option (R * R))) :
  terminates_with
    (fun fuel =>
       processData fuel mem out measurement_pack_list gt_pack_list est gt)
    (fun r =>
       length (estimations r)
       = (length est + length measurement_pack_list)%nat /\
       length (out_file_ r)
       = (length out + 7 * length measurement_pack_list)%nat /\
       ground_truth r
       = gt ++ ground_truth_entries gt_pack_list 0
                 (length measurement_pack_list) /\
       same_configuration (UKF_new mem) (ukf r)).
Proof.
  unfold processData.
  eapply terminates_weaken; [apply process_from_terminates |].
  intros r (Hcfg & Hout & Hgt & (new & Hest & Hlen & _) & _).
  cbn [ukf out_file_ estimations ground_truth] in *.
  split; [rewrite Hest, length_app; lia |].
  split; [exact Hout |]. split; [exact Hgt | exact Hcfg].
Qed.

(** X16. After a run over at least one measurement the filter is
    initialized, its [previous_timestamp_] is the time stamp of the last
    measurement, in whatever order the time stamps came, and the last
    estimate appended is the position the filter holds. *)
Theorem processData_final_state (mem : UKF R) (out : list R)
  (measurement_pack_list : list (MeasurementPackage R))
  (gt_pack_list : list (GroundTruthPackage R))
  (est : list (R * R)) (gt : list (option (R * R))) :
  measurement_pack_list <> [] ->
  terminates_with
    (fun fuel =>
       processData fuel mem out measurement_pack_list gt_pack_list est gt)
    (fun r =>
       is_initialized_ (ukf r) = true /\
       (forall d, previous_timestamp_ (ukf r)
                  = timestamp_ (last measurement_pack_list d)) /\
       forall d, last (estimations r) d = head2 (x_ (ukf r))).
Proof.
  intros Hne. unfold processData.
  eapply terminates_weaken; [apply process_from_terminates |].
  intros r (_ & _ & _ & (new & Hest & Hlen & Hlast & _) & _ & Hfinal).
  cbn [ukf out_file_ estimations ground_truth] in *.
  destruct (Hfinal Hne) as [Hinit Hts].
  split; [exact Hinit |]. split; [exact Hts |].
  intros d. rewrite Hest.
  destruct new as [| e new'].
  - destruct measurement_pack_list; [congruence | discriminate].
  - rewrite last_app_nonempty by discriminate. apply Hlast. exact Hne.
Qed.

(** X17. The first estimate [processData] appends is not a filtered value but
    the first measurement itself: the two lidar coordinates as they are, or
    the radar range and bearing converted to Cartesian coordinates, each
    coordinate below 0.0001 in magnitude being replaced by 1. *)
Theorem processData_first_estimate (mem : UKF R) (out : list R)
  (m : MeasurementPackage R) (rest : list (MeasurementPackage R))
  (gt_pack_list : list (GroundTruthPackage R))
  (est : list (R * R)) (gt : list (option (R * R))) :
  terminates_with
    (fun fuel => processData fuel mem out (m :: rest) gt_pack_list est gt)
    (fun r =>
       let z := raw_measurements_ m in
       let px := z 0%nat * cos (z 1%nat) in
       let py := z 0%nat * sin (z 1%nat) in
       (sensor_type_ m = LASER ->
        nth_error (estimations r) (length est) = Some (z 0%nat, z 1%nat)) /\
       (sensor_type_ m = RADAR ->
        nth_error (estimations r) (length est)
        = Some (if Rlt_dec (Rabs px) (1 / 10000) then 1 else px,
                if Rlt_dec (Rabs py) (1 / 10000) then 1 else py))).
Proof.
  unfold processData.
  eapply terminates_weaken; [apply process_from_terminates |].
  intros r (_ & _ & _ & (new & Hest & Hlen & _ & Hfirst) & _).
  cbn [ukf out_file_ estimations ground_truth] in *.
  specialize (Hfirst eq_refl m rest eq_refl).
  destruct new as [| e new']; [discriminate |].
  cbn [hd_error] in Hfirst. injection Hfirst as ->.
  rewrite Hest, nth_error_app2 by lia. rewrite Nat.sub_diag. cbn [nth_error].
  unfold first_position, initial_position. cbv zeta.
  split; intros ->.
  - reflexivity.
  - dsimpl. unfold Rltb.
    destruct (Rlt_dec _ _); destruct (Rlt_dec _ _); reflexivity.
Qed.

End ProcessDataR.

(** X16, at a concrete input: a run over one lidar measurement. *)
Lemma processData_final_state_witness :
  terminates_with
    (fun fuel =>
       processData (H0 := Eigen_reference) fuel blank []
                   [lidar_at 1000000 1 1] [] [] [])
    (fun r =>
       is_initialized_ (ukf r) = true /\
       (forall d, previous_timestamp_ (ukf r)
                  = timestamp_ (last [lidar_at 1000000 1 1] d)) /\
       forall d, last (estimations r) d = head2 (x_ (ukf r))).
Proof.
  apply (@processData_final_state Eigen_reference blank []
           [lidar_at 1000000 1 1] [] [] []).
  discriminate.
Defined.
Section ReadDataProperties.
Context {D : Type} {I : InputStream D}.

(** A line only appends to the two vectors, and what it appends does not
    depend on what they hold. *)
Lemma read_line_appends (useRadar useLidar : bool) (l : line)
  (ms : list (MeasurementPackage D)) (gt : list (GroundTruthPackage D)) :
  read_line useRadar useLidar l (ms, gt)
  = (ms ++ fst (line_packages useRadar useLidar l),
     gt ++ snd (line_packages useRadar useLidar l)).
Proof.
  unfold line_packages, read_line.
  destruct (extract_string (istringstream l)) as [sensor_type iss].
  destruct (String.eqb sensor_type "L").
  - destruct useRadar; [cbn; rewrite !app_nil_r; reflexivity |].
    destruct (extract_float iss) as [x iss1].
    destruct (extract_float iss1) as [y iss2].
    destruct (extract_long iss2) as [t iss3]. reflexivity.
  - destruct (String.eqb sensor_type "R").
    + destruct useLidar; [cbn; rewrite !app_nil_r; reflexivity |].
      destruct (extract_float iss) as [ro iss1].
      destruct (extract_float iss1) as [theta iss2].
      destruct (extract_float iss2) as [ro_dot iss3].
      destruct (extract_long iss3) as [t iss4]. reflexivity.
    + cbn. rewrite app_nil_r. reflexivity.
Qed.

(** The file is read line by line: the two vectors are extended by what each
    line adds, in the order of the lines. *)
Lemma readData_appends (useRadar useLidar : bool) (in_file_ : list line) :
  forall (ms : list (MeasurementPackage D)) (gt : list (GroundTruthPackage D)),
    readData useRadar useLidar in_file_ (ms, gt)
    = (ms ++ flat_map (fun l => fst (line_packages useRadar useLidar l)) in_file_,
       gt ++ flat_map (fun l => snd (line_packages useRadar useLidar l)) in_file_).
Proof.
  unfold readData.
  induction in_file_ as [| l ls IH]; intros ms gt; cbn [fold_left flat_map].
  - rewrite !app_nil_r. reflexivity.
  - rewrite read_line_appends, IH, <- !app_assoc. reflexivity.
Qed.

(** What one line adds, by its tag and the two flags. *)
Lemma line_packages_cases (useRadar useLidar : bool) (l : line) :
  (tagged "L" l = true /\
   ((useRadar = true /\ line_packages useRadar useLidar l = ([], [])) \/
    (useRadar = false /\
     exists m g, line_packages useRadar useLidar l = ([m], [g]) /\
                 sensor_type_ m = LASER))) \/
  (tagged "L" l = false /\ tagged "R" l = true /\
   ((useLidar = true /\ line_packages useRadar useLidar l = ([], [])) \/
    (useLidar = false /\
     exists m g, line_packages useRadar useLidar l = ([m], [g]) /\
                 sensor_type_ m = RADAR))) \/
  (other_tag l = true /\
   exists g, line_packages useRadar useLidar l = ([], [g])).
Proof.
  unfold other_tag, tagged, sensor_tag,
    line_packages, read_line.
  destruct (extract_string (istringstream l)) as [sensor_type iss].
  cbn [fst].
  destruct (String.eqb sensor_type "L").
  - left. split; [reflexivity |].
    destruct useRadar; [left; split; reflexivity |].
    right. split; [reflexivity |].
    destruct (extract_float iss) as [x iss1].
    destruct (extract_float iss1) as [y iss2].
    destruct (extract_long iss2) as [t iss3].
    eexists. eexists. split; reflexivity.
  - right. destruct (String.eqb sensor_type "R").
    + left. split; [reflexivity |]. split; [reflexivity |].
      destruct useLidar; [left; split; reflexivity |].
      right. split; [reflexivity |].
      destruct (extract_float iss) as [ro iss1].
      destruct (extract_float iss1) as [theta iss2].
      destruct (extract_float iss2) as [ro_dot iss3].
      destruct (extract_long iss3) as [t iss4].
      eexists. eexists. split; reflexivity.
    + right. split; [reflexivity |]. eexists. reflexivity.
Qed.

Lemma radar_only (useLidar : bool) (in_file_ : list line) :
  Forall (fun m : MeasurementPackage D => sensor_type_ m = RADAR)
    (flat_map (fun l => fst (line_packages true useLidar l)) in_file_).
Proof.
  induction in_file_ as [| l ls IH]; cbn [flat_map]; [constructor |].
  apply Forall_app. split; [| exact IH].
  destruct (line_packages_cases true useLidar l)
    as [(_ & [(_ & ->) | (Hf & _)])
       | [(_ & _ & [(_ & ->) | (_ & m & g & -> & Hm)]) | (_ & g & ->)]];
    cbn [fst]; try constructor; try congruence; auto.
Qed.

Lemma lidar_only (useRadar : bool) (in_file_ : list line) :
  Forall (fun m : MeasurementPackage D => sensor_type_ m = LASER)
    (flat_map (fun l => fst (line_packages useRadar true l)) in_file_).
Proof.
  induction in_file_ as [| l ls IH]; cbn [flat_map]; [constructor |].
  apply Forall_app. split; [| exact IH].
  destruct (line_packages_cases useRadar true l)
    as [(_ & [(_ & ->) | (_ & m & g & -> & Hm)])
       | [(_ & _ & [(_ & ->) | (Hf & _)]) | (_ & g & ->)]];
    cbn [fst]; try constructor; try congruence; auto.
Qed.

Lemma tagged_L_not_R (l : line) : tagged "L" l = true -> tagged "R" l = false.
Proof.
  unfold tagged. intros HL. apply String.eqb_eq in HL.
  rewrite HL. reflexivity.
Qed.

Lemma both_sensors_count (in_file_ : list line) :
  length (flat_map (fun l => fst (line_packages false false l)) in_file_)
  = (length (filter (tagged "L") in_file_)
     + length (filter (tagged "R") in_file_))%nat.
Proof.
  induction in_file_ as [| l ls IH]; [reflexivity |].
  cbn [flat_map filter]. rewrite length_app, IH.
  destruct (line_packages_cases false false l)
    as [(HtL & [(Ht & _) | (_ & m & g & -> & _)])
       | [(HtL & HtR & [(Ht & _) | (_ & m & g & -> & _)])
         | (Hother & g & ->)]];
    try congruence.
  - rewrite HtL, (tagged_L_not_R l HtL). cbn [fst length]. lia.
  - rewrite HtL, HtR. cbn [fst length]. lia.
  - unfold other_tag in Hother.
    apply andb_true_iff in Hother. destruct Hother as [HnL HnR].
    apply negb_true_iff in HnL, HnR. rewrite HnL, HnR. cbn [fst length]. lia.
Qed.

(** X18. The two flags select the sensor: with [useRadar] set every
    measurement read is a radar measurement, with [useLidar] set every one is
    a lidar measurement, so with both set no measurement is read at all; with
    neither set there is one measurement per line tagged L or R. *)
Theorem readData_sensor_selection (useRadar useLidar : bool)
  (in_file_ : list line) :
  let ms := fst (readData useRadar useLidar in_file_ ([], [])) in
  (useRadar = true -> Forall (fun m => sensor_type_ m = RADAR) ms) /\
  (useLidar = true -> Forall (fun m => sensor_type_ m = LASER) ms) /\
  (useRadar = true -> useLidar = true -> ms = []) /\
  (useRadar = false -> useLidar = false ->
   length ms = (length (filter (tagged "L") in_file_)
                + length (filter (tagged "R") in_file_))%nat).
Proof.
  cbv zeta. rewrite readData_appends. cbn [fst app].
  split; [intros ->; apply radar_only |].
  split; [intros ->; apply lidar_only |].
  split.
  - intros -> ->.
    pose proof (radar_only true in_file_) as Hradar.
    pose proof (lidar_only true in_file_) as Hlidar.
    destruct (flat_map _ in_file_) as [| m ms]; [reflexivity |].
    inversion Hradar; inversion Hlidar; congruence.
  - intros -> ->. apply both_sensors_count.
Qed.

(** The ground truth vector grows by one more package than the measurement
    vector on every line whose tag is neither L nor R. *)
Lemma readData_count (useRadar useLidar : bool) (in_file_ : list line) :
  let lists := readData useRadar useLidar in_file_ ([], []) in
  length (snd lists)
  = (length (fst lists) + length (filter other_tag in_file_))%nat.
Proof.
  cbv zeta. rewrite readData_appends. cbn [fst snd app].
  induction in_file_ as [| l ls IH]; [reflexivity |].
  cbn [flat_map filter]. rewrite !length_app, IH.
  destruct (line_packages_cases useRadar useLidar l)
    as [(HtL & [(_ & ->) | (_ & m & g & -> & _)])
       | [(HtL & HtR & [(_ & ->) | (_ & m & g & -> & _)])
         | (Hother & g & ->)]];
    [ assert (Hother : other_tag l = false)
        by (unfold other_tag; rewrite HtL; reflexivity)
    | assert (Hother : other_tag l = false)
        by (unfold other_tag; rewrite HtL; reflexivity)
    | assert (Hother : other_tag l = false)
        by (unfold other_tag; rewrite HtL, HtR; reflexivity)
    | assert (Hother : other_tag l = false)
        by (unfold other_tag; rewrite HtL, HtR; reflexivity)
    | ];
    rewrite Hother; cbn [fst snd length]; lia.
Qed.

(** X19. Every line that adds a measurement adds a ground truth package, and
    every line whose tag is neither L nor R adds a ground truth package
    without a measurement: the ground truth vector is longer than the
    measurement vector by the number of such lines, whatever the flags. *)
Theorem readData_lengths (useRadar useLidar : bool) (in_file_ : list line) :
  let lists := readData useRadar useLidar in_file_ ([], []) in
  length (snd lists)
  = (length (fst lists) + length (filter other_tag in_file_))%nat /\
  (length (fst lists) <= length (snd lists))%nat.
Proof.
  cbv zeta. pose proof (readData_count useRadar useLidar in_file_) as Hcount.
  cbv zeta in Hcount. split; [exact Hcount | lia].
Qed.

(** On a line tagged L or R the measurement and the ground truth come in
    pairs. *)
Lemma line_pairs_unzip (useRadar useLidar : bool) (l : line) :
  tagged "L" l = true \/ tagged "R" l = true ->
  line_packages useRadar useLidar l
  = (map fst (line_pairs useRadar useLidar l),
     map snd (line_pairs useRadar useLidar l)).
Proof.
  intros Htag. unfold line_pairs.
  destruct (line_packages_cases useRadar useLidar l)
    as [(HtL & [(_ & ->) | (_ & m & g & -> & _)])
       | [(HtL & HtR & [(_ & ->) | (_ & m & g & -> & _)])
         | (Hother & g & _)]];
    try reflexivity.
  exfalso. unfold other_tag in Hother.
  apply andb_true_iff in Hother. destruct Hother as [HnL HnR].
  apply negb_true_iff in HnL, HnR.
  destruct Htag; congruence.
Qed.

(** The two vectors as the unzipped pairs of the lines. *)
Lemma readData_unzip (useRadar useLidar : bool) (in_file_ : list line) :
  (forall l, In l in_file_ -> tagged "L" l = true \/ tagged "R" l = true) ->
  let pairs := flat_map (line_pairs useRadar useLidar) in_file_ in
  readData useRadar useLidar in_file_ ([], [])
  = (map fst pairs, map snd pairs).
Proof.
  intros Htags. cbv zeta. rewrite readData_appends. cbn [app].
  induction in_file_ as [| l ls IH]; [reflexivity |].
  cbn [flat_map]. rewrite !map_app.
  pose proof (IH (fun l' Hl' => Htags l' (or_intror Hl'))) as IHs.
  injection IHs as IH1 IH2. rewrite IH1, IH2.
  pose proof (line_pairs_unzip useRadar useLidar l
                (Htags l (or_introl eq_refl))) as Hl.
  rewrite Hl at 1 2. reflexivity.
Qed.

(** X20. When every line of the file is tagged L or R, the two vectors stay
    aligned: they are the measurements and the ground truth packages of the
    same lines, in the order of the lines, so that entry k of the one and
    entry k of the other come from one line. *)
Theorem readData_aligned (useRadar useLidar : bool) (in_file_ : list line) :
  (forall l, In l in_file_ -> tagged "L" l = true \/ tagged "R" l = true) ->
  let pairs := flat_map (line_pairs useRadar useLidar) in_file_ in
  readData useRadar useLidar in_file_ ([], [])
  = (map fst pairs, map snd pairs) /\
  forall k m g,
    nth_error pairs k = Some (m, g) ->
    nth_error (fst (readData useRadar useLidar in_file_ ([], []))) k = Some m /\
    nth_error (snd (readData useRadar useLidar in_file_ ([], []))) k = Some g.
Proof.
  intros Htags. cbv zeta.
  pose proof (readData_unzip useRadar useLidar in_file_ Htags) as Hal.
  cbv zeta in Hal. split; [exact Hal |].
  intros k m g Hk. rewrite Hal. cbn [fst snd].
  rewrite !nth_error_map, Hk. split; reflexivity.
Qed.

End ReadDataProperties.

(** X20, at a concrete input: a file of one line tagged L and one tagged R. *)
Lemma readData_aligned_witness :
  let pairs :=
    flat_map (line_pairs (I := tag_only_stream) false false) tag_only_file in
  readData (I := tag_only_stream) false false tag_only_file ([], [])
  = (map fst pairs, map snd pairs) /\
  forall k m g,
    nth_error pairs k = Some (m, g) ->
    nth_error
      (fst (readData (I := tag_only_stream) false false tag_only_file ([], [])))
      k = Some m /\
    nth_error
      (snd (readData (I := tag_only_stream) false false tag_only_file ([], [])))
      k = Some g.
Proof.
  apply (@readData_aligned R tag_only_stream false false tag_only_file).
  intros l [<- | [<- | []]]; [left | right]; reflexivity.
Defined.

(** ** Reading the file and running the filter *)

Lemma ground_truth_entries_shift (g : GroundTruthPackage R)
  (gt_pack_list : list (GroundTruthPackage R)) (k n : nat) :
  ground_truth_entries (g :: gt_pack_list) (S k) n
  = ground_truth_entries gt_pack_list k n.
Proof.
  unfold ground_truth_entries. rewrite <- seq_shift, map_map. reflexivity.
Qed.

(** While the index stays inside [gt_pack_list] every entry is a package of
    that vector. *)
Lemma ground_truth_entries_in_range (n : nat) :
  forall gt_pack_list : list (GroundTruthPackage R),
    (n <= length gt_pack_list)%nat ->
    ground_truth_entries gt_pack_list 0 n
    = map (fun g => Some (head2 (gt_values_ g))) (firstn n gt_pack_list).
Proof.
  induction n as [| n IH]; intros gt_pack_list Hn; [reflexivity |].
  destruct gt_pack_list as [| g gt_pack_list]; [cbn [length] in Hn; lia |].
  cbn [length] in Hn.
  unfold ground_truth_entries. cbn [seq map nth_error option_map firstn].
  f_equal. fold (ground_truth_entries (g :: gt_pack_list) 1 n).
  rewrite ground_truth_entries_shift. apply IH. lia.
Qed.

Section MainR.
Context {E : Eigen R} {I : InputStream R}.

(** X21. [main] hands the two vectors [readData] filled to [processData].
    Over the reals that run returns for every file and both flags, with one
    estimate per measurement read, and it never reads [gt_pack_list] past its
    end.  When every line is tagged L or R the ground truth it pairs with
    estimate k is that of the line measurement k came from. *)
Theorem processData_after_readData (useRadar useLidar : bool)
  (in_file_ : list line) (mem : UKF R) :
  let lists := readData useRadar useLidar in_file_ ([], []) in
  terminates_with
    (fun fuel => processData fuel mem [] (fst lists) (snd lists) [] [])
    (fun r =>
       length (estimations r) = length (fst lists) /\
       length (ground_truth r) = length (fst lists) /\
       Forall (fun g => g <> None) (ground_truth r) /\
       ((forall l, In l in_file_ ->
           tagged "L" l = true \/ tagged "R" l = true) ->
        ground_truth r
        = map (fun p => Some (head2 (gt_values_ (snd p))))
              (flat_map (line_pairs useRadar useLidar) in_file_))).
Proof.
  cbv zeta.
  pose proof (readData_count useRadar useLidar in_file_) as Hlen.
  cbv zeta in Hlen.
  set (lists := readData useRadar useLidar in_file_ ([], [])) in *.
  unfold processData.
  eapply terminates_weaken; [apply process_from_terminates |].
  intros r (_ & _ & Hgt & (new & Hest & Hnew & _) & _).
  cbn [ukf out_file_ estimations ground_truth app] in Hest, Hgt.
  rewrite ground_truth_entries_in_range in Hgt by lia.
  split; [rewrite Hest; exact Hnew |].
  split; [rewrite Hgt, length_map, length_firstn; lia |].
  split.
  - rewrite Hgt. apply Forall_map. apply Forall_forall. intros g _. discriminate.
  - intros Htags.
    pose proof (readData_unzip useRadar useLidar in_file_ Htags) as Hal.
    cbv zeta in Hal. fold lists in Hal.
    rewrite Hgt, Hal. cbn [fst snd]. rewrite length_map.
    rewrite <- (length_map snd), firstn_all, map_map. reflexivity.
Qed.

End MainR.
